(** * LC-3 virtual CPU: a shallow embedding of [pkg/cpu/cpu.go]

    Words are Go [uint16] values, embedded as [Z] with the wrap-around
    written out ([wrap16]).  The register file is the Go array
    [[RCOUNT]uint16], embedded as a list updated by index; the memory is the
    array [[MemoryMax]uint16], indexed by a [uint16], embedded as a total
    function from addresses to words.  Methods that mutate the receiver or
    perform I/O become state transformers on [machine], which pairs the CPU
    with its input and output streams.

    The two trap handlers that loop until they read a zero word, and the
    execution loop itself, take a fuel; [Timeout] is the outcome of a call
    that has not returned within it.  A call that never returns is one that
    times out for every fuel. *)

From Stdlib Require Import ZArith List Lia Bool String Ascii.
From stdpp Require Import base list.
Import ListNotations.

Local Open Scope Z_scope.

(** ** Constant packages *)

Module constants.
Definition MemoryMax : Z := Z.shiftl 1 16.
End constants.

Module registers.
  (* package registers: the [iota] enumeration of register indices *)
Definition RR0 : Z := 0.
Definition RR1 : Z := 1.
Definition RR2 : Z := 2.
Definition RR3 : Z := 3.
Definition RR4 : Z := 4.
Definition RR5 : Z := 5.
Definition RR6 : Z := 6.
Definition RR7 : Z := 7.
Definition RPC : Z := 8.
Definition RCOND : Z := 9.
Definition RCOUNT : Z := 10.
  (* memory mapped keyboard status and data registers *)
Definition MRKBSR : Z := 0xFE00.
Definition MRKBDR : Z := 0xFE02.
End registers.

Module cflags.
Definition FLPOS : Z := Z.shiftl 1 0.
Definition FLZRO : Z := Z.shiftl 1 1.
Definition FLNEG : Z := Z.shiftl 1 2.
End cflags.

Module opcodes.
Definition OPBR : Z := 0.
Definition OPADD : Z := 1.
Definition OPLD : Z := 2.
Definition OPST : Z := 3.
Definition OPJSR : Z := 4.
Definition OPAND : Z := 5.
Definition OPLDR : Z := 6.
Definition OPSTR : Z := 7.
Definition OPRTI : Z := 8.
Definition OPNOT : Z := 9.
Definition OPLDI : Z := 10.
Definition OPSTI : Z := 11.
Definition OPJMP : Z := 12.
Definition OPRES : Z := 13.
Definition OPLEA : Z := 14.
Definition OPTRAP : Z := 15.
End opcodes.

Module traps.
Definition GETC : Z := 0x20.
Definition OUT : Z := 0x21.
Definition PUTS : Z := 0x22.
Definition IN : Z := 0x23.
Definition PUTSP : Z := 0x24.
Definition HALT : Z := 0x25.
End traps.

(** ** Words *)

(** Arithmetic on [uint16] is modulo 2^16. *)
Definition wrap16 (z : Z) : Z := z mod 65536.

(** Conversion [byte(x)] of a [uint16]. *)
Definition to_byte (z : Z) : Z := z mod 256.

Definition is_word (z : Z) : Prop := 0 <= z < 65536.
Definition is_byte (z : Z) : Prop := 0 <= z < 256.

(** ** Machine state *)

(** The Go struct [cpu]. *)
Record cpu : Type := mkCpu {
  memory : Z -> Z;          (* memory [constants.MemoryMax]uint16 *)
  registers : list Z;       (* registers [registers.RCOUNT]uint16 *)
  op : Z;                   (* op uint16 *)
  instr : Z                 (* instr uint16 *)
}.

(** The process environment the methods act on.  [stdin k] is the result of
    the [k]-th call of [bufio.NewReader(os.Stdin).ReadByte()]: [Some b] for a
    byte, [None] for a non-nil error.  [stdout] collects, call after call,
    the bytes the program hands to [os.Stdout.Write]; [stdout_calls] counts
    these calls and [stdout_err k] tells whether the [k]-th of them returns
    a non-nil error (what the file holds after such a call is not
    modelled).  [stdin_echo] collects the bytes the IN trap writes to
    [os.Stdin], a write that fails when [stdin_writable] is false. *)
Record world : Type := mkWorld {
  stdin : nat -> option Z;
  stdin_pos : nat;
  stdout : list Z;
  stdout_err : nat -> bool;
  stdout_calls : nat;
  stdin_writable : bool;
  stdin_echo : list Z
}.

(** A CPU in its environment; [running] is the local variable of [Loop] that
    the [cancel] closure clears. *)
Record machine : Type := mkMachine {
  core : cpu;
  env : world;
  running : bool
}.

Inductive error : Type :=
| ReadError                          (* the error of a failed ReadByte *)
| WriteError                         (* the error of a failed write *)
| FailedToHandleOpcode (o : Z)       (* "failed to handle opcode %x" *)
| UnrecognizedTrap (t : Z)           (* "unrecognized trap %x" *)
| UnrecognizedOperation (o : Z).     (* "unrecognized operation %d" *)

(** What a method call leaves behind: a value and the mutated machine, a
    non-nil error and the mutated machine, or no return within the fuel. *)
Inductive outcome (A : Type) : Type :=
| Ok (a : A) (s : machine)
| Fail (e : error) (s : machine)
| Timeout.
Arguments Ok {A} a s.
Arguments Fail {A} e s.
Arguments Timeout {A}.

Definition M (A : Type) : Type := machine -> outcome A.

Definition bind {A B : Type} (m : M A) (k : A -> M B) : M B :=
  fun s => match m s with
           | Ok a s' => k a s'
           | Fail e s' => Fail e s'
           | Timeout => Timeout
           end.

Notation "'do' x <- m ; k" := (bind m (fun x => k))
  (at level 10, x name, m at level 100, k at level 200).

(** *** Accessors *)

Definition reg (r : Z) (s : machine) : Z :=
  registers (core s) !!! Z.to_nat r.

Definition mem (a : Z) (s : machine) : Z := memory (core s) a.

Definition with_core (f : cpu -> cpu) (s : machine) : machine :=
  mkMachine (f (core s)) (env s) (running s).

Definition with_env (f : world -> world) (s : machine) : machine :=
  mkMachine (core s) (f (env s)) (running s).

(** [cpu.registers[r] = v] *)
Definition set_reg (r v : Z) : machine -> machine :=
  with_core (fun c =>
    mkCpu (memory c) (<[Z.to_nat r := v]> (registers c)) (op c) (instr c)).

(** [c.memory[a] = v] *)
Definition set_mem (a v : Z) : machine -> machine :=
  with_core (fun c =>
    mkCpu (fun a' => if a' =? a then v else memory c a')
          (registers c) (op c) (instr c)).

Definition set_decoded (o i : Z) : machine -> machine :=
  with_core (fun c => mkCpu (memory c) (registers c) o i).

Definition set_memory (m : Z -> Z) : machine -> machine :=
  with_core (fun c => mkCpu m (registers c) (op c) (instr c)).

Definition set_running (b : bool) (s : machine) : machine :=
  mkMachine (core s) (env s) b.

(** One call of [os.Stdout.Write] with the bytes [bs], its results dropped:
    what [fmt.Print] and [fmt.Printf] come to, whose results the handlers
    ignore. *)
Definition write_stdout (bs : list Z) : machine -> machine :=
  with_env (fun w =>
    mkWorld (stdin w) (stdin_pos w) (stdout w ++ bs)
            (stdout_err w) (S (stdout_calls w))
            (stdin_writable w) (stdin_echo w)).

(** [os.Stdout.Write(bs)] with its error: the bytes are handed over, the
    call is counted, and the environment tells whether it fails. *)
Definition Stdout_Write (bs : list Z) : M unit :=
  fun s =>
    if stdout_err (env s) (stdout_calls (env s))
    then Fail WriteError (write_stdout bs s)
    else Ok tt (write_stdout bs s).

(** [bufio.NewReader(os.Stdin).ReadByte()] *)
Definition ReadByte (s : machine) : option Z * machine :=
  (stdin (env s) (stdin_pos (env s)),
   with_env (fun w =>
     mkWorld (stdin w) (S (stdin_pos w)) (stdout w)
             (stdout_err w) (stdout_calls w)
             (stdin_writable w) (stdin_echo w)) s).

(** Flushing a [bufio.Writer] on [os.Stdin] that holds the bytes [bs]. *)
Definition flush_stdin (bs : list Z) : M unit :=
  fun s =>
    if stdin_writable (env s)
    then Ok tt (with_env (fun w =>
           mkWorld (stdin w) (stdin_pos w) (stdout w)
                   (stdout_err w) (stdout_calls w)
                   (stdin_writable w) (stdin_echo w ++ bs)) s)
    else Fail WriteError s.

(** ** The CPU methods *)

(** [signExtend(x, bitCount)]: both shifts are [uint16] shifts, the constant
    [0xFFFF] takes the type of [x]. *)
Definition signExtend (x bitCount : Z) : Z :=
  if negb (Z.land (Z.shiftr x (wrap16 (bitCount - 1))) 1 =? 0)
  then Z.lor x (wrap16 (Z.shiftl 0xFFFF bitCount))
  else x.

Definition incrProgramCounter (s : machine) : machine :=
  let pc := reg registers.RPC s in
  let pc := wrap16 (pc + 1) in
  set_reg registers.RPC pc s.

Definition memoryRead (address : Z) : M Z :=
  fun s =>
    if address =? registers.MRKBSR then
      match ReadByte s with
      | (None, s1) => Fail ReadError s1
      | (Some key, s1) =>
          let s2 :=
            if negb (key =? 0)
            then set_mem registers.MRKBDR key
                   (set_mem registers.MRKBSR (wrap16 (Z.shiftl 1 15)) s1)
            else set_mem registers.MRKBSR 0 s1 in
          Ok (mem address s2) s2
      end
    else Ok (mem address s) s.

Definition memoryWrite (address val : Z) : M unit :=
  fun s => Ok tt (set_mem address val s).

Definition updateFlags (r : Z) (s : machine) : machine :=
  if reg r s =? 0 then set_reg registers.RCOND cflags.FLZRO s
  else if negb (Z.shiftr (reg r s) 15 =? 0)
       then set_reg registers.RCOND cflags.FLNEG s
       else set_reg registers.RCOND cflags.FLPOS s.

Definition Step : M unit :=
  fun s =>
    match memoryRead (reg registers.RPC s) s with
    | Fail e s' => Fail e s'
    | Timeout => Timeout
    | Ok i s1 =>
        let s2 := incrProgramCounter s1 in
        Ok tt (set_decoded (Z.shiftr i 12) i s2)
    end.

(** *** Opcode handlers *)

Definition ins (s : machine) : Z := instr (core s).

Definition unhandledOpcode : M unit :=
  fun s => Fail (FailedToHandleOpcode (op (core s))) s.

Definition handleAdd : M unit :=
  fun s =>
    let r0 := Z.land (Z.shiftr (ins s) 9) 0x7 in
    let r1 := Z.land (Z.shiftr (ins s) 6) 0x7 in
    let immFlag := Z.land (Z.shiftr (ins s) 5) 0x1 in
    let s1 :=
      if immFlag =? 1 then
        let imm5 := signExtend (Z.land (ins s) 0x1F) 5 in
        set_reg r0 (wrap16 (reg r1 s + imm5)) s
      else
        let r2 := Z.land (ins s) 0x7 in
        set_reg r0 (wrap16 (reg r1 s + reg r2 s)) s in
    Ok tt (updateFlags r0 s1).

Definition handleAnd : M unit :=
  fun s =>
    let r0 := Z.land (Z.shiftr (ins s) 9) 0x7 in
    let r1 := Z.land (Z.shiftr (ins s) 6) 0x7 in
    let immFlag := Z.land (Z.shiftr (ins s) 5) 0x1 in
    let s1 :=
      if immFlag =? 1 then
        let imm5 := signExtend (Z.land (ins s) 0x1F) 5 in
        set_reg r0 (Z.land (reg r1 s) imm5) s
      else
        let r2 := Z.land (ins s) 0x7 in
        set_reg r0 (Z.land (reg r1 s) (reg r2 s)) s in
    Ok tt (updateFlags r0 s1).

Definition handleBr : M unit :=
  fun s =>
    let condFlag := Z.land (Z.shiftr (ins s) 9) 0x7 in
    let pcOffset := signExtend (Z.land (ins s) 0x1FF) 9 in
    if negb (Z.land condFlag (reg registers.RCOND s) =? 0)
    then Ok tt (set_reg registers.RPC
                  (wrap16 (reg registers.RPC s + pcOffset)) s)
    else Ok tt s.

Definition handleJmp : M unit :=
  fun s =>
    let r1 := Z.land (Z.shiftr (ins s) 6) 0x7 in
    Ok tt (set_reg registers.RPC (reg r1 s) s).

Definition handleJumpSubroutine : M unit :=
  fun s =>
    let s1 := set_reg registers.RR7 (reg registers.RPC s) s in
    let bit11 := Z.land (Z.shiftr (ins s1) 11) 0x1 in
    if bit11 =? 0 then
      let baseR := Z.land (Z.shiftr (ins s1) 6) 0x7 in
      Ok tt (set_reg registers.RPC (reg baseR s1) s1)
    else
      let pcOffset := signExtend (Z.land (ins s1) 0x7FF) 11 in
      Ok tt (set_reg registers.RPC
               (wrap16 (reg registers.RPC s1 + pcOffset)) s1).

Definition handleLoad : M unit :=
  fun s =>
    let dr := Z.land (Z.shiftr (ins s) 9) 0x7 in
    let pcOffset := signExtend (Z.land (ins s) 0x1FF) 9 in
    (do data <- memoryRead (wrap16 (reg registers.RPC s + pcOffset));
     fun s1 => Ok tt (updateFlags dr (set_reg dr data s1))) s.

Definition handleLoadR : M unit :=
  fun s =>
    let dr := Z.land (Z.shiftr (ins s) 9) 0x7 in
    let br := Z.land (Z.shiftr (ins s) 6) 0x7 in
    let offset := signExtend (Z.land (ins s) 0x3F) 6 in
    (do k <- memoryRead (wrap16 (reg br s + offset));
     fun s1 => Ok tt (updateFlags dr (set_reg dr k s1))) s.

Definition handleStore : M unit :=
  fun s =>
    let sr := Z.land (Z.shiftr (ins s) 9) 0x7 in
    let pcOffset := signExtend (Z.land (ins s) 0x1FF) 9 in
    let loc := wrap16 (reg registers.RPC s + pcOffset) in
    memoryWrite loc (reg sr s) s.

Definition handleStoreIndirect : M unit :=
  fun s =>
    let pc := reg registers.RPC s in
    let pcOffset := signExtend (Z.land (ins s) 0x1FF) 9 in
    (do addr <- memoryRead (wrap16 (pc + pcOffset));
     fun s1 =>
       let sr := Z.land (Z.shiftr (ins s1) 9) 0x7 in
       memoryWrite addr (reg sr s1) s1) s.

Definition handleStr : M unit :=
  fun s =>
    let sr := Z.land (Z.shiftr (ins s) 9) 0x7 in
    let baseR := Z.land (Z.shiftr (ins s) 6) 0x7 in
    let offset := signExtend (Z.land (ins s) 0x3F) 6 in
    memoryWrite (wrap16 (reg baseR s + offset)) (reg sr s) s.

Definition handleLoadEffectiveAddress : M unit :=
  fun s =>
    let dr := Z.land (Z.shiftr (ins s) 9) 0x7 in
    let pcOffset := signExtend (Z.land (ins s) 0x1FF) 9 in
    Ok tt (updateFlags dr
             (set_reg dr (wrap16 (reg registers.RPC s + pcOffset)) s)).

(** [^x] on a [uint16]. *)
Definition not16 (x : Z) : Z := wrap16 (Z.lnot x).

Definition handleNot : M unit :=
  fun s =>
    let dr := Z.land (Z.shiftr (ins s) 9) 0x7 in
    let sr := Z.land (Z.shiftr (ins s) 6) 0x7 in
    Ok tt (updateFlags dr (set_reg dr (not16 (reg sr s)) s)).

Definition handleLoadIndirect : M unit :=
  fun s =>
    let r0 := Z.land (Z.shiftr (ins s) 9) 0x7 in
    let pcOffset := signExtend (Z.land (ins s) 0x1FF) 9 in
    (do addr <- memoryRead (wrap16 (reg registers.RPC s + pcOffset));
     do val <- memoryRead addr;
     fun s2 => Ok tt (updateFlags r0 (set_reg r0 val s2))) s.

(** *** Trap handlers *)

(** What [fmt.Printf("%c", char)] writes for a [uint16] operand: the UTF-8
    encoding of the code point [char], the replacement character U+FFFD for
    a surrogate half ([utf8.AppendRune]). *)
Definition utf8_AppendRune (r : Z) : list Z :=
  if r <=? 0x7F then [to_byte r]
  else if r <=? 0x7FF then
    [Z.lor 0xC0 (to_byte (Z.shiftr r 6));
     Z.lor 0x80 (Z.land (to_byte r) 0x3F)]
  else if (0xD800 <=? r) && (r <=? 0xDFFF) then [0xEF; 0xBF; 0xBD]
  else
    [Z.lor 0xE0 (to_byte (Z.shiftr r 12));
     Z.lor 0x80 (Z.land (to_byte (Z.shiftr r 6)) 0x3F);
     Z.lor 0x80 (Z.land (to_byte r) 0x3F)].

Definition printf_c (char : Z) : machine -> machine :=
  write_stdout (utf8_AppendRune char).

(** [Flush] on a [bufio.Writer] over [os.Stdout] whose pending bytes are
    [buf]: with nothing pending it returns nil without a write; otherwise it
    hands the pending bytes to [os.Stdout.Write] and returns the error of
    that call. *)
Definition bufio_Flush (buf : list Z) : M unit :=
  fun s =>
    match buf with
    | [] => Ok tt s
    | _ :: _ => Stdout_Write buf s
    end.

(** [WriteByte] on that writer: a full buffer (4096 bytes) is flushed
    first, and the error of a failed flush returned; the value is the
    writer's pending bytes after the call. *)
Definition bufio_WriteByte (c : Z) (buf : list Z) : M (list Z) :=
  fun s =>
    if 4096 <=? Z.of_nat (length buf)
    then (do _ <- bufio_Flush buf; fun s1 => Ok [c] s1) s
    else Ok (buf ++ [c]) s.

Definition handleGetC : M unit :=
  fun s =>
    match ReadByte s with
    | (None, s1) => Fail ReadError s1
    | (Some byt, s1) =>
        Ok tt (updateFlags registers.RR0 (set_reg registers.RR0 byt s1))
    end.

(** The loop of [handlePuts], from address [addr] on. *)
Fixpoint handlePuts_loop (fuel : nat) (addr : Z) : M unit :=
  fun s =>
    match fuel with
    | O => Timeout
    | S fuel' =>
        match memoryRead addr s with
        | Fail e s1 => Fail e s1
        | Timeout => Timeout
        | Ok char s1 =>
            if char =? 0 then Ok tt s1
            else handlePuts_loop fuel' (wrap16 (addr + 1)) (printf_c char s1)
        end
    end.

Definition handlePuts (fuel : nat) : M unit :=
  fun s => handlePuts_loop fuel (reg registers.RR0 s) s.

Definition handleOut : M unit :=
  fun s =>
    let elem := to_byte (reg registers.RR0 s) in
    (do buf <- bufio_WriteByte elem [];
     bufio_Flush buf) s.

Definition prompt : list Z :=
  map (fun c => Z.of_N (N_of_ascii c))
      (list_ascii_of_string "Enter a character: ").

Definition handleIn : M unit :=
  fun s =>
    let s0 := write_stdout prompt s in
    match ReadByte s0 with
    | (None, s1) => Fail ReadError s1
    | (Some byt, s1) =>
        let s2 := updateFlags registers.RR0 (set_reg registers.RR0 byt s1) in
        flush_stdin [byt] s2
    end.

(** The loop of [handlePutsP], from address [addr] on, with the writer's
    pending bytes [buf]; leaving the loop at a zero word flushes them, an
    error return (of the memory read or of a write) drops them. *)
Fixpoint handlePutsP_loop (fuel : nat) (addr : Z) (buf : list Z) : M unit :=
  fun s =>
    match fuel with
    | O => Timeout
    | S fuel' =>
        match memoryRead addr s with
        | Fail e s1 => Fail e s1
        | Timeout => Timeout
        | Ok char s1 =>
            if char =? 0 then bufio_Flush buf s1
            else
              match bufio_WriteByte (to_byte (Z.land char 0xFF)) buf s1 with
              | Fail e s2 => Fail e s2
              | Timeout => Timeout
              | Ok buf1 s2 =>
                  let symb := Z.shiftr char 8 in
                  if negb (symb =? 0) then
                    match bufio_WriteByte (to_byte symb) buf1 s2 with
                    | Fail e s3 => Fail e s3
                    | Timeout => Timeout
                    | Ok buf2 s3 =>
                        handlePutsP_loop fuel' (wrap16 (addr + 1)) buf2 s3
                    end
                  else handlePutsP_loop fuel' (wrap16 (addr + 1)) buf1 s2
              end
        end
    end.

Definition handlePutsP (fuel : nat) : M unit :=
  fun s => handlePutsP_loop fuel (reg registers.RR0 s) [] s.

Definition handleHalt : M unit :=
  fun s => Ok tt (set_running false s).

(** The table entries take the fuel of the two handlers that loop. *)
Definition trapTable (t : Z) : option (nat -> M unit) :=
  match t with
  | 0x20 => Some (fun _ => handleGetC)
  | 0x21 => Some (fun _ => handleOut)
  | 0x22 => Some handlePuts
  | 0x23 => Some (fun _ => handleIn)
  | 0x24 => Some handlePutsP
  | 0x25 => Some (fun _ => handleHalt)
  | _ => None
  end.

Definition handleTrap (fuel : nat) : M unit :=
  fun s =>
    let s1 := set_reg registers.RR7 (reg registers.RPC s) s in
    let trap := Z.land (ins s1) 0xFF in
    match trapTable trap with
    | None => Fail (UnrecognizedTrap trap) s1
    | Some handler => handler fuel s1
    end.

Definition opTable (o : Z) : option (nat -> M unit) :=
  match o with
  | 0 => Some (fun _ => handleBr)
  | 1 => Some (fun _ => handleAdd)
  | 2 => Some (fun _ => handleLoad)
  | 3 => Some (fun _ => handleStore)
  | 4 => Some (fun _ => handleJumpSubroutine)
  | 5 => Some (fun _ => handleAnd)
  | 6 => Some (fun _ => handleLoadR)
  | 7 => Some (fun _ => handleStr)
  | 8 => Some (fun _ => unhandledOpcode)
  | 9 => Some (fun _ => handleNot)
  | 10 => Some (fun _ => handleLoadIndirect)
  | 11 => Some (fun _ => handleStoreIndirect)
  | 12 => Some (fun _ => handleJmp)
  | 13 => Some (fun _ => unhandledOpcode)
  | 14 => Some (fun _ => handleLoadEffectiveAddress)
  | 15 => Some handleTrap
  | _ => None
  end.

(** *** The execution loop *)

(** The continuation [Run] hands to [Loop]. *)
Definition dispatch (o : Z) (fuel : nat) : M unit :=
  fun s =>
    match opTable o with
    | None => Fail (UnrecognizedOperation o) s
    | Some fn => fn fuel s
    end.

(** The [for running { ... }] of [Loop]. *)
Fixpoint Loop_from (loopCont : Z -> nat -> M unit) (fuel : nat) : M unit :=
  fun s =>
    match fuel with
    | O => Timeout
    | S fuel' =>
        if running s then
          match Step s with
          | Fail e s1 => Fail e s1
          | Timeout => Timeout
          | Ok _ s1 =>
              match loopCont (op (core s1)) fuel' s1 with
              | Fail e s2 => Fail e s2
              | Timeout => Timeout
              | Ok _ s2 => Loop_from loopCont fuel' s2
              end
          end
        else Ok tt s
    end.

Definition Loop (loopCont : Z -> nat -> M unit) (fuel : nat) : M unit :=
  fun s => Loop_from loopCont fuel (set_running true s).

Definition Run (image : Z -> Z) (fuel : nat) : M unit :=
  fun s => Loop dispatch fuel (set_memory image s).

(** The three states of a run. *)
Inductive run_state : Type :=
| RUNNING
| HALTED
| FAILED (reason : error).

Definition run_result (r : outcome unit) : run_state :=
  match r with
  | Ok _ _ => HALTED
  | Fail e _ => FAILED e
  | Timeout => RUNNING
  end.

Definition NewCPU : cpu :=
  mkCpu (fun _ => 0)
        (<[Z.to_nat registers.RPC := 0x3000]>
           (<[Z.to_nat registers.RCOND := cflags.FLZRO]>
              (replicate (Z.to_nat registers.RCOUNT) 0)))
        0 0.

(** ** Well-formed machines: every slot holds a [uint16], every input a byte *)

Record wf (s : machine) : Prop := mkWf {
  wf_len : length (registers (core s)) = Z.to_nat registers.RCOUNT;
  wf_regs : Forall is_word (registers (core s));
  wf_mem : forall a, is_word (mem a s);
  wf_instr : is_word (ins s);
  wf_stdin : forall k b, stdin (env s) k = Some b -> is_byte b
}.

(** A machine to evaluate the handlers on: a fresh CPU with the given
    instruction decoded, the given memory image and input. *)
Definition boot (image : Z -> Z) (input : nat -> option Z) (i : Z) : machine :=
  mkMachine
    (mkCpu image (registers NewCPU) (Z.shiftr i 12) i)
    (mkWorld input 0%nat [] (fun _ => false) 0%nat true [])
    true.

(** ** Reference notions the statements compare the code with *)

(** Modelled on the spec's words: the 16-bit two's-complement word of the
    signed value that the [n]-bit field [f] denotes. *)
Definition sign_extension (n f : Z) : Z :=
  wrap16 (if Z.testbit f (n - 1) then f - 2 ^ n else f).

(** The register fields of an instruction word. *)
Definition field_dr (s : machine) : Z := Z.land (Z.shiftr (ins s) 9) 0x7.
Definition field_sr1 (s : machine) : Z := Z.land (Z.shiftr (ins s) 6) 0x7.
Definition field_sr2 (s : machine) : Z := Z.land (ins s) 0x7.

(** The condition tag of a word: ZERO for 0, NEGATIVE when bit 15 is set,
    POSITIVE otherwise. *)
Definition flag_of (v : Z) : Z :=
  if v =? 0 then cflags.FLZRO
  else if Z.testbit v 15 then cflags.FLNEG
  else cflags.FLPOS.

(** What a register-writing handler leaves: on a nil error the destination
    register holds a word [v] and COND holds the tag of [v]; on an error
    (a failed input read during a load) no register has changed. *)
Definition flags_follow_write (s : machine) (r : outcome unit) : Prop :=
  (exists s', r = Ok tt s' /\ wf s' /\
              is_word (reg (field_dr s) s') /\
              reg registers.RCOND s' = flag_of (reg (field_dr s) s')) \/
  (exists s', r = Fail ReadError s' /\
              registers (core s') = registers (core s)).

(** The address a load reads first, as its handler computes it: the base
    register plus the 6-bit offset for LDR, the PC plus the 9-bit offset
    for LD and LDI. *)
Definition load_address (o : Z) (s : machine) : Z :=
  if o =? opcodes.OPLDR
  then wrap16 (reg (field_sr1 s) s + signExtend (Z.land (ins s) 0x3F) 6)
  else wrap16 (reg registers.RPC s + signExtend (Z.land (ins s) 0x1FF) 9).

(** Whether the instruction with opcode [o] reads the keyboard status
    register 0xFE00, and so takes an input byte: LD or LDR whose address
    is 0xFE00, LDI whose address is 0xFE00 or holds the pointer 0xFE00. *)
Definition polls_keyboard (o : Z) (s : machine) : bool :=
  if (o =? opcodes.OPLD) || (o =? opcodes.OPLDR)
  then load_address o s =? registers.MRKBSR
  else if o =? opcodes.OPLDI
  then (load_address o s =? registers.MRKBSR) ||
       (mem (load_address o s) s =? registers.MRKBSR)
  else false.

(** Whether the next input read fails. *)
Definition input_fails (s : machine) : bool :=
  match stdin (env s) (stdin_pos (env s)) with
  | None => true
  | Some _ => false
  end.

(** Two machines that the memory read cannot tell apart: same CPU, same
    input and input position (the output may differ). *)
Definition same_input (s t : machine) : Prop :=
  core s = core t /\
  stdin (env s) = stdin (env t) /\
  stdin_pos (env s) = stdin_pos (env t).

(** [scan_words addr s ws s']: reading upward from [addr] (wrapping modulo
    2^16) through [memoryRead], with its keyboard side effect, gives the
    nonzero words [ws] and then a word equal to 0, no read failing; [s'] is
    the machine after the last read. *)
Inductive scan_words : Z -> machine -> list Z -> machine -> Prop :=
| scan_zero addr s s' :
    memoryRead addr s = Ok 0 s' ->
    scan_words addr s [] s'
| scan_more addr s c s1 ws s' :
    memoryRead addr s = Ok c s1 ->
    c <> 0 ->
    scan_words (wrap16 (addr + 1)) s1 ws s' ->
    scan_words addr s (c :: ws) s'.

Definition scan_reaches_zero (addr : Z) (s : machine) : Prop :=
  exists ws s', scan_words addr s ws s'.

(** No address holds a zero word. *)
Definition no_zero_word (s : machine) : Prop :=
  forall a, is_word a -> mem a s <> 0.

(** Every input read succeeds. *)
Definition input_never_fails (s : machine) : Prop :=
  forall k, stdin (env s) k <> None.

(** Every input read succeeds with a nonzero byte. *)
Definition input_nonzero (s : machine) : Prop :=
  forall k, exists b, stdin (env s) k = Some b /\ b <> 0.

(** Every write to the output, from now on, succeeds. *)
Definition output_never_fails (s : machine) : Prop :=
  forall k, (stdout_calls (env s) <= k)%nat -> stdout_err (env s) k = false.

(** Every write to the output, from now on, fails. *)
Definition output_always_fails (s : machine) : Prop :=
  forall k, (stdout_calls (env s) <= k)%nat -> stdout_err (env s) k = true.

(** [s'] comes from [s] by writes to the output and nothing else. *)
Definition output_only (s s' : machine) : Prop :=
  core s' = core s /\ running s' = running s /\
  stdin (env s') = stdin (env s) /\
  stdin_pos (env s') = stdin_pos (env s) /\
  stdin_writable (env s') = stdin_writable (env s) /\
  stdin_echo (env s') = stdin_echo (env s) /\
  stdout_err (env s') = stdout_err (env s) /\
  (stdout_calls (env s) <= stdout_calls (env s'))%nat.

(** The machine a call leaves, if it returns, is well formed. *)
Definition outcome_wf {A : Type} (r : outcome A) : Prop :=
  match r with
  | Ok _ s' => wf s'
  | Fail _ s' => wf s'
  | Timeout => True
  end.

(** ** Further notions used by the statements *)

(** COND holds one of the three tags. *)
Definition cond_ok (s : machine) : Prop :=
  reg registers.RCOND s = cflags.FLPOS \/
  reg registers.RCOND s = cflags.FLZRO \/
  reg registers.RCOND s = cflags.FLNEG.

(** The signed value of an [n]-bit two's-complement field. *)
Definition signed_field (n f : Z) : Z :=
  if Z.testbit f (n - 1) then f - 2 ^ n else f.

(** What the decoded instruction and the loop flag are. *)
Definition same_decoded (s t : machine) : Prop :=
  op (core s) = op (core t) /\ ins s = ins t /\ running s = running t.

(** A property of the machine a call leaves, if it returns. *)
Definition outcome_holds {A : Type} (r : outcome A) (P : machine -> Prop)
  : Prop :=
  match r with
  | Ok _ s' => P s'
  | Fail _ s' => P s'
  | Timeout => True
  end.

(** The errors a run can end with: a failed input read; a failed write,
    which is the echo of the IN trap to the input file or the write of OUT
    or PUTSP to the output; the two unimplemented opcodes; a trap vector
    outside 0x20..0x25. *)
Definition run_error (e : error) : Prop :=
  e = ReadError \/ e = WriteError \/
  e = FailedToHandleOpcode opcodes.OPRTI \/
  e = FailedToHandleOpcode opcodes.OPRES \/
  exists t, e = UnrecognizedTrap t /\ 0 <= t < 256 /\ ~ (0x20 <= t <= 0x25).

(** What no handler changes: the machine stays well formed, the decoded
    instruction stays, COND stays a tag. *)
Definition preserved (s s' : machine) : Prop :=
  wf s' /\ op (core s') = op (core s) /\ ins s' = ins s /\
  (cond_ok s -> cond_ok s').

(** The outcome of a handler other than HALT and the dispatchers: the
    loop flag is left alone, and an error is one of the two I/O errors. *)
Definition handler_post (s : machine) (r : outcome unit) : Prop :=
  match r with
  | Ok _ s' => preserved s s' /\ running s' = running s
  | Fail e s' =>
      preserved s s' /\ running s' = running s /\
      (e = ReadError \/ e = WriteError)
  | Timeout => True
  end.

(** The outcome of a dispatch on opcode [o]. *)
Definition dispatch_post (o : Z) (s : machine) (r : outcome unit) : Prop :=
  match r with
  | Ok _ s' =>
      preserved s s' /\
      (running s' = running s \/
       (o = opcodes.OPTRAP /\ Z.land (ins s) 0xFF = traps.HALT /\
        running s' = false))
  | Fail e s' =>
      preserved s s' /\ running s' = running s /\
      (e = ReadError \/ e = WriteError \/
       (e = FailedToHandleOpcode (op (core s)) /\
        (o = opcodes.OPRTI \/ o = opcodes.OPRES)) \/
       (o = opcodes.OPTRAP /\
        e = UnrecognizedTrap (Z.land (ins s) 0xFF) /\
        ~ (0x20 <= Z.land (ins s) 0xFF <= 0x25)) \/
       (e = UnrecognizedOperation o /\ ~ (0 <= o < 16)))
  | Timeout => True
  end.

(** The bytes PUTSP writes for a word: the low byte, then the high byte
    unless it is zero. *)
Definition putsp_bytes (w : Z) : list Z :=
  to_byte (Z.land w 0xFF) ::
  (if Z.shiftr w 8 =? 0 then [] else [to_byte (Z.shiftr w 8)]).

(** [reaches s s']: the loop, started on [s], passes through [s'] at the
    top of an iteration. *)
Inductive reaches : machine -> machine -> Prop :=
| reaches_here s : reaches s s
| reaches_step s s1 s2 s' fuel :
    running s = true ->
    Step s = Ok tt s1 ->
    dispatch (op (core s1)) fuel s1 = Ok tt s2 ->
    reaches s2 s' ->
    reaches s s'.

(** A fresh CPU in an environment, as [main] hands it to [Run]. *)
Definition fresh (w : world) : machine := mkMachine NewCPU w false.

(** An environment whose input consists of bytes. *)
Definition byte_input (w : world) : Prop :=
  forall k b, stdin w k = Some b -> is_byte b.

(** A memory image of 16-bit words. *)
Definition word_image (image : Z -> Z) : Prop := forall a, is_word (image a).

(** [scan_fails addr s ws s']: reading upward from [addr] through
    [memoryRead] gives the nonzero words [ws] and then a read fails; [s'] is
    the machine the failed read leaves. *)
Inductive scan_fails : Z -> machine -> list Z -> machine -> Prop :=
| scan_fail addr s e s' :
    memoryRead addr s = Fail e s' ->
    scan_fails addr s [] s'
| scan_fail_more addr s c s1 ws s' :
    memoryRead addr s = Ok c s1 ->
    c <> 0 ->
    scan_fails (wrap16 (addr + 1)) s1 ws s' ->
    scan_fails addr s (c :: ws) s'.

(** The address a store instruction writes: PC plus the signed 9-bit offset
    for ST, the base register plus the signed 6-bit offset for STR, the
    word found at the ST address for STI. *)
Definition store_address (o : Z) (s : machine) : Z :=
  let direct :=
    (reg registers.RPC s + signed_field 9 (Z.land (ins s) 0x1FF))
    mod 65536 in
  if o =? opcodes.OPST then direct
  else if o =? opcodes.OPSTR then
    (reg (field_sr1 s) s + signed_field 6 (Z.land (ins s) 0x3F)) mod 65536
  else mem direct s.

(** ** The image loader of [main.go]

    A regular file is its list of bytes.  [os.File.Read] on it with a buffer
    of [n] bytes, from offset [off], fills the buffer with the bytes that
    are left, at most [n], and leaves the rest of the buffer zero; it fails
    with [io.EOF] when [n] is positive and nothing is left.  Opening the
    file and [Stat] are taken to succeed, [Stat] giving the length. *)

Inductive load_error : Type :=
| LoadEOF.

Definition file_Read (content : list Z) (off n : nat)
  : option (list Z) * nat :=
  let got := firstn n (skipn off content) in
  if (0 <? n)%nat && (length got =? 0)%nat then (None, off)
  else (Some (got ++ repeat 0 (n - length got)), (off + length got)%nat).

(** [binary.Read(buffer, binary.BigEndian, &val)] for a fresh [val uint16]:
    two bytes left give the big-endian word; with fewer the read fails,
    [val] stays 0 and the buffer is drained. *)
Definition binary_Read_uint16 (buffer : list Z) : Z * list Z :=
  match buffer with
  | b0 :: b1 :: rest => (b0 * 256 + b1, rest)
  | _ => (0, [])
  end.

(** The loop [for i := origin; i < math.MaxUint16; i++] of [readImage]. *)
Fixpoint readImage_loop (fuel : nat) (i : Z) (buffer : list Z) (m : Z -> Z)
  : option (Z -> Z) :=
  if i <? 65535 then
    match fuel with
    | O => None
    | S fuel' =>
        let (val, buffer') := binary_Read_uint16 buffer in
        readImage_loop fuel' (i + 1) buffer'
          (fun a => if a =? i then val else m a)
    end
  else Some m.

(** [readImage]: the memory it returns and its error; [None] stands for a
    loop that has not ended within the fuel. *)
Definition readImage (fuel : nat) (content : list Z)
  : option ((Z -> Z) * option load_error) :=
  let m := fun _ : Z => 0 in
  match file_Read content 0 2 with
  | (None, _) => Some (m, Some LoadEOF)
  | (Some headerBytes, off) =>
      let origin := nth 0 headerBytes 0 * 256 + nth 1 headerBytes 0 in
      let size := length content in
      match file_Read content off size with
      | (None, _) => Some (m, Some LoadEOF)
      | (Some byteArr, _) =>
          match readImage_loop fuel origin byteArr m with
          | Some m' => Some (m', None)
          | None => None
          end
      end
  end.

(** The big-endian word at position [k] of a list of bytes, absent bytes
    counting as zero. *)
Definition word_of_bytes (bs : list Z) (k : Z) : Z :=
  nth (Z.to_nat (2 * k)) bs 0 * 256 + nth (Z.to_nat (2 * k + 1)) bs 0.

(* ================================================================= *)
(** * Properties *)

(** ** Words and bit fields *)

Lemma wrap16_word z : is_word (wrap16 z).
Proof. unfold is_word, wrap16. apply Z.mod_pos_bound. lia. Qed.

Lemma wrap16_small z : is_word z -> wrap16 z = z.
Proof. unfold is_word, wrap16. intros H. apply Z.mod_small. lia. Qed.

Lemma field_range x n : 0 <= n -> 0 <= Z.land x (2 ^ n - 1) < 2 ^ n.
Proof.
  intros Hn.
  replace (2 ^ n - 1) with (Z.ones n) by (rewrite Z.ones_equiv; lia).
  rewrite Z.land_ones by lia. apply Z.mod_pos_bound. lia.
Qed.

Lemma land7_range x : 0 <= Z.land x 7 < 8.
Proof. apply (field_range x 3). lia. Qed.

Lemma small_bits_high f n i :
  0 <= f < 2 ^ n -> n <= i -> Z.testbit f i = false.
Proof.
  intros Hf Hi. destruct (Z.eq_dec f 0) as [->|Hne]; [apply Z.bits_0|].
  apply Z.bits_above_log2; [lia|].
  assert (Z.log2 f < n); [|lia].
  apply Z.log2_lt_pow2; lia.
Qed.

Lemma lor_high_mask f n k :
  0 <= n -> 0 <= f < 2 ^ n -> Z.lor f (Z.shiftl k n) = f + Z.shiftl k n.
Proof.
  intros Hn Hf.
  assert (Hd : Z.land f (Z.shiftl k n) = 0).
  { apply Z.bits_inj'. intros i Hi. rewrite Z.land_spec, Z.bits_0.
    destruct (Z.lt_ge_cases i n).
    - rewrite Z.shiftl_spec_low by lia. apply andb_false_r.
    - rewrite (small_bits_high f n i) by lia. reflexivity. }
  rewrite <- Z.lxor_lor by exact Hd.
  symmetry. apply Z.add_nocarry_lxor. exact Hd.
Qed.

Lemma sign_bit_test f n :
  1 <= n -> (Z.land (Z.shiftr f (n - 1)) 1 =? 0) = negb (Z.testbit f (n - 1)).
Proof.
  intros Hn. change 1 with (Z.ones 1) at 2. rewrite Z.land_ones by lia.
  rewrite Z.shiftr_div_pow2 by lia. change (2 ^ 1) with 2.
  destruct (Z.testbit f (n - 1)) eqn:E.
  - apply Z.testbit_true in E; [|lia]. rewrite E. reflexivity.
  - apply Z.testbit_false in E; [|lia]. rewrite E. reflexivity.
Qed.

Lemma signExtend_unfold f n :
  1 <= n <= 16 ->
  signExtend f n =
  if Z.testbit f (n - 1)
  then Z.lor f (Z.shiftl (Z.ones (16 - n)) n) else f.
Proof.
  intros Hn. unfold signExtend.
  rewrite (wrap16_small (n - 1)) by (unfold is_word; lia).
  rewrite sign_bit_test by lia. rewrite negb_involutive.
  destruct (Z.testbit f (n - 1)); [|reflexivity].
  f_equal. unfold wrap16. rewrite Z.ones_equiv, !Z.shiftl_mul_pow2 by lia.
  change 65535 with (2 ^ 16 - 1). change 65536 with (2 ^ 16).
  replace (2 ^ 16) with (2 ^ (16 - n) * 2 ^ n)
    by (rewrite <- Z.pow_add_r by lia; f_equal; lia).
  assert (0 < 2 ^ n) by (apply Z.pow_pos_nonneg; lia).
  assert (0 < 2 ^ (16 - n)) by (apply Z.pow_pos_nonneg; lia).
  replace ((2 ^ (16 - n) * 2 ^ n - 1) * 2 ^ n)
    with (Z.pred (2 ^ (16 - n)) * 2 ^ n
          + (2 ^ n - 1) * (2 ^ (16 - n) * 2 ^ n)) by lia.
  rewrite Z.mod_add by lia.
  apply Z.mod_small. nia.
Qed.

Lemma signExtend_field f n :
  1 <= n <= 16 -> 0 <= f < 2 ^ n ->
  signExtend f n = sign_extension n f /\
  is_word (signExtend f n) /\
  (Z.testbit f (n - 1) = true ->
   (forall i, n - 1 <= i < 16 -> Z.testbit (signExtend f n) i = true) /\
   (forall i, 0 <= i < n - 1 ->
              Z.testbit (signExtend f n) i = Z.testbit f i)) /\
  (Z.testbit f (n - 1) = false -> signExtend f n = f).
Proof.
  intros Hn Hf.
  assert (Hp : 0 < 2 ^ n) by (apply Z.pow_pos_nonneg; lia).
  assert (Hq : 0 < 2 ^ (16 - n)) by (apply Z.pow_pos_nonneg; lia).
  assert (H16 : 2 ^ (16 - n) * 2 ^ n = 65536).
  { rewrite <- Z.pow_add_r by lia. replace (16 - n + n) with 16 by lia.
    reflexivity. }
  assert (Hle : 2 ^ n <= 65536) by nia.
  rewrite signExtend_unfold by lia. unfold sign_extension, wrap16, is_word.
  destruct (Z.testbit f (n - 1)) eqn:Hb.
  - assert (Hsum : Z.lor f (Z.shiftl (Z.ones (16 - n)) n) = f - 2 ^ n + 65536).
    { rewrite lor_high_mask by lia.
      rewrite Z.ones_equiv, Z.shiftl_mul_pow2 by lia. lia. }
    repeat split.
    + rewrite Hsum.
      replace (f - 2 ^ n + 65536) with (f - 2 ^ n + 1 * 65536) by lia.
      rewrite <- (Z.mod_add (f - 2 ^ n) 1 65536) by lia.
      symmetry. apply Z.mod_small. lia.
    + rewrite Hsum. lia.
    + rewrite Hsum. lia.
    + intros i Hi. rewrite Z.lor_spec.
      destruct (Z.eq_dec i (n - 1)) as [->|Hne]; [now rewrite Hb|].
      rewrite Z.shiftl_spec by lia.
      rewrite Z.ones_spec_low by lia. apply orb_true_r.
    + intros i Hi. rewrite Z.lor_spec, Z.shiftl_spec_low by lia.
      apply orb_false_r.
    + discriminate.
  - repeat split; try discriminate; try lia.
    symmetry. apply Z.mod_small. lia.
Qed.

(** C4: on the [n]-bit field of any word [v], for the field widths the
    handlers use (5, 6, 9 and 11), [signExtend] is the 16-bit
    two's-complement sign extension: with bit [n-1] of the field set, every
    bit from [n-1] to 15 of the result is set and the bits below are the
    field's; with it clear, the result is the field. *)
Theorem signExtend_sign_extension (v n : Z) :
  is_word v ->
  n = 5 \/ n = 6 \/ n = 9 \/ n = 11 ->
  let f := Z.land v (2 ^ n - 1) in
  signExtend f n = sign_extension n f /\
  is_word (signExtend f n) /\
  (Z.testbit f (n - 1) = true ->
   (forall i, n - 1 <= i < 16 -> Z.testbit (signExtend f n) i = true) /\
   (forall i, 0 <= i < n - 1 ->
              Z.testbit (signExtend f n) i = Z.testbit f i)) /\
  (Z.testbit f (n - 1) = false -> signExtend f n = f).
Proof.
  intros _ Hn f. apply signExtend_field; [lia|].
  apply field_range. lia.
Qed.

Lemma signExtend_sign_extension_witness :
  is_word 0xFFFF /\ (5 = 5 \/ 5 = 6 \/ 5 = 9 \/ 5 = 11) /\
  signExtend (Z.land 0xFFFF (2 ^ 5 - 1)) 5 = 0xFFFF.
Proof.
  assert (Hw : is_word 0xFFFF) by (unfold is_word; lia).
  assert (Hn : 5 = 5 \/ 5 = 6 \/ 5 = 9 \/ 5 = 11) by (left; reflexivity).
  split; [exact Hw|]. split; [exact Hn|].
  destruct (signExtend_sign_extension 0xFFFF 5 Hw Hn) as [H _].
  rewrite H. reflexivity.
Defined.

Lemma land_word a b : is_word a -> is_word (Z.land a b).
Proof.
  unfold is_word. intros Ha.
  assert (E : a = Z.land a (Z.ones 16)).
  { rewrite Z.land_ones by lia. symmetry. apply Z.mod_small.
    change (2 ^ 16) with 65536. lia. }
  rewrite E, <- Z.land_assoc, (Z.land_comm (Z.ones 16)), Z.land_assoc.
  rewrite Z.land_ones by lia. change (2 ^ 16) with 65536.
  apply Z.mod_pos_bound. lia.
Qed.

Lemma byte_word b : is_byte b -> is_word b.
Proof. unfold is_byte, is_word. lia. Qed.

Lemma shiftr15_test v :
  is_word v -> (Z.shiftr v 15 =? 0) = negb (Z.testbit v 15).
Proof.
  unfold is_word. intros Hv.
  rewrite Z.shiftr_div_pow2 by lia.
  assert (Hq : 0 <= v / 2 ^ 15 < 2).
  { split; [apply Z.div_pos; lia|apply Z.div_lt_upper_bound; lia]. }
  destruct (Z.testbit v 15) eqn:E.
  - apply Z.testbit_true in E; [|lia].
    rewrite Z.mod_small in E by lia. rewrite E. reflexivity.
  - apply Z.testbit_false in E; [|lia].
    rewrite Z.mod_small in E by lia. rewrite E. reflexivity.
Qed.

(** ** The register file and the memory as arrays *)

Section Arrays.
Variable s : machine.

Lemma reg_set_reg_eq r v :
    0 <= r < Z.of_nat (length (registers (core s))) ->
    reg r (set_reg r v s) = v.
  Proof.
    intros Hr. unfold reg, set_reg, with_core. simpl.
    apply list_lookup_total_insert_eq. lia.
  Qed.

Lemma reg_set_reg_ne r r' v :
    0 <= r -> 0 <= r' -> r <> r' -> reg r (set_reg r' v s) = reg r s.
  Proof.
    intros Hr Hr' Hne. unfold reg, set_reg, with_core. simpl.
    apply list_lookup_total_insert_ne. lia.
  Qed.

Lemma length_set_reg r v :
    length (registers (core (set_reg r v s))) = length (registers (core s)).
  Proof. unfold set_reg, with_core. simpl. apply length_insert. Qed.

Lemma mem_set_mem a a' v :
    mem a (set_mem a' v s) = if a =? a' then v else mem a s.
  Proof. reflexivity. Qed.

Lemma reg_word r :
    Forall is_word (registers (core s)) ->
    0 <= r < Z.of_nat (length (registers (core s))) -> is_word (reg r s).
  Proof.
    intros Hall Hr. unfold reg.
    apply Forall_lookup_total_1; [exact Hall|lia].
  Qed.
End Arrays.

(** ** Well-formedness is kept by the primitive updates *)

Lemma wf_set_reg s r v : wf s -> is_word v -> wf (set_reg r v s).
Proof.
  intros [Hl Hr Hm Hi Hs] Hv. constructor; simpl; auto.
  - rewrite length_insert. exact Hl.
  - apply Forall_insert; assumption.
Qed.

Lemma wf_set_mem s a v : wf s -> is_word v -> wf (set_mem a v s).
Proof.
  intros [Hl Hr Hm Hi Hs] Hv. constructor; simpl; auto.
  intros a'. unfold mem. simpl. destruct (a' =? a); [exact Hv|apply Hm].
Qed.

Lemma wf_with_env s f :
  (forall w, stdin (f w) = stdin w) -> wf s -> wf (with_env f s).
Proof.
  intros Hf [Hl Hr Hm Hi Hs]. constructor; simpl; auto.
  intros k b. rewrite Hf. apply Hs.
Qed.

Lemma wf_reg s r : wf s -> 0 <= r < 10 -> is_word (reg r s).
Proof.
  intros Hw Hr. apply reg_word; [apply (wf_regs s Hw)|].
  rewrite (wf_len s Hw). unfold registers.RCOUNT. lia.
Qed.

Lemma wf_updateFlags s r : wf s -> wf (updateFlags r s).
Proof.
  intros Hw. unfold updateFlags.
  destruct (reg r s =? 0); [|destruct (negb _)];
    apply wf_set_reg; auto; unfold is_word; cbv; split; congruence.
Qed.

Lemma wf_set_running b s : wf s -> wf (set_running b s).
Proof. intros [Hl Hr Hm Hi Hs]. constructor; assumption. Qed.

Lemma wf_write_stdout bs s : wf s -> wf (write_stdout bs s).
Proof. apply wf_with_env. reflexivity. Qed.

Lemma wf_ReadByte s : wf s -> wf (snd (ReadByte s)).
Proof. apply wf_with_env. reflexivity. Qed.

(** ** Writes to the output *)

Lemma output_only_refl s : output_only s s.
Proof. unfold output_only. repeat split; auto. Qed.

Lemma output_only_trans s t u :
  output_only s t -> output_only t u -> output_only s u.
Proof.
  unfold output_only.
  intros (A1 & A2 & A3 & A4 & A5 & A6 & A7 & A8)
         (B1 & B2 & B3 & B4 & B5 & B6 & B7 & B8).
  repeat split; try congruence. lia.
Qed.

Lemma output_only_write_stdout bs s : output_only s (write_stdout bs s).
Proof. unfold output_only. simpl. repeat split; auto. Qed.

Lemma output_only_wf s t : output_only s t -> wf s -> wf t.
Proof.
  intros (A1 & A2 & A3 & _) [Hl Hr Hm Hi Hs].
  constructor; unfold mem, ins in *; rewrite ?A1, ?A3; auto.
Qed.

Lemma output_only_never_fails s t :
  output_only s t -> output_never_fails s -> output_never_fails t.
Proof.
  intros (_ & _ & _ & _ & _ & _ & A7 & A8) H k Hk.
  rewrite A7. apply H. lia.
Qed.

Lemma output_fails_now s :
  stdout_err (env s) (stdout_calls (env s)) = true -> ~ output_never_fails s.
Proof. intros H Hn. rewrite Hn in H by lia. discriminate. Qed.

(** A flush either has nothing to write, or makes one write and returns
    its error. *)
Lemma bufio_Flush_cases buf s :
  match bufio_Flush buf s with
  | Ok _ s' =>
      output_only s s' /\ stdout (env s') = stdout (env s) ++ buf /\
      (buf = [] -> s' = s) /\
      (buf <> [] -> stdout_err (env s) (stdout_calls (env s)) = false)
  | Fail e s' =>
      e = WriteError /\ output_only s s' /\ buf <> [] /\
      stdout_err (env s) (stdout_calls (env s)) = true
  | Timeout => False
  end.
Proof.
  unfold bufio_Flush. destruct buf as [|b buf].
  - split; [apply output_only_refl|]. rewrite app_nil_r.
    split; [reflexivity|]. split; [reflexivity|]. intros H. contradiction.
  - unfold Stdout_Write.
    destruct (stdout_err (env s) (stdout_calls (env s))) eqn:E.
    + split; [reflexivity|]. split; [apply output_only_write_stdout|].
      split; [discriminate|reflexivity].
    + split; [apply output_only_write_stdout|]. split; [reflexivity|].
      split; [discriminate|reflexivity].
Qed.

(** Writing a byte adds it to the pending bytes, after a flush when 4096
    bytes are pending; it fails only when that flush does. *)
Lemma bufio_WriteByte_cases c buf s :
  match bufio_WriteByte c buf s with
  | Ok buf' s' =>
      output_only s s' /\
      stdout (env s') ++ buf' = stdout (env s) ++ buf ++ [c] /\
      ((length buf <= 4096)%nat -> (length buf' <= 4096)%nat) /\
      ((length buf < 4096)%nat -> s' = s /\ buf' = buf ++ [c]) /\
      (stdout_err (env s) (stdout_calls (env s)) = true ->
       (length buf < 4096)%nat)
  | Fail e s' =>
      e = WriteError /\ output_only s s' /\ (4096 <= length buf)%nat /\
      stdout_err (env s) (stdout_calls (env s)) = true
  | Timeout => False
  end.
Proof.
  unfold bufio_WriteByte, bind.
  destruct (Z.leb_spec 4096 (Z.of_nat (length buf))) as [Hge|Hlt].
  - pose proof (bufio_Flush_cases buf s) as H.
    destruct (bufio_Flush buf s) as [[] s1|e s1|]; [| |contradiction].
    + destruct H as (Ho & Hout & _ & Hne).
      split; [exact Ho|]. split.
      { rewrite Hout, <- app_assoc. reflexivity. }
      split; [simpl; lia|]. split; [intros Hl; lia|].
      intros He. rewrite Hne in He; [discriminate|].
      intros ->. simpl in Hge. lia.
    + destruct H as (-> & Ho & _ & He).
      split; [reflexivity|]. split; [exact Ho|]. split; [lia|exact He].
  - split; [apply output_only_refl|]. split; [reflexivity|].
    split; [|split; [auto|lia]]. intros _. rewrite length_app. simpl. lia.
Qed.

(** ** The memory read *)

Lemma memoryRead_plain address s :
  address <> registers.MRKBSR -> memoryRead address s = Ok (mem address s) s.
Proof.
  intros Hne. unfold memoryRead.
  destruct (Z.eqb_spec address registers.MRKBSR); [contradiction|reflexivity].
Qed.

(** C1: a read of any address but the keyboard status returns the stored
    word and leaves the machine as it was; a read of the keyboard status
    (0xFE00) first takes one byte from the input, and returns the status
    word it has just stored: for a nonzero byte the status is the word with
    only bit 15 set and the keyboard data (0xFE02) is the byte, for the byte
    0 the status is 0; nothing else changes. *)
Theorem memoryRead_keyboard (address : Z) (s : machine) :
  (address <> registers.MRKBSR ->
   memoryRead address s = Ok (mem address s) s) /\
  (address = registers.MRKBSR ->
   forall key, stdin (env s) (stdin_pos (env s)) = Some key ->
   exists s',
     memoryRead address s = Ok (mem registers.MRKBSR s') s' /\
     stdin_pos (env s') = S (stdin_pos (env s)) /\
     stdin (env s') = stdin (env s) /\
     stdout (env s') = stdout (env s) /\
     registers (core s') = registers (core s) /\
     (key <> 0 ->
      mem registers.MRKBSR s' = 2 ^ 15 /\
      mem registers.MRKBDR s' = key /\
      forall a, a <> registers.MRKBSR -> a <> registers.MRKBDR ->
                mem a s' = mem a s) /\
     (key = 0 ->
      mem registers.MRKBSR s' = 0 /\
      forall a, a <> registers.MRKBSR -> mem a s' = mem a s)).
Proof.
  split; [apply memoryRead_plain|].
  intros -> key Hkey. unfold memoryRead, ReadByte.
  rewrite Z.eqb_refl, Hkey.
  destruct (Z.eqb_spec key 0) as [->|Hnz]; simpl;
    eexists; (split; [reflexivity|]); simpl; repeat split;
    try reflexivity; try congruence; intros.
  - rewrite !mem_set_mem.
    destruct (Z.eqb_spec a registers.MRKBSR); [contradiction|reflexivity].
  - rewrite !mem_set_mem.
    destruct (Z.eqb_spec a registers.MRKBDR); [contradiction|].
    destruct (Z.eqb_spec a registers.MRKBSR); [contradiction|reflexivity].
Qed.

Lemma memoryRead_keyboard_witness :
  let s := boot (fun _ => 0) (fun _ => Some 0x41) 0 in
  exists s',
    memoryRead registers.MRKBSR s = Ok (2 ^ 15) s' /\
    mem registers.MRKBDR s' = 0x41.
Proof.
  intros s.
  destruct (memoryRead_keyboard registers.MRKBSR s) as [_ H].
  destruct (H eq_refl 0x41 eq_refl) as (s' & Hr & _ & _ & _ & _ & Hnz & _).
  destruct Hnz as (Hs & Hd & _); [discriminate|].
  exists s'. rewrite <- Hs. split; [exact Hr|exact Hd].
Defined.

Lemma memoryRead_fail s :
  stdin (env s) (stdin_pos (env s)) = None ->
  exists s', memoryRead registers.MRKBSR s = Fail ReadError s' /\
             core s' = core s.
Proof.
  intros H. unfold memoryRead, ReadByte. rewrite Z.eqb_refl, H.
  eexists. split; reflexivity.
Qed.

Lemma memoryRead_wf address s v s' :
  wf s -> memoryRead address s = Ok v s' -> wf s' /\ is_word v.
Proof.
  intros Hw. unfold memoryRead, ReadByte.
  destruct (address =? registers.MRKBSR).
  - destruct (stdin (env s) (stdin_pos (env s))) as [key|] eqn:Hk;
      [|discriminate].
    intros H. injection H as <- <-.
    assert (Hb : is_word key) by (apply byte_word, (wf_stdin s Hw _ _ Hk)).
    assert (Hw' : wf (snd (ReadByte s))) by (apply wf_ReadByte, Hw).
    unfold ReadByte in Hw'. simpl in Hw'.
    match goal with |- wf ?t /\ _ => assert (Ht : wf t) end.
    { destruct (negb (key =? 0)).
      - apply wf_set_mem; [apply wf_set_mem|]; auto. apply wrap16_word.
      - apply wf_set_mem; auto. unfold is_word. lia. }
    split; [exact Ht|apply (wf_mem _ Ht)].
  - intros H. injection H as <- <-. split; [exact Hw|apply (wf_mem s Hw)].
Qed.

Lemma memoryRead_fail_wf address s e s' :
  wf s -> memoryRead address s = Fail e s' -> wf s'.
Proof.
  intros Hw. unfold memoryRead, ReadByte.
  destruct (address =? registers.MRKBSR); [|discriminate].
  destruct (stdin (env s) (stdin_pos (env s))); [discriminate|].
  intros H. injection H as _ <-. apply wf_with_env; [reflexivity|exact Hw].
Qed.

Lemma memoryRead_regs address s v s' :
  memoryRead address s = Ok v s' ->
  registers (core s') = registers (core s) /\ ins s' = ins s /\
  running s' = running s.
Proof.
  unfold memoryRead, ReadByte.
  destruct (address =? registers.MRKBSR).
  - destruct (stdin (env s) (stdin_pos (env s))) as [key|]; [|discriminate].
    intros H. injection H as _ <-. destruct (negb (key =? 0)); auto.
  - intros H. injection H as _ <-. auto.
Qed.

Lemma memoryRead_fail_regs address s e s' :
  memoryRead address s = Fail e s' ->
  e = ReadError /\ core s' = core s /\ running s' = running s.
Proof.
  unfold memoryRead, ReadByte.
  destruct (address =? registers.MRKBSR); [|discriminate].
  destruct (stdin (env s) (stdin_pos (env s))); [discriminate|].
  intros H. injection H as <- <-. auto.
Qed.

Lemma memoryRead_no_timeout address s : memoryRead address s <> Timeout.
Proof.
  unfold memoryRead, ReadByte.
  destruct (address =? registers.MRKBSR); [|discriminate].
  destruct (stdin (env s) (stdin_pos (env s))); discriminate.
Qed.

(** ** Condition flags *)

Lemma flag_of_cases v :
  (v = 0 -> flag_of v = cflags.FLZRO) /\
  (Z.testbit v 15 = true -> flag_of v = cflags.FLNEG) /\
  (v <> 0 -> Z.testbit v 15 = false -> flag_of v = cflags.FLPOS) /\
  (flag_of v = cflags.FLPOS \/ flag_of v = cflags.FLZRO \/
   flag_of v = cflags.FLNEG).
Proof.
  unfold flag_of. destruct (Z.eqb_spec v 0) as [->|Hne].
  - rewrite Z.bits_0. repeat split; auto; congruence.
  - destruct (Z.testbit v 15); repeat split; auto; congruence.
Qed.

Lemma write_then_flags s r v :
  wf s -> 0 <= r < 8 -> is_word v ->
  let s' := updateFlags r (set_reg r v s) in
  wf s' /\ reg r s' = v /\ reg registers.RCOND s' = flag_of v.
Proof.
  intros Hw Hr Hv s'.
  assert (Hl : length (registers (core s)) = 10%nat) by apply (wf_len s Hw).
  assert (Hw1 : wf (set_reg r v s)) by (apply wf_set_reg; assumption).
  assert (Hrd : reg r (set_reg r v s) = v)
    by (apply reg_set_reg_eq; rewrite Hl; lia).
  split; [apply wf_updateFlags; exact Hw1|].
  subst s'. unfold updateFlags, flag_of. rewrite Hrd.
  rewrite (shiftr15_test v Hv), negb_involutive.
  assert (Hl1 : length (registers (core (set_reg r v s))) = 10%nat)
    by (rewrite length_set_reg; exact Hl).
  destruct (v =? 0); [|destruct (Z.testbit v 15)];
    (split;
     [rewrite reg_set_reg_ne by (unfold registers.RCOND; lia); exact Hrd
     |apply reg_set_reg_eq; rewrite Hl1; unfold registers.RCOND; lia]).
Qed.

Lemma flags_follow_write_intro s s1 v :
  wf s1 -> is_word v ->
  flags_follow_write s
    (Ok tt (updateFlags (field_dr s) (set_reg (field_dr s) v s1))).
Proof.
  intros Hw Hv. left. eexists. split; [reflexivity|].
  destruct (write_then_flags s1 (field_dr s) v Hw (land7_range _) Hv)
    as (Hw' & Hr & Hc).
  rewrite Hr. auto.
Qed.

Lemma wf_reg_field s x : wf s -> is_word (reg (Z.land x 7) s).
Proof.
  intros Hw. apply wf_reg; [exact Hw|]. pose proof (land7_range x). lia.
Qed.

Lemma handleAdd_flags s : wf s -> flags_follow_write s (handleAdd s).
Proof.
  intros Hw. unfold handleAdd. fold (field_dr s).
  destruct (_ =? 1); apply flags_follow_write_intro; auto using wrap16_word.
Qed.

Lemma handleAnd_flags s : wf s -> flags_follow_write s (handleAnd s).
Proof.
  intros Hw. unfold handleAnd. fold (field_dr s).
  destruct (_ =? 1); apply flags_follow_write_intro; auto;
    apply land_word, wf_reg_field; exact Hw.
Qed.

Lemma handleNot_flags s : wf s -> flags_follow_write s (handleNot s).
Proof.
  intros Hw. unfold handleNot. fold (field_dr s).
  apply flags_follow_write_intro; auto. apply wrap16_word.
Qed.

Lemma handleLoadEffectiveAddress_flags s :
  wf s -> flags_follow_write s (handleLoadEffectiveAddress s).
Proof.
  intros Hw. unfold handleLoadEffectiveAddress. fold (field_dr s).
  apply flags_follow_write_intro; auto. apply wrap16_word.
Qed.

Lemma load_flags s address :
  wf s ->
  flags_follow_write s
    (bind (memoryRead address)
       (fun data s1 =>
          Ok tt (updateFlags (field_dr s) (set_reg (field_dr s) data s1))) s).
Proof.
  intros Hw. unfold bind.
  destruct (memoryRead address s) as [data s1|e s1|] eqn:Hr.
  - destruct (memoryRead_wf _ _ _ _ Hw Hr).
    apply flags_follow_write_intro; assumption.
  - right. exists s1.
    destruct (memoryRead_fail_regs _ _ _ _ Hr) as (-> & Hc & _).
    rewrite Hc. auto.
  - exfalso. exact (memoryRead_no_timeout _ _ Hr).
Qed.

Lemma handleLoad_flags s : wf s -> flags_follow_write s (handleLoad s).
Proof. intros Hw. unfold handleLoad. apply load_flags. exact Hw. Qed.

Lemma handleLoadR_flags s : wf s -> flags_follow_write s (handleLoadR s).
Proof. intros Hw. unfold handleLoadR. apply load_flags. exact Hw. Qed.

Lemma handleLoadIndirect_flags s :
  wf s -> flags_follow_write s (handleLoadIndirect s).
Proof.
  intros Hw. unfold handleLoadIndirect, bind at 1.
  destruct (memoryRead _ s) as [addr s1|e s1|] eqn:Hr.
  - destruct (memoryRead_wf _ _ _ _ Hw Hr) as [Hw1 _].
    destruct (memoryRead_regs _ _ _ _ Hr) as (Hregs & Hins & _).
    pose proof (load_flags s1 addr Hw1) as H.
    assert (Hdr : field_dr s1 = field_dr s)
      by (unfold field_dr; rewrite Hins; reflexivity).
    unfold flags_follow_write in H. rewrite Hdr in H.
    destruct H as [(s' & Hs' & P)|(s' & Hs' & P)].
    + left. exists s'. split; [exact Hs'|exact P].
    + right. exists s'. split; [exact Hs'|congruence].
  - right. exists s1.
    destruct (memoryRead_fail_regs _ _ _ _ Hr) as (-> & Hc & _).
    rewrite Hc. auto.
  - exfalso. exact (memoryRead_no_timeout _ _ Hr).
Qed.

(** A load returns the error of its input read exactly when it reads the
    keyboard status and that read fails; the other register-writing
    instructions always return normally. *)
Lemma register_write_outcome o fuel s :
  In o [opcodes.OPADD; opcodes.OPAND; opcodes.OPNOT; opcodes.OPLD;
        opcodes.OPLDI; opcodes.OPLDR; opcodes.OPLEA] ->
  if polls_keyboard o s && input_fails s
  then exists e s', dispatch o fuel s = Fail e s'
  else exists s', dispatch o fuel s = Ok tt s'.
Proof.
  intros Ho. simpl in Ho.
  destruct Ho as [<-|[<-|[<-|[<-|[<-|[<-|[<-|[]]]]]]]];
    unfold dispatch, polls_keyboard, load_address, input_fails;
    simpl opTable; cbv beta iota; simpl Z.eqb; cbn [andb orb].
  - unfold handleAdd. eauto.
  - unfold handleAnd. eauto.
  - unfold handleNot. eauto.
  - unfold handleLoad, bind, memoryRead, ReadByte. cbv zeta.
    destruct (_ =? registers.MRKBSR); [|simpl; eauto].
    destruct (stdin (env s) (stdin_pos (env s))); simpl; eauto.
  - unfold handleLoadIndirect, bind. cbv zeta.
    set (a := wrap16 (reg registers.RPC s +
                      signExtend (Z.land (ins s) 0x1FF) 9)).
    clearbody a.
    destruct (Z.eqb_spec a registers.MRKBSR) as [->|Ha].
    + rewrite orb_true_l.
      destruct (stdin (env s) (stdin_pos (env s))) as [key|] eqn:Hk.
      * assert (Hr : exists v s1,
                  memoryRead registers.MRKBSR s = Ok v s1 /\
                  v <> registers.MRKBSR).
        { unfold memoryRead, ReadByte. rewrite Hk, Z.eqb_refl.
          destruct (negb (key =? 0)); eexists; eexists;
            (split; [reflexivity|]); intros E; vm_compute in E;
            discriminate E. }
        destruct Hr as (v & s1 & -> & Hv).
        rewrite (memoryRead_plain v s1 Hv). simpl. eauto.
      * destruct (memoryRead_fail s Hk) as (s' & -> & _). simpl. eauto.
    + rewrite orb_false_l, (memoryRead_plain a s Ha).
      unfold memoryRead, ReadByte.
      destruct (mem a s =? registers.MRKBSR); [|simpl; eauto].
      destruct (stdin (env s) (stdin_pos (env s))); simpl; eauto.
  - unfold handleLoadR, bind, memoryRead, ReadByte, field_sr1. cbv zeta.
    destruct (_ =? registers.MRKBSR); [|simpl; eauto].
    destruct (stdin (env s) (stdin_pos (env s))); simpl; eauto.
  - unfold handleLoadEffectiveAddress. eauto.
Qed.

(** C3: every instruction that writes a general-purpose register (ADD, AND,
    NOT, LD, LDI, LDR, LEA) returns, and leaves in COND exactly one of the
    three tags, the one of the word now in the destination register: ZERO
    for 0, NEGATIVE when bit 15 is set, POSITIVE otherwise.  The one
    exception is a load that reads the keyboard status register 0xFE00
    while the input read fails: that load, and no other instruction of the
    seven, returns the read error, having written no register. *)
Theorem cond_after_register_write (o : Z) (fuel : nat) (s : machine) :
  wf s ->
  In o [opcodes.OPADD; opcodes.OPAND; opcodes.OPNOT; opcodes.OPLD;
        opcodes.OPLDI; opcodes.OPLDR; opcodes.OPLEA] ->
  if polls_keyboard o s && input_fails s
  then
    exists s',
      dispatch o fuel s = Fail ReadError s' /\
      registers (core s') = registers (core s)
  else
    exists s',
      dispatch o fuel s = Ok tt s' /\
      let v := reg (field_dr s) s' in
      let cond := reg registers.RCOND s' in
      is_word v /\
      (cond = cflags.FLPOS \/ cond = cflags.FLZRO \/ cond = cflags.FLNEG) /\
      (v = 0 -> cond = cflags.FLZRO) /\
      (Z.testbit v 15 = true -> cond = cflags.FLNEG) /\
      (v <> 0 -> Z.testbit v 15 = false -> cond = cflags.FLPOS).
Proof.
  intros Hw Ho.
  assert (H : flags_follow_write s (dispatch o fuel s)).
  { simpl in Ho.
    destruct Ho as [<-|[<-|[<-|[<-|[<-|[<-|[<-|[]]]]]]]]; unfold dispatch;
      simpl.
    - apply handleAdd_flags; exact Hw.
    - apply handleAnd_flags; exact Hw.
    - apply handleNot_flags; exact Hw.
    - apply handleLoad_flags; exact Hw.
    - apply handleLoadIndirect_flags; exact Hw.
    - apply handleLoadR_flags; exact Hw.
    - apply handleLoadEffectiveAddress_flags; exact Hw. }
  pose proof (register_write_outcome o fuel s Ho) as Hout.
  destruct (polls_keyboard o s && input_fails s).
  - destruct Hout as (e & s1 & Hs1).
    destruct H as [(s' & Hs' & _)|(s' & Hs' & Hregs)]; [congruence|].
    exists s'. split; [exact Hs'|exact Hregs].
  - destruct Hout as (s1 & Hs1).
    destruct H as [(s' & Hs' & _ & Hv & Hc)|(s' & Hs' & _)]; [|congruence].
    exists s'. split; [exact Hs'|]. simpl. rewrite Hc.
    destruct (flag_of_cases (reg (field_dr s) s')) as (A & B & C & D).
    auto.
Qed.

Lemma wf_boot image input i :
  (forall a, is_word (image a)) ->
  (forall k b, input k = Some b -> is_byte b) ->
  is_word i -> wf (boot image input i).
Proof.
  intros Hm Hin Hi. constructor; simpl; auto.
  repeat constructor; unfold is_word; cbv; congruence.
Qed.

Lemma cond_after_register_write_witness :
  let s := boot (fun _ => 0) (fun _ => None) 0x1025 in
  let t := set_reg registers.RR1 0xFE00
             (boot (fun _ => 0) (fun _ => None) 0x6040) in
  wf s /\ wf t /\
  (exists s', dispatch opcodes.OPADD 0 s = Ok tt s' /\
              reg registers.RR0 s' = 5 /\
              reg registers.RCOND s' = cflags.FLPOS) /\
  (exists t', dispatch opcodes.OPLDR 0 t = Fail ReadError t' /\
              registers (core t') = registers (core t)).
Proof.
  intros s t.
  assert (Hw : wf s).
  { apply wf_boot; try discriminate; intros; unfold is_word; lia. }
  assert (Hwt : wf t).
  { apply wf_set_reg; [apply wf_boot|]; try discriminate;
      intros; unfold is_word; lia. }
  split; [exact Hw|]. split; [exact Hwt|]. split.
  - pose proof (cond_after_register_write opcodes.OPADD 0 s Hw) as H.
    change (polls_keyboard opcodes.OPADD s && input_fails s) with false in H.
    destruct H as (s' & Hs' & _ & _ & _ & _ & Hpos); [simpl; auto|].
    exists s'. split; [exact Hs'|].
    assert (Hv : reg registers.RR0 s' = 5).
    { vm_compute in Hs'. injection Hs' as <-. reflexivity. }
    split; [exact Hv|].
    change (field_dr s) with registers.RR0 in Hpos.
    apply Hpos; rewrite Hv; [discriminate|reflexivity].
  - pose proof (cond_after_register_write opcodes.OPLDR 0 t Hwt) as H.
    change (polls_keyboard opcodes.OPLDR t && input_fails t) with true in H.
    apply H. simpl. auto 10.
Defined.

(** ** ADD and AND in immediate mode *)

Lemma imm5_sign_extension x :
  signExtend (Z.land x 0x1F) 5 = sign_extension 5 (Z.land x 0x1F).
Proof.
  apply (signExtend_field (Z.land x 0x1F) 5); [lia|].
  apply (field_range x 5). lia.
Qed.

Lemma handleAdd_immediate s :
  wf s -> Z.land (Z.shiftr (ins s) 5) 0x1 = 1 ->
  exists s', handleAdd s = Ok tt s' /\
    reg (field_dr s) s' =
    wrap16 (reg (field_sr1 s) s + sign_extension 5 (Z.land (ins s) 0x1F)).
Proof.
  intros Hw Hb. unfold handleAdd. rewrite Hb, imm5_sign_extension. simpl.
  eexists. split; [reflexivity|].
  apply write_then_flags; [exact Hw|apply land7_range|apply wrap16_word].
Qed.

Lemma handleAnd_immediate s :
  wf s -> Z.land (Z.shiftr (ins s) 5) 0x1 = 1 ->
  exists s', handleAnd s = Ok tt s' /\
    reg (field_dr s) s' =
    Z.land (reg (field_sr1 s) s) (sign_extension 5 (Z.land (ins s) 0x1F)).
Proof.
  intros Hw Hb. unfold handleAnd. rewrite Hb, imm5_sign_extension. simpl.
  eexists. split; [reflexivity|].
  apply write_then_flags; [exact Hw|apply land7_range|].
  apply land_word, wf_reg_field, Hw.
Qed.

(** C5, as the code has it: in immediate mode ADD and AND write the first
    source register's value plus (and-ed with) the sign-extended 5-bit
    immediate, modulo 2^16; when the register that the low three bits name
    is not the first source register, changing its value does not change
    the written result. *)
Theorem immediate_mode_result (s : machine) (v : Z) :
  wf s -> is_word v ->
  Z.land (Z.shiftr (ins s) 5) 0x1 = 1 ->
  let imm5 := sign_extension 5 (Z.land (ins s) 0x1F) in
  let t := set_reg (field_sr2 s) v s in
  (exists s', handleAdd s = Ok tt s' /\
     reg (field_dr s) s' = wrap16 (reg (field_sr1 s) s + imm5) /\
     (field_sr2 s <> field_sr1 s ->
      exists t', handleAdd t = Ok tt t' /\
                 reg (field_dr s) t' = reg (field_dr s) s')) /\
  (exists s', handleAnd s = Ok tt s' /\
     reg (field_dr s) s' = Z.land (reg (field_sr1 s) s) imm5 /\
     (field_sr2 s <> field_sr1 s ->
      exists t', handleAnd t = Ok tt t' /\
                 reg (field_dr s) t' = reg (field_dr s) s')).
Proof.
  intros Hw Hv Hb imm5 t.
  assert (Hwt : wf t) by (apply wf_set_reg; assumption).
  assert (Hit : ins t = ins s) by reflexivity.
  assert (Hsrc : field_sr2 s <> field_sr1 s ->
                 reg (field_sr1 s) t = reg (field_sr1 s) s).
  { intros Hne. apply reg_set_reg_ne; auto; apply land7_range. }
  split.
  - destruct (handleAdd_immediate s Hw Hb) as (s' & Hs' & Hr).
    exists s'. split; [exact Hs'|]. split; [exact Hr|]. intros Hne.
    destruct (handleAdd_immediate t Hwt) as (t' & Ht' & Hr');
      [rewrite Hit; exact Hb|].
    exists t'. split; [exact Ht'|].
    unfold field_dr, field_sr1 in *. rewrite Hit in Hr'.
    rewrite Hr', Hr. f_equal. f_equal. apply Hsrc. exact Hne.
  - destruct (handleAnd_immediate s Hw Hb) as (s' & Hs' & Hr).
    exists s'. split; [exact Hs'|]. split; [exact Hr|]. intros Hne.
    destruct (handleAnd_immediate t Hwt) as (t' & Ht' & Hr');
      [rewrite Hit; exact Hb|].
    exists t'. split; [exact Ht'|].
    unfold field_dr, field_sr1 in *. rewrite Hit in Hr'.
    rewrite Hr', Hr. f_equal. apply Hsrc. exact Hne.
Qed.

Lemma immediate_mode_result_witness :
  let s := set_reg 1 7 (boot (fun _ => 0) (fun _ => None) 0x1262) in
  let t := set_reg (field_sr2 s) 9 s in
  wf s /\ is_word 9 /\ Z.land (Z.shiftr (ins s) 5) 0x1 = 1 /\
  field_sr2 s <> field_sr1 s /\
  exists s' t', handleAdd s = Ok tt s' /\ handleAdd t = Ok tt t' /\
                reg (field_dr s) s' = 9 /\ reg (field_dr s) t' = 9.
Proof.
  intros s t.
  assert (Hw : wf s).
  { apply wf_set_reg; [apply wf_boot|]; try discriminate;
      intros; unfold is_word; lia. }
  assert (Hv : is_word 9) by (unfold is_word; lia).
  assert (Hb : Z.land (Z.shiftr (ins s) 5) 0x1 = 1) by reflexivity.
  assert (Hne : field_sr2 s <> field_sr1 s) by (vm_compute; discriminate).
  repeat (split; [assumption|]).
  destruct (immediate_mode_result s 9 Hw Hv Hb) as [(s' & Hs' & Hr & Hi) _].
  destruct (Hi Hne) as (t' & Ht' & Hr').
  exists s', t'. repeat (split; [assumption|]).
  rewrite Hr', Hr. split; reflexivity.
Defined.

(** C5 as stated fails when the low three bits name the first source
    register: [ADD R0, R1, #1] (0x1061) and [AND R0, R1, #1] (0x5061) have
    low bits 001, and on two machines that differ only in R1 they write
    different results. *)
Lemma immediate_mode_low_field_is_source :
  let s := boot (fun _ => 0) (fun _ => None) 0x1061 in
  let s5 := boot (fun _ => 0) (fun _ => None) 0x5061 in
  let t := set_reg (field_sr2 s) 5 s in
  let t5 := set_reg (field_sr2 s5) 5 s5 in
  Z.land (Z.shiftr (ins s) 5) 0x1 = 1 /\
  Z.land (Z.shiftr (ins s5) 5) 0x1 = 1 /\
  (exists s' t', handleAdd s = Ok tt s' /\ handleAdd t = Ok tt t' /\
                 reg (field_dr s) s' = 1 /\ reg (field_dr s) t' = 6) /\
  (exists s' t', handleAnd s5 = Ok tt s' /\ handleAnd t5 = Ok tt t' /\
                 reg (field_dr s5) s' = 0 /\ reg (field_dr s5) t' = 1).
Proof.
  simpl. repeat split; try reflexivity;
    eexists; eexists; repeat split; reflexivity.
Qed.

(** ** Control flow and stores *)

(** C6: JSR/JSRR returns with R7 holding the PC the handler started from, in
    the offset form and in the base-register form, R7 as base included; the
    new PC is the old PC plus the sign-extended 11-bit offset, respectively
    the base register's value as it is after the link is written. *)
Theorem jsr_links_pc (s : machine) :
  wf s ->
  exists s',
    handleJumpSubroutine s = Ok tt s' /\
    reg registers.RR7 s' = reg registers.RPC s /\
    (Z.land (Z.shiftr (ins s) 11) 0x1 = 0 ->
     reg registers.RPC s' =
     if field_sr1 s =? registers.RR7 then reg registers.RPC s
     else reg (field_sr1 s) s) /\
    (Z.land (Z.shiftr (ins s) 11) 0x1 <> 0 ->
     reg registers.RPC s' =
     wrap16 (reg registers.RPC s +
             sign_extension 11 (Z.land (ins s) 0x7FF))).
Proof.
  intros Hw.
  assert (Hl : length (registers (core s)) = 10%nat) by apply (wf_len s Hw).
  set (s1 := set_reg registers.RR7 (reg registers.RPC s) s).
  assert (Hl1 : length (registers (core s1)) = 10%nat)
    by (unfold s1; rewrite length_set_reg; exact Hl).
  assert (H7 : reg registers.RR7 s1 = reg registers.RPC s)
    by (apply reg_set_reg_eq; rewrite Hl; unfold registers.RR7; lia).
  assert (Hpc : reg registers.RPC s1 = reg registers.RPC s)
    by (apply reg_set_reg_ne; unfold registers.RPC, registers.RR7; lia).
  unfold handleJumpSubroutine. fold s1. change (ins s1) with (ins s).
  fold (field_sr1 s).
  destruct (Z.eqb_spec (Z.land (Z.shiftr (ins s) 11) 1) 0) as [E|E];
    eexists; (split; [reflexivity|]);
    (split;
     [rewrite reg_set_reg_ne by (unfold registers.RPC, registers.RR7; lia);
      exact H7|]);
    (split; [|intros; try contradiction]); try (intros; contradiction).
  - intros _.
    rewrite reg_set_reg_eq by (rewrite Hl1; unfold registers.RPC; lia).
    destruct (Z.eqb_spec (field_sr1 s) registers.RR7) as [->|Hne].
    + exact H7.
    + apply reg_set_reg_ne; auto; [apply land7_range|].
      unfold registers.RR7. lia.
  - rewrite reg_set_reg_eq by (rewrite Hl1; unfold registers.RPC; lia).
    rewrite Hpc. f_equal. f_equal.
    apply (signExtend_field (Z.land (ins s) 0x7FF) 11); [lia|].
    apply (field_range (ins s) 11). lia.
Qed.

Lemma jsr_links_pc_witness :
  let s := set_reg 7 0x1234 (boot (fun _ => 0) (fun _ => None) 0x41C0) in
  wf s /\
  exists s', handleJumpSubroutine s = Ok tt s' /\
             reg registers.RR7 s' = 0x3000.
Proof.
  intros s.
  assert (Hw : wf s).
  { apply wf_set_reg; [apply wf_boot|]; try discriminate;
      intros; unfold is_word; lia. }
  split; [exact Hw|].
  destruct (jsr_links_pc s Hw) as (s' & Hs' & H7 & _).
  exists s'. split; [exact Hs'|]. rewrite H7. reflexivity.
Defined.

Lemma reg_same_registers r s s' :
  registers (core s') = registers (core s) -> reg r s' = reg r s.
Proof. unfold reg. intros ->. reflexivity. Qed.

(** C7: BR, JMP, JSR, ST, STI and STR return, with a nil error or (STI only)
    the error of a failed input read, and COND is what it was. *)
Theorem store_and_control_keep_cond (o : Z) (fuel : nat) (s : machine) :
  In o [opcodes.OPBR; opcodes.OPJMP; opcodes.OPJSR;
        opcodes.OPST; opcodes.OPSTI; opcodes.OPSTR] ->
  exists s',
    (dispatch o fuel s = Ok tt s' \/
     (o = opcodes.OPSTI /\ dispatch o fuel s = Fail ReadError s')) /\
    reg registers.RCOND s' = reg registers.RCOND s.
Proof.
  intros Ho. simpl in Ho.
  assert (H98 : forall v t, reg registers.RCOND (set_reg registers.RPC v t)
                            = reg registers.RCOND t).
  { intros. apply reg_set_reg_ne; unfold registers.RCOND, registers.RPC; lia. }
  assert (H97 : forall v t, reg registers.RCOND (set_reg registers.RR7 v t)
                            = reg registers.RCOND t).
  { intros. apply reg_set_reg_ne; unfold registers.RCOND, registers.RR7; lia. }
  destruct Ho as [<-|[<-|[<-|[<-|[<-|[<-|[]]]]]]]; unfold dispatch; simpl.
  - unfold handleBr. destruct (negb _); eexists; split; eauto.
  - unfold handleJmp. eexists; split; eauto.
  - unfold handleJumpSubroutine. destruct (_ =? 0); eexists; split; eauto;
      rewrite H98; apply H97.
  - unfold handleStore, memoryWrite. eexists; split; eauto.
  - unfold handleStoreIndirect, bind, memoryWrite.
    destruct (memoryRead _ s) as [addr s1|e s1|] eqn:Hr.
    + eexists; split; [left; reflexivity|].
      destruct (memoryRead_regs _ _ _ _ Hr) as (Hregs & _).
      apply reg_same_registers. exact Hregs.
    + destruct (memoryRead_fail_regs _ _ _ _ Hr) as (-> & Hc & _).
      exists s1. split; [right; auto|].
      apply reg_same_registers. rewrite Hc. reflexivity.
    + exfalso. exact (memoryRead_no_timeout _ _ Hr).
  - unfold handleStr, memoryWrite. eexists; split; eauto.
Qed.

Lemma store_and_control_keep_cond_witness :
  let s := boot (fun _ => 0) (fun _ => None) 0x0401 in
  exists s', dispatch opcodes.OPBR 0 s = Ok tt s' /\
             reg registers.RPC s' = 0x3001 /\
             reg registers.RCOND s' = cflags.FLZRO.
Proof.
  intros s.
  destruct (store_and_control_keep_cond opcodes.OPBR 0 s) as (s' & Hs' & Hc).
  - simpl. auto.
  - destruct Hs' as [Hs'|[Hs' _]]; [|discriminate].
    exists s'. split; [exact Hs'|]. split; [|rewrite Hc; reflexivity].
    vm_compute in Hs'. injection Hs' as <-. reflexivity.
Defined.

(** ** Dispatch errors *)

Lemma Step_fetch s i s0 :
  memoryRead (reg registers.RPC s) s = Ok i s0 ->
  exists s1, Step s = Ok tt s1 /\ ins s1 = i /\
             op (core s1) = Z.shiftr i 12 /\
             running s1 = running s.
Proof.
  intros Hr. unfold Step. rewrite Hr. eexists. split; [reflexivity|].
  simpl. repeat split; auto.
  destruct (memoryRead_regs _ _ _ _ Hr) as (_ & _ & Hrun). exact Hrun.
Qed.

(** C8: when the word fetched at PC has opcode field 8 (RTI) or 13
    (reserved), the step dispatches to [unhandledOpcode]: the loop returns
    the "failed to handle opcode" error, whatever the machine, and the run
    is FAILED. *)
Theorem unhandled_opcode_fails (fuel : nat) (s : machine) (i : Z)
    (s0 : machine) :
  running s = true ->
  memoryRead (reg registers.RPC s) s = Ok i s0 ->
  Z.shiftr i 12 = opcodes.OPRTI \/ Z.shiftr i 12 = opcodes.OPRES ->
  exists s1,
    Step s = Ok tt s1 /\ ins s1 = i /\
    dispatch (op (core s1)) fuel s1 =
      Fail (FailedToHandleOpcode (Z.shiftr i 12)) s1 /\
    Loop_from dispatch (S fuel) s =
      Fail (FailedToHandleOpcode (Z.shiftr i 12)) s1 /\
    run_result (Loop_from dispatch (S fuel) s) =
      FAILED (FailedToHandleOpcode (Z.shiftr i 12)).
Proof.
  intros Hrun Hr Hop.
  destruct (Step_fetch s i s0 Hr) as (s1 & Hs & Hi & Ho & _).
  exists s1.
  assert (Hd : dispatch (op (core s1)) fuel s1 =
               Fail (FailedToHandleOpcode (Z.shiftr i 12)) s1).
  { unfold dispatch. rewrite Ho.
    destruct Hop as [E|E]; rewrite E; simpl; unfold unhandledOpcode;
      rewrite Ho, E; reflexivity. }
  assert (Hl : Loop_from dispatch (S fuel) s =
               Fail (FailedToHandleOpcode (Z.shiftr i 12)) s1).
  { simpl. rewrite Hrun, Hs, Hd. reflexivity. }
  repeat split; auto. rewrite Hl. reflexivity.
Qed.

Lemma unhandled_opcode_fails_witness :
  let s := boot (fun a => if a =? 0x3000 then 0x8000 else 0)
                (fun _ => None) 0 in
  running s = true /\
  run_result (Loop_from dispatch 1 s) =
    FAILED (FailedToHandleOpcode opcodes.OPRTI).
Proof.
  intros s. split; [reflexivity|].
  destruct (unhandled_opcode_fails 0 s 0x8000 s eq_refl eq_refl)
    as (s1 & _ & _ & _ & _ & H).
  - left. reflexivity.
  - exact H.
Defined.

Lemma trapTable_unknown t :
  ~ (0x20 <= t <= 0x25) -> trapTable t = None.
Proof.
  intros Ht. unfold trapTable.
  destruct t as [|p|p]; try reflexivity.
  do 6 (destruct p as [p|p|]; try reflexivity); exfalso; lia.
Qed.

(** C9: a TRAP whose low byte is none of 0x20..0x25 returns the
    "unrecognized trap" error, and the machine it leaves is the one it
    found with R7 set to PC: no other register, no memory word, no input or
    output has changed.  Reached from the loop, the run is FAILED. *)
Theorem unrecognized_trap_fails (fuel : nat) (s : machine) :
  wf s ->
  ~ (0x20 <= Z.land (ins s) 0xFF <= 0x25) ->
  exists s',
    handleTrap fuel s = Fail (UnrecognizedTrap (Z.land (ins s) 0xFF)) s' /\
    s' = set_reg registers.RR7 (reg registers.RPC s) s /\
    reg registers.RR7 s' = reg registers.RPC s /\
    (forall r, 0 <= r -> r <> registers.RR7 -> reg r s' = reg r s) /\
    memory (core s') = memory (core s) /\
    env s' = env s /\
    (forall s0, running s0 = true -> Step s0 = Ok tt s ->
                op (core s) = opcodes.OPTRAP ->
                run_result (Loop_from dispatch (S fuel) s0) =
                FAILED (UnrecognizedTrap (Z.land (ins s) 0xFF))).
Proof.
  intros Hw Ht.
  assert (Hh : handleTrap fuel s =
               Fail (UnrecognizedTrap (Z.land (ins s) 0xFF))
                    (set_reg registers.RR7 (reg registers.RPC s) s)).
  { unfold handleTrap.
    change (ins (set_reg registers.RR7 (reg registers.RPC s) s))
      with (ins s).
    rewrite (trapTable_unknown _ Ht). reflexivity. }
  eexists. split; [exact Hh|]. split; [reflexivity|].
  split; [|split; [|split; [reflexivity|split; [reflexivity|]]]].
  - apply reg_set_reg_eq. rewrite (wf_len s Hw).
    unfold registers.RR7, registers.RCOUNT. lia.
  - intros r Hr Hne. apply reg_set_reg_ne; auto. unfold registers.RR7. lia.
  - intros s0 Hrun Hs Ho. simpl. rewrite Hrun, Hs.
    unfold dispatch. rewrite Ho. simpl. rewrite Hh. reflexivity.
Qed.

Lemma unrecognized_trap_fails_witness :
  let s := boot (fun _ => 0) (fun _ => None) 0xF099 in
  wf s /\ ~ (0x20 <= Z.land (ins s) 0xFF <= 0x25) /\
  handleTrap 0 s = Fail (UnrecognizedTrap 0x99)
                        (set_reg registers.RR7 0x3000 s).
Proof.
  intros s.
  assert (Hw : wf s).
  { apply wf_boot; try discriminate; intros; unfold is_word; lia. }
  assert (Ht : ~ (0x20 <= Z.land (ins s) 0xFF <= 0x25))
    by (vm_compute; intros [_ H]; apply H; reflexivity).
  split; [exact Hw|]. split; [exact Ht|].
  destruct (unrecognized_trap_fails 0 s Hw Ht) as (s' & Hs' & -> & _).
  exact Hs'.
Defined.

(** ** The string traps *)

Lemma same_input_refl s : same_input s s.
Proof. repeat split. Qed.

Lemma same_input_sym s t : same_input s t -> same_input t s.
Proof. intros (A & B & C). repeat split; auto. Qed.

Lemma same_input_trans s t u :
  same_input s t -> same_input t u -> same_input s u.
Proof.
  intros (A & B & C) (A' & B' & C'). repeat split; congruence.
Qed.

Lemma same_input_write_stdout bs s : same_input (write_stdout bs s) s.
Proof. repeat split. Qed.

Lemma output_only_same_input s t : output_only s t -> same_input t s.
Proof. intros (A1 & _ & A3 & A4 & _). repeat split; assumption. Qed.

(** The memory read sees only the CPU and the input. *)
Lemma memoryRead_same_input address s t :
  same_input s t ->
  match memoryRead address s, memoryRead address t with
  | Ok v s', Ok w t' => v = w /\ same_input s' t'
  | Fail _ s', Fail _ t' => same_input s' t'
  | _, _ => False
  end.
Proof.
  destruct s as [c w r], t as [c' w' r'].
  intros (A & B & C). simpl in A, B, C. subst c'.
  unfold memoryRead, ReadByte. simpl.
  destruct (address =? registers.MRKBSR).
  - rewrite <- B, <- C.
    destruct (stdin w (stdin_pos w)) as [key|].
    + destruct (negb (key =? 0)); simpl;
        (split; [reflexivity|]); repeat split; simpl; congruence.
    + repeat split; simpl; congruence.
  - split; [reflexivity|]. repeat split; assumption.
Qed.

Lemma memoryRead_same_input_Ok address s t v s' :
  same_input s t -> memoryRead address s = Ok v s' ->
  exists t', memoryRead address t = Ok v t' /\ same_input s' t'.
Proof.
  intros Hst Hr. pose proof (memoryRead_same_input address s t Hst) as H.
  rewrite Hr in H. destruct (memoryRead address t) as [w t'|e t'|];
    try contradiction.
  destruct H as [-> H]. eauto.
Qed.

Lemma scan_words_same_input addr s ws s' :
  scan_words addr s ws s' ->
  forall t, same_input s t ->
  exists t', scan_words addr t ws t' /\ same_input s' t'.
Proof.
  induction 1 as [addr s s' Hr|addr s c s1 ws s' Hr Hc _ IH]; intros t Hst.
  - destruct (memoryRead_same_input_Ok _ _ _ _ _ Hst Hr) as (t' & Ht & Hs).
    exists t'. split; [apply scan_zero; exact Ht|exact Hs].
  - destruct (memoryRead_same_input_Ok _ _ _ _ _ Hst Hr) as (t1 & Ht & Hs).
    destruct (IH t1 Hs) as (t' & Hsc & Hs').
    exists t'. split; [|exact Hs'].
    eapply scan_more; eassumption.
Qed.

Lemma memoryRead_env address s v s' :
  memoryRead address s = Ok v s' ->
  stdout (env s') = stdout (env s) /\
  stdin (env s') = stdin (env s) /\
  stdin_pos (env s') =
    if address =? registers.MRKBSR then S (stdin_pos (env s))
    else stdin_pos (env s).
Proof.
  unfold memoryRead, ReadByte.
  destruct (address =? registers.MRKBSR).
  - destruct (stdin (env s) (stdin_pos (env s))) as [key|]; [|discriminate].
    intros H. injection H as _ <-. destruct (negb (key =? 0)); auto.
  - intros H. injection H as _ <-. auto.
Qed.

Lemma memoryRead_never_fails address s v s' :
  memoryRead address s = Ok v s' ->
  output_never_fails s -> output_never_fails s'.
Proof.
  unfold memoryRead, ReadByte, output_never_fails.
  destruct (address =? registers.MRKBSR).
  - destruct (stdin (env s) (stdin_pos (env s))) as [key|]; [|discriminate].
    intros H. injection H as _ <-. destruct (negb (key =? 0)); auto.
  - intros H. injection H as _ <-. auto.
Qed.

(** The loops, one iteration unfolded. *)
Lemma handlePuts_loop_S fuel addr s :
  handlePuts_loop (S fuel) addr s =
  match memoryRead addr s with
  | Fail e s1 => Fail e s1
  | Timeout => Timeout
  | Ok char s1 =>
      if char =? 0 then Ok tt s1
      else handlePuts_loop fuel (wrap16 (addr + 1)) (printf_c char s1)
  end.
Proof. reflexivity. Qed.

Lemma handlePutsP_loop_S fuel addr buf s :
  handlePutsP_loop (S fuel) addr buf s =
  match memoryRead addr s with
  | Fail e s1 => Fail e s1
  | Timeout => Timeout
  | Ok char s1 =>
      if char =? 0 then bufio_Flush buf s1
      else
        match bufio_WriteByte (to_byte (Z.land char 0xFF)) buf s1 with
        | Fail e s2 => Fail e s2
        | Timeout => Timeout
        | Ok buf1 s2 =>
            let symb := Z.shiftr char 8 in
            if negb (symb =? 0) then
              match bufio_WriteByte (to_byte symb) buf1 s2 with
              | Fail e s3 => Fail e s3
              | Timeout => Timeout
              | Ok buf2 s3 =>
                  handlePutsP_loop fuel (wrap16 (addr + 1)) buf2 s3
              end
            else handlePutsP_loop fuel (wrap16 (addr + 1)) buf1 s2
        end
  end.
Proof. reflexivity. Qed.

Lemma handlePutsP_loop_zero fuel addr buf s s1 :
  memoryRead addr s = Ok 0 s1 ->
  handlePutsP_loop (S fuel) addr buf s = bufio_Flush buf s1.
Proof. intros H. rewrite handlePutsP_loop_S, H. reflexivity. Qed.

Lemma handlePutsP_loop_read_fails fuel addr buf s e s1 :
  memoryRead addr s = Fail e s1 ->
  handlePutsP_loop (S fuel) addr buf s = Fail e s1.
Proof. intros H. rewrite handlePutsP_loop_S, H. reflexivity. Qed.

(** An iteration of PUTSP on a nonzero word: either its one or two
    buffered writes succeed and the loop goes on, the machine changed in
    its output only, written and pending bytes together grown by the
    word's bytes; or a write fails, which takes a full buffer and a failing
    output, and the handler returns the error. *)
Lemma handlePutsP_loop_word fuel addr buf s c s1 :
  memoryRead addr s = Ok c s1 -> c <> 0 ->
  (exists buf2 s3,
     handlePutsP_loop (S fuel) addr buf s =
     handlePutsP_loop fuel (wrap16 (addr + 1)) buf2 s3 /\
     output_only s1 s3 /\
     stdout (env s3) ++ buf2 = stdout (env s1) ++ buf ++ putsp_bytes c /\
     ((length buf <= 4096)%nat -> (length buf2 <= 4096)%nat) /\
     ((length buf + 2 <= 4096)%nat ->
      s3 = s1 /\ buf2 = buf ++ putsp_bytes c) /\
     (stdout_err (env s1) (stdout_calls (env s1)) = true ->
      (length buf < 4096)%nat /\ s3 = s1 /\ buf2 = buf ++ putsp_bytes c)) \/
  (exists s3,
     handlePutsP_loop (S fuel) addr buf s = Fail WriteError s3 /\
     output_only s1 s3 /\ ~ output_never_fails s1 /\
     (4096 < length buf + 2)%nat).
Proof.
  intros Hr Hc. rewrite handlePutsP_loop_S, Hr.
  destruct (Z.eqb_spec c 0); [contradiction|].
  pose proof (bufio_WriteByte_cases (to_byte (Z.land c 0xFF)) buf s1) as H1.
  destruct (bufio_WriteByte (to_byte (Z.land c 0xFF)) buf s1)
    as [buf1 s2|e s2|]; [| |contradiction].
  - destruct H1 as (O1 & Out1 & L1 & S1 & E1). cbv zeta. unfold putsp_bytes.
    destruct (Z.eqb_spec (Z.shiftr c 8) 0) as [Hz|Hnz]; simpl negb; cbv iota.
    + left. exists buf1, s2. split; [reflexivity|]. split; [exact O1|].
      split; [exact Out1|]. split; [exact L1|].
      split; [intros Hl; apply S1; lia|].
      intros He. split; [exact (E1 He)|apply S1, E1, He].
    + pose proof (bufio_WriteByte_cases (to_byte (Z.shiftr c 8)) buf1 s2)
        as H2.
      destruct (bufio_WriteByte (to_byte (Z.shiftr c 8)) buf1 s2)
        as [buf2 s3|e s3|]; [| |contradiction].
      * destruct H2 as (O2 & Out2 & L2 & S2 & E2).
        left. exists buf2, s3. split; [reflexivity|].
        split; [eapply output_only_trans; eassumption|].
        split.
        { rewrite Out2, app_assoc, Out1, <- !app_assoc. reflexivity. }
        split; [auto|]. split.
        { intros Hl. destruct S1 as [-> ->]; [lia|].
          destruct S2 as [-> ->]; [rewrite length_app; simpl; lia|].
          split; [reflexivity|]. rewrite <- app_assoc. reflexivity. }
        intros He. pose proof (E1 He) as Hl.
        destruct (S1 Hl) as [-> ->].
        destruct (S2 (E2 He)) as [-> ->].
        split; [exact Hl|]. split; [reflexivity|].
        rewrite <- app_assoc. reflexivity.
      * destruct H2 as (-> & O2 & Hge & He).
        right. exists s3. split; [reflexivity|].
        split; [eapply output_only_trans; eassumption|].
        split.
        { intros Hn. apply (output_fails_now s2 He).
          eapply output_only_never_fails; eassumption. }
        destruct (le_lt_dec 4096 (length buf)) as [Hb|Hb]; [lia|].
        destruct S1 as [_ ->]; [exact Hb|].
        rewrite length_app in Hge. simpl in Hge. lia.
  - destruct H1 as (-> & O1 & Hge & He).
    right. exists s2. split; [reflexivity|]. split; [exact O1|].
    split; [apply output_fails_now, He|lia].
Qed.

(** What PUTS does on a scan that reaches a zero word: it returns after
    one read per scanned word, having written the [%c] rendering of each
    nonzero word and nothing else. *)
Lemma handlePuts_loop_scan addr s ws s' :
  scan_words addr s ws s' ->
  forall t, same_input s t ->
  exists t',
    handlePuts_loop (S (length ws)) addr t = Ok tt t' /\
    same_input s' t' /\
    stdout (env t') = stdout (env t) ++ concat (map utf8_AppendRune ws).
Proof.
  induction 1 as [addr s s' Hr|addr s c s1 ws s' Hr Hc _ IH]; intros t Hst.
  - destruct (memoryRead_same_input_Ok _ _ _ _ _ Hst Hr) as (t' & Ht & Hs).
    exists t'. simpl. rewrite Ht. simpl.
    split; [reflexivity|]. split; [exact Hs|]. rewrite app_nil_r.
    apply (memoryRead_env _ _ _ _ Ht).
  - destruct (memoryRead_same_input_Ok _ _ _ _ _ Hst Hr) as (t1 & Ht & Hs).
    destruct (IH (printf_c c t1)) as (t' & Hl & Hs' & Hout).
    { eapply same_input_trans; [exact Hs|].
      apply same_input_sym, same_input_write_stdout. }
    exists t'. change (length (c :: ws)) with (S (length ws)).
    rewrite handlePuts_loop_S, Ht.
    destruct (Z.eqb_spec c 0); [contradiction|].
    split; [exact Hl|]. split; [exact Hs'|].
    rewrite Hout. simpl. rewrite <- app_assoc.
    destruct (memoryRead_env _ _ _ _ Ht) as (-> & _). reflexivity.
Qed.

Lemma handlePuts_loop_returns fuel addr s s' :
  handlePuts_loop fuel addr s = Ok tt s' -> scan_reaches_zero addr s.
Proof.
  revert addr s. induction fuel as [|fuel IH]; intros addr s; simpl;
    [discriminate|].
  destruct (memoryRead addr s) as [c s1|e s1|] eqn:Hr; try discriminate.
  destruct (Z.eqb_spec c 0) as [->|Hc].
  - intros _. exists [], s1. apply scan_zero. exact Hr.
  - intros Hl. destruct (IH _ _ Hl) as (ws & u & Hsc).
    destruct (scan_words_same_input _ _ _ _ Hsc s1) as (u' & Hsc' & _).
    { apply same_input_write_stdout. }
    exists (c :: ws), u'. eapply scan_more; eassumption.
Qed.

(** What PUTSP does on a scan that reaches a zero word, when the writes to
    the output succeed: it returns after one read per scanned word, the
    pending bytes and the bytes of each nonzero word written in order. *)
Lemma handlePutsP_loop_scan addr s ws s' :
  scan_words addr s ws s' ->
  forall buf t, same_input s t -> output_never_fails t ->
  exists t',
    handlePutsP_loop (S (length ws)) addr buf t = Ok tt t' /\
    same_input s' t' /\
    stdout (env t') =
    stdout (env t) ++ buf ++ concat (map putsp_bytes ws).
Proof.
  induction 1 as [addr s s' Hr|addr s c s1 ws s' Hr Hc _ IH];
    intros buf t Hst Hn.
  - destruct (memoryRead_same_input_Ok _ _ _ _ _ Hst Hr) as (t1 & Ht & Hs).
    simpl length. rewrite (handlePutsP_loop_zero _ _ _ _ _ Ht).
    pose proof (memoryRead_never_fails _ _ _ _ Ht Hn) as Hn1.
    pose proof (bufio_Flush_cases buf t1) as H.
    destruct (bufio_Flush buf t1) as [[] t'|e t'|]; [| |contradiction].
    + destruct H as (Ho & Hout & _). exists t'. split; [reflexivity|].
      split.
      { eapply same_input_trans; [exact Hs|].
        apply same_input_sym, output_only_same_input, Ho. }
      rewrite Hout. simpl. rewrite app_nil_r.
      destruct (memoryRead_env _ _ _ _ Ht) as (-> & _). reflexivity.
    + destruct H as (_ & _ & _ & He).
      destruct (output_fails_now t1 He Hn1).
  - destruct (memoryRead_same_input_Ok _ _ _ _ _ Hst Hr) as (t1 & Ht & Hs).
    pose proof (memoryRead_never_fails _ _ _ _ Ht Hn) as Hn1.
    change (length (c :: ws)) with (S (length ws)).
    destruct (handlePutsP_loop_word (S (length ws)) addr buf t c t1 Ht Hc)
      as [(buf2 & t3 & -> & Ho & Hout3 & _)|(t3 & _ & _ & Hf & _)];
      [|contradiction].
    destruct (IH buf2 t3) as (t' & Hl & Hs' & Hout).
    { eapply same_input_trans; [exact Hs|].
      apply same_input_sym, output_only_same_input, Ho. }
    { eapply output_only_never_fails; eassumption. }
    exists t'. split; [exact Hl|]. split; [exact Hs'|].
    rewrite Hout, app_assoc, Hout3.
    destruct (memoryRead_env _ _ _ _ Ht) as (-> & _).
    simpl. rewrite <- !app_assoc. reflexivity.
Qed.

Lemma handlePutsP_loop_returns fuel addr buf s s' :
  handlePutsP_loop fuel addr buf s = Ok tt s' -> scan_reaches_zero addr s.
Proof.
  revert addr buf s. induction fuel as [|fuel IH]; intros addr buf s;
    [discriminate|].
  destruct (memoryRead addr s) as [c s1|e s1|] eqn:Hr;
    [|rewrite handlePutsP_loop_S, Hr; discriminate..].
  destruct (Z.eqb_spec c 0) as [->|Hc].
  - intros _. exists [], s1. apply scan_zero. exact Hr.
  - destruct (handlePutsP_loop_word fuel addr buf s c s1 Hr Hc)
      as [(buf2 & s3 & -> & Ho & _)|(s3 & -> & _)]; [|discriminate].
    intros Hl. destruct (IH _ _ _ Hl) as (ws & u & Hsc).
    destruct (scan_words_same_input _ _ _ _ Hsc s1
                (output_only_same_input _ _ Ho)) as (u' & Hsc' & _).
    exists (c :: ws), u'. eapply scan_more; eassumption.
Qed.

Lemma handlePuts_writes s ws s' :
  scan_words (reg registers.RR0 s) s ws s' ->
  exists t',
    handlePuts (S (length ws)) s = Ok tt t' /\
    same_input s' t' /\
    stdout (env t') = stdout (env s) ++ concat (map utf8_AppendRune ws).
Proof.
  intros Hsc. unfold handlePuts.
  apply (handlePuts_loop_scan _ _ _ _ Hsc). apply same_input_refl.
Qed.

(** On words below 0x80, the ASCII range, PUTS writes one byte per word,
    its low byte. *)
Lemma handlePuts_ascii s ws s' :
  scan_words (reg registers.RR0 s) s ws s' ->
  Forall (fun w => w <= 0x7F) ws ->
  exists t',
    handlePuts (S (length ws)) s = Ok tt t' /\
    same_input s' t' /\
    stdout (env t') = stdout (env s) ++ map to_byte ws.
Proof.
  intros Hsc Hascii.
  destruct (handlePuts_writes s ws s' Hsc) as (t' & Ht & Hs & Hout).
  exists t'. split; [exact Ht|]. split; [exact Hs|].
  rewrite Hout. f_equal. clear -Hascii.
  induction Hascii as [|w ws Hw _ IH]; [reflexivity|].
  simpl. rewrite IH. unfold utf8_AppendRune.
  destruct (Z.leb_spec w 0x7F); [reflexivity|lia].
Qed.

(** C2: on the words 0x00E9, 0x0000 at the address in R0, PUTS returns
    after two reads having written the two bytes 0xC3 0xA9, the UTF-8
    encoding of U+00E9, not the single low byte 0xE9. *)
Theorem handlePuts_word_above_ascii :
  let image := fun a => if a =? 0x4000 then 0x00E9 else 0 in
  let s := set_reg registers.RR0 0x4000
             (boot image (fun _ => None) 0xF022) in
  exists s',
    handlePuts 2 s = Ok tt s' /\
    stdout (env s') = [0xC3; 0xA9] /\
    to_byte (mem 0x4000 s) = 0xE9.
Proof.
  simpl. eexists. split; [reflexivity|]. split; reflexivity.
Qed.

(** ** Termination of the string traps *)

Lemma no_zero_same_input s t :
  same_input s t -> no_zero_word s -> input_nonzero s ->
  no_zero_word t /\ input_nonzero t.
Proof.
  intros (A & B & C) Hz Hin. unfold no_zero_word, input_nonzero, mem in *.
  rewrite <- A, <- B. auto.
Qed.

Lemma memoryRead_nonzero addr s :
  is_word addr -> no_zero_word s -> input_nonzero s ->
  exists c s', memoryRead addr s = Ok c s' /\ c <> 0 /\
               no_zero_word s' /\ input_nonzero s'.
Proof.
  intros Ha Hz Hin. unfold memoryRead, ReadByte.
  destruct (Z.eqb_spec addr registers.MRKBSR) as [->|Hne].
  - destruct (Hin (stdin_pos (env s))) as (b & Hb & Hnz). rewrite Hb.
    destruct (Z.eqb_spec b 0) as [|_]; [contradiction|]. simpl.
    eexists. eexists. split; [reflexivity|].
    assert (Hz' : forall a, is_word a ->
              (if a =? registers.MRKBDR then b
               else if a =? registers.MRKBSR then wrap16 (Z.shiftl 1 15)
                    else mem a s) <> 0).
    { intros a Hw. destruct (a =? registers.MRKBDR); [exact Hnz|].
      destruct (a =? registers.MRKBSR); [discriminate|apply Hz, Hw]. }
    split; [apply (Hz' registers.MRKBSR Ha)|].
    split; [exact Hz'|exact Hin].
  - exists (mem addr s), s. split; [reflexivity|]. auto.
Qed.

Lemma handlePuts_loop_diverges fuel :
  forall addr s,
    is_word addr -> no_zero_word s -> input_nonzero s ->
    handlePuts_loop fuel addr s = Timeout.
Proof.
  induction fuel as [|fuel IH]; intros addr s Ha Hz Hin; [reflexivity|].
  simpl.
  destruct (memoryRead_nonzero addr s Ha Hz Hin)
    as (c & s1 & -> & Hc & Hz1 & Hin1).
  destruct (Z.eqb_spec c 0); [contradiction|].
  destruct (no_zero_same_input s1 (printf_c c s1)) as [Hz2 Hin2]; auto.
  { apply same_input_sym, same_input_write_stdout. }
  apply IH; auto using wrap16_word.
Qed.

Lemma handlePutsP_loop_diverges fuel :
  forall addr buf s,
    is_word addr -> no_zero_word s -> input_nonzero s ->
    output_never_fails s ->
    handlePutsP_loop fuel addr buf s = Timeout.
Proof.
  induction fuel as [|fuel IH]; intros addr buf s Ha Hz Hin Hn;
    [reflexivity|].
  destruct (memoryRead_nonzero addr s Ha Hz Hin)
    as (c & s1 & Hr & Hc & Hz1 & Hin1).
  pose proof (memoryRead_never_fails _ _ _ _ Hr Hn) as Hn1.
  destruct (handlePutsP_loop_word fuel addr buf s c s1 Hr Hc)
    as [(buf2 & s3 & -> & Ho & _)|(s3 & _ & _ & Hf & _)]; [|contradiction].
  destruct (no_zero_same_input s1 s3) as [Hz3 Hin3]; auto.
  { apply same_input_sym, output_only_same_input, Ho. }
  apply IH; auto using wrap16_word.
  eapply output_only_never_fails; eassumption.
Qed.

(** C10, as the code has it: PUTS returns normally exactly when the scan
    upward from R0, every address read through [memoryRead], obtains a word
    equal to 0 before an input read fails.  PUTSP returns normally only
    then, and it does return normally then provided its writes to the
    output succeed.  When no address holds a zero word and every input read
    gives a nonzero byte, PUTS does not return, whatever the fuel, and
    neither does PUTSP provided its writes to the output succeed.  A read
    of 0xFE00 takes one input byte, a read of another address none. *)
Theorem string_traps_termination (s : machine) :
  wf s ->
  ((exists fuel s', handlePuts fuel s = Ok tt s') <->
   scan_reaches_zero (reg registers.RR0 s) s) /\
  ((exists fuel s', handlePutsP fuel s = Ok tt s') ->
   scan_reaches_zero (reg registers.RR0 s) s) /\
  (output_never_fails s ->
   scan_reaches_zero (reg registers.RR0 s) s ->
   exists fuel s', handlePutsP fuel s = Ok tt s') /\
  (no_zero_word s -> input_nonzero s ->
   forall fuel, handlePuts fuel s = Timeout /\
                (output_never_fails s -> handlePutsP fuel s = Timeout)) /\
  (forall a t c t', memoryRead a t = Ok c t' ->
     stdin_pos (env t') =
     if a =? registers.MRKBSR then S (stdin_pos (env t))
     else stdin_pos (env t)).
Proof.
  intros Hw. split; [|split; [|split; [|split]]].
  - split.
    + intros (fuel & s' & H). eapply handlePuts_loop_returns. exact H.
    + intros (ws & s' & Hsc).
      destruct (handlePuts_writes s ws s' Hsc) as (t' & Ht & _). eauto.
  - intros (fuel & s' & H). eapply handlePutsP_loop_returns. exact H.
  - intros Hn (ws & s' & Hsc).
    destruct (handlePutsP_loop_scan _ _ _ _ Hsc [] s (same_input_refl s) Hn)
      as (t' & Ht & _).
    unfold handlePutsP. eauto.
  - intros Hz Hin fuel.
    assert (Ha : is_word (reg registers.RR0 s))
      by (apply wf_reg; [exact Hw|unfold registers.RR0; lia]).
    split.
    + apply handlePuts_loop_diverges; assumption.
    + intros Hn. apply handlePutsP_loop_diverges; assumption.
  - intros a t c t' H. apply (memoryRead_env _ _ _ _ H).
Qed.

Lemma string_traps_termination_witness :
  let s := set_reg registers.RR0 0xFDFF
             (boot (fun _ => 1) (fun _ => Some 0x41) 0xF022) in
  wf s /\ no_zero_word s /\ input_nonzero s /\ output_never_fails s /\
  handlePuts 1000 s = Timeout /\ handlePutsP 1000 s = Timeout.
Proof.
  intros s.
  assert (Hw : wf s).
  { apply wf_set_reg; [apply wf_boot|]; intros; unfold is_word, is_byte;
      try lia. injection H as <-. lia. }
  assert (Hz : no_zero_word s) by (intros a _; discriminate).
  assert (Hin : input_nonzero s)
    by (intros k; exists 0x41; split; [reflexivity|discriminate]).
  assert (Hn : output_never_fails s) by (intros k _; reflexivity).
  repeat (split; [assumption|]).
  destruct (string_traps_termination s Hw) as (_ & _ & _ & H & _).
  destruct (H Hz Hin 1000%nat) as [H1 H2].
  split; [exact H1|exact (H2 Hn)].
Defined.

(** C10 as stated fails on a zero input byte: with every memory word 1,
    every input read succeeding with the byte 0, every write to the output
    succeeding, and R0 = 0xFE00, the first read stores 0 in the keyboard
    status and returns it, and both handlers return normally. *)
Lemma string_traps_stop_on_zero_key :
  let s := set_reg registers.RR0 0xFE00
             (boot (fun _ => 1) (fun _ => Some 0) 0xF022) in
  wf s /\ no_zero_word s /\ input_never_fails s /\ output_never_fails s /\
  (exists s', handlePuts 1 s = Ok tt s') /\
  (exists s', handlePutsP 1 s = Ok tt s').
Proof.
  intros s.
  split.
  { apply wf_set_reg; [apply wf_boot|]; intros; unfold is_word, is_byte;
      try lia. injection H as <-. lia. }
  split; [intros a _; discriminate|].
  split; [intros k; discriminate|].
  split; [intros k _; reflexivity|].
  split; eexists; reflexivity.
Qed.

(** ** Well-formedness is an invariant of execution *)

Lemma memoryRead_outcome_wf address s :
  wf s -> outcome_wf (memoryRead address s).
Proof.
  intros Hw. destruct (memoryRead address s) as [v s'|e s'|] eqn:Hr; simpl.
  - apply (memoryRead_wf _ _ _ _ Hw Hr).
  - apply (memoryRead_fail_wf _ _ _ _ Hw Hr).
  - exact I.
Qed.

Lemma bind_read_wf address (k : Z -> M unit) s :
  wf s ->
  (forall v s1, wf s1 -> is_word v -> ins s1 = ins s -> outcome_wf (k v s1)) ->
  outcome_wf (bind (memoryRead address) k s).
Proof.
  intros Hw Hk. unfold bind.
  destruct (memoryRead address s) as [v s'|e s'|] eqn:Hr; simpl.
  - destruct (memoryRead_wf _ _ _ _ Hw Hr).
    apply Hk; auto. apply (memoryRead_regs _ _ _ _ Hr).
  - apply (memoryRead_fail_wf _ _ _ _ Hw Hr).
  - exact I.
Qed.

Lemma memoryRead_outcome_holds_wf address s :
  wf s -> outcome_holds (memoryRead address s) wf.
Proof.
  intros Hw. pose proof (memoryRead_outcome_wf address s Hw) as H.
  destruct (memoryRead address s); exact H.
Qed.

(** Whatever the memory read and the writes to the output keep, PUTSP
    keeps; its errors are those of the read and of the write. *)
Lemma handlePutsP_loop_inv (Inv : machine -> Prop) fuel :
  (forall a s, Inv s -> outcome_holds (memoryRead a s) Inv) ->
  (forall s s', Inv s -> output_only s s' -> Inv s') ->
  forall addr buf s, Inv s ->
  match handlePutsP_loop fuel addr buf s with
  | Ok _ s' => Inv s'
  | Fail e s' => Inv s' /\ (e = ReadError \/ e = WriteError)
  | Timeout => True
  end.
Proof.
  intros Hread Hout.
  induction fuel as [|fuel IH]; intros addr buf s Hs; [exact I|].
  pose proof (Hread addr s Hs) as H.
  destruct (memoryRead addr s) as [c s1|e s1|] eqn:Hr.
  - simpl in H. destruct (Z.eqb_spec c 0) as [->|Hc].
    + rewrite (handlePutsP_loop_zero _ _ _ _ _ Hr).
      pose proof (bufio_Flush_cases buf s1) as HF.
      destruct (bufio_Flush buf s1) as [[] s'|e s'|]; [| |contradiction].
      * apply (Hout s1); [exact H|apply HF].
      * destruct HF as (-> & Ho & _). split; [|auto].
        apply (Hout s1); assumption.
    + destruct (handlePutsP_loop_word fuel addr buf s c s1 Hr Hc)
        as [(buf2 & s3 & -> & Ho & _)|(s3 & -> & Ho & _)].
      * apply IH. apply (Hout s1); assumption.
      * split; [|auto]. apply (Hout s1); assumption.
  - rewrite (handlePutsP_loop_read_fails _ _ _ _ _ _ Hr).
    destruct (memoryRead_fail_regs _ _ _ _ Hr) as (-> & _).
    split; [exact H|auto].
  - destruct (memoryRead_no_timeout _ _ Hr).
Qed.

Lemma handlePuts_loop_wf fuel :
  forall addr s, wf s -> outcome_wf (handlePuts_loop fuel addr s).
Proof.
  induction fuel as [|fuel IH]; intros addr s Hw; simpl; [exact I|].
  pose proof (memoryRead_outcome_wf addr s Hw) as H.
  destruct (memoryRead addr s) as [c s1|e s1|]; simpl in *; auto.
  destruct (c =? 0); simpl; auto.
  apply IH, wf_write_stdout, H.
Qed.

Lemma handlePutsP_loop_wf fuel :
  forall addr buf s, wf s -> outcome_wf (handlePutsP_loop fuel addr buf s).
Proof.
  intros addr buf s Hw.
  pose proof (handlePutsP_loop_inv wf fuel
                (fun a t Ht => memoryRead_outcome_holds_wf a t Ht)
                (fun t t' Ht Ho => output_only_wf t t' Ho Ht)
                addr buf s Hw) as H.
  destruct (handlePutsP_loop fuel addr buf s) as [[] s'|e s'|];
    simpl; tauto.
Qed.

Lemma read_into_R0_wf s byt :
  wf s -> is_byte byt ->
  wf (updateFlags registers.RR0 (set_reg registers.RR0 byt s)).
Proof.
  intros Hw Hb. apply wf_updateFlags, wf_set_reg; auto using byte_word.
Qed.

Lemma handleGetC_wf s : wf s -> outcome_wf (handleGetC s).
Proof.
  intros Hw. unfold handleGetC.
  pose proof (wf_ReadByte s Hw) as Hr. unfold ReadByte in *. simpl in Hr.
  destruct (stdin (env s) (stdin_pos (env s))) as [byt|] eqn:Hk; simpl.
  - apply read_into_R0_wf; [exact Hr|apply (wf_stdin s Hw _ _ Hk)].
  - exact Hr.
Qed.

(** OUT comes to one write of the low byte of R0. *)
Lemma handleOut_eq s :
  handleOut s = Stdout_Write [to_byte (reg registers.RR0 s)] s.
Proof. reflexivity. Qed.

Lemma handleOut_wf s : wf s -> outcome_wf (handleOut s).
Proof.
  intros Hw. rewrite handleOut_eq. unfold Stdout_Write.
  destruct (stdout_err _ _); simpl; apply wf_write_stdout, Hw.
Qed.

Lemma handleIn_wf s : wf s -> outcome_wf (handleIn s).
Proof.
  intros Hw. unfold handleIn.
  pose proof (wf_ReadByte _ (wf_write_stdout prompt s Hw)) as Hr.
  unfold ReadByte in *. simpl in Hr.
  change (stdin (env (write_stdout prompt s))) with (stdin (env s)).
  change (stdin_pos (env (write_stdout prompt s))) with (stdin_pos (env s)).
  destruct (stdin (env s) (stdin_pos (env s))) as [byt|] eqn:Hk;
    [|exact Hr].
  pose proof (read_into_R0_wf _ byt Hr (wf_stdin s Hw _ _ Hk)) as H0.
  unfold flush_stdin. destruct (stdin_writable _); simpl; [|exact H0].
  apply wf_with_env; [reflexivity|exact H0].
Qed.

Lemma handleHalt_wf s : wf s -> outcome_wf (handleHalt s).
Proof. intros Hw. simpl. apply wf_set_running, Hw. Qed.

Lemma handleTrap_wf fuel s : wf s -> outcome_wf (handleTrap fuel s).
Proof.
  intros Hw. unfold handleTrap.
  set (s1 := set_reg registers.RR7 (reg registers.RPC s) s).
  assert (Hw1 : wf s1).
  { apply wf_set_reg; [exact Hw|].
    apply wf_reg; [exact Hw|unfold registers.RPC; lia]. }
  destruct (trapTable (Z.land (ins s1) 255)) as [h|] eqn:Ht; [|exact Hw1].
  revert Ht. unfold trapTable.
  destruct (Z.land (ins s1) 255) as [|p|p]; try discriminate.
  do 6 (destruct p as [p|p|]; try discriminate);
    intros Ht; injection Ht as <-; cbv beta;
    first [ apply handleGetC_wf | apply handleOut_wf | apply handleIn_wf
          | apply handleHalt_wf | apply handlePuts_loop_wf
          | apply handlePutsP_loop_wf ]; exact Hw1.
Qed.

Lemma wf_word_write s r v :
  wf s -> is_word v -> outcome_wf (Ok tt (updateFlags r (set_reg r v s))).
Proof. intros Hw Hv. simpl. apply wf_updateFlags, wf_set_reg; auto. Qed.

Lemma dispatch_wf o fuel s : wf s -> outcome_wf (dispatch o fuel s).
Proof.
  intros Hw. unfold dispatch.
  destruct (opTable o) as [h|] eqn:Ho; [|exact Hw].
  assert (Hpc : is_word (reg registers.RPC s))
    by (apply wf_reg; [exact Hw|unfold registers.RPC; lia]).
  revert Ho. unfold opTable.
  destruct o as [|p|p]; try discriminate;
    repeat match goal with
           | p : positive |- _ => destruct p as [p|p|]; try discriminate
           end;
    intros Ho; injection Ho as <-.
  all: try solve [apply handleTrap_wf; exact Hw].
  all: try solve [unfold unhandledOpcode; exact Hw].
  all: try solve
    [ unfold handleBr; destruct (negb _); simpl; auto;
      apply wf_set_reg; auto using wrap16_word ].
  all: try solve
    [ unfold handleAdd; destruct (_ =? 1); apply wf_word_write;
      auto using wrap16_word ].
  all: try solve
    [ unfold handleAnd; destruct (_ =? 1); apply wf_word_write; auto;
      apply land_word, wf_reg_field, Hw ].
  all: try solve
    [ unfold handleNot, not16; apply wf_word_write; auto using wrap16_word ].
  all: try solve
    [ unfold handleLoadEffectiveAddress; apply wf_word_write;
      auto using wrap16_word ].
  all: try solve
    [ unfold handleJmp; simpl; apply wf_set_reg; auto;
      apply wf_reg_field, Hw ].
  all: try solve
    [ unfold handleStore, handleStr, memoryWrite; simpl;
      apply wf_set_mem; auto; apply wf_reg_field, Hw ].
  all: try solve
    [ unfold handleLoad, handleLoadR; apply bind_read_wf; auto;
      intros; apply wf_word_write; auto ].
  all: try solve
    [ unfold handleStoreIndirect; apply bind_read_wf; auto;
      intros v s1 Hw1 Hv _; unfold memoryWrite; simpl;
      apply wf_set_mem; auto; apply wf_reg_field, Hw1 ].
  all: try solve
    [ unfold handleLoadIndirect; apply bind_read_wf; auto;
      intros addr s1 Hw1 _ _; apply bind_read_wf; auto;
      intros; apply wf_word_write; auto ].
  (* JSR *)
  unfold handleJumpSubroutine. cbv zeta.
  assert (Hw1 : wf (set_reg registers.RR7 (reg registers.RPC s) s))
    by (apply wf_set_reg; auto).
  destruct (_ =? 0); simpl; apply wf_set_reg; auto using wrap16_word.
  apply wf_reg_field, Hw1.
Qed.

Lemma Step_wf s : wf s -> outcome_wf (Step s).
Proof.
  intros Hw. unfold Step.
  pose proof (memoryRead_outcome_wf (reg registers.RPC s) s Hw) as H.
  destruct (memoryRead (reg registers.RPC s) s) as [i s1|e s1|] eqn:Hr;
    simpl in *; auto.
  destruct (memoryRead_wf _ _ _ _ Hw Hr) as [_ Hi].
  assert (H2 : wf (incrProgramCounter s1))
    by (apply wf_set_reg; auto using wrap16_word).
  destruct H2 as [Hl Hrg Hm _ Hs]. constructor; auto.
Qed.

(** Every machine the loop passes through or stops in holds 16-bit words
    only. *)
Lemma Loop_from_wf fuel :
  forall s, wf s -> outcome_wf (Loop_from dispatch fuel s).
Proof.
  induction fuel as [|fuel IH]; intros s Hw; simpl; [exact I|].
  destruct (running s); [|exact Hw].
  pose proof (Step_wf s Hw) as H1.
  destruct (Step s) as [[] s1|e s1|]; simpl in *; auto.
  pose proof (dispatch_wf (op (core s1)) fuel s1 H1) as H2.
  destruct (dispatch (op (core s1)) fuel s1) as [[] s2|e s2|]; simpl in *;
    auto.
Qed.

Lemma Run_wf image fuel w b :
  (forall a, is_word (image a)) ->
  (forall k x, stdin w k = Some x -> is_byte x) ->
  outcome_wf (Run image fuel (mkMachine NewCPU w b)).
Proof.
  intros Hm Hin. unfold Run, Loop. apply Loop_from_wf.
  constructor; simpl; auto.
  - repeat constructor; unfold is_word; cbv; congruence.
  - unfold is_word. cbv. split; congruence.
Qed.

(** ** Strings that lie clear of the keyboard status

    A zero-terminated string that does not cover address 0xFE00 is scanned
    without any input being read: the words are those of the memory. *)

Lemma wrap16_succ addr j :
  wrap16 (wrap16 (addr + 1) + j) = wrap16 (addr + (j + 1)).
Proof.
  unfold wrap16. rewrite Z.add_mod_idemp_l by lia. f_equal. lia.
Qed.

Lemma scan_words_plain (k : nat) :
  forall addr s,
    is_word addr ->
    (forall j, 0 <= j < Z.of_nat k ->
               wrap16 (addr + j) <> registers.MRKBSR /\
               mem (wrap16 (addr + j)) s <> 0) ->
    wrap16 (addr + Z.of_nat k) <> registers.MRKBSR ->
    mem (wrap16 (addr + Z.of_nat k)) s = 0 ->
    scan_words addr s
      (map (fun j => mem (wrap16 (addr + Z.of_nat j)) s) (seq 0 k)) s.
Proof.
  induction k as [|k IH]; intros addr s Ha Hbody Hend Hzero.
  - simpl in *. rewrite Z.add_0_r, wrap16_small in Hend, Hzero by exact Ha.
    apply scan_zero. rewrite memoryRead_plain by exact Hend.
    rewrite Hzero. reflexivity.
  - destruct (Hbody 0) as [Hk0 Hz0]; [lia|].
    rewrite Z.add_0_r, wrap16_small in Hk0, Hz0 by exact Ha.
    change (seq 0 (S k)) with (0%nat :: seq 1 k). rewrite <- seq_shift.
    rewrite map_cons, map_map. simpl Z.of_nat.
    rewrite Z.add_0_r, (wrap16_small addr) by exact Ha.
    eapply scan_more; [apply memoryRead_plain, Hk0|exact Hz0|].
    assert (Hshift : forall j : nat,
               wrap16 (addr + Z.of_nat (S j)) =
               wrap16 (wrap16 (addr + 1) + Z.of_nat j)).
    { intros j. rewrite wrap16_succ. f_equal. lia. }
    erewrite map_ext; [|intros j; rewrite Hshift; reflexivity].
    apply IH.
    + apply wrap16_word.
    + intros j Hj. rewrite wrap16_succ. apply Hbody. lia.
    + rewrite wrap16_succ. replace (Z.of_nat k + 1) with (Z.of_nat (S k))
        by lia. exact Hend.
    + rewrite wrap16_succ. replace (Z.of_nat k + 1) with (Z.of_nat (S k))
        by lia. exact Hzero.
Qed.

(** On such a string of words below 0x80, PUTS writes the low byte of each
    word before the zero word, in address order, reads nothing beyond the
    zero word and appends nothing. *)
Lemma handlePuts_ascii_string (k : nat) (s : machine) :
  let addr := reg registers.RR0 s in
  is_word addr ->
  (forall j, 0 <= j < Z.of_nat k ->
             wrap16 (addr + j) <> registers.MRKBSR /\
             0 < mem (wrap16 (addr + j)) s <= 0x7F) ->
  wrap16 (addr + Z.of_nat k) <> registers.MRKBSR ->
  mem (wrap16 (addr + Z.of_nat k)) s = 0 ->
  exists t',
    handlePuts (S k) s = Ok tt t' /\
    same_input s t' /\
    stdout (env t') =
    stdout (env s) ++
    map (fun j => to_byte (mem (wrap16 (addr + Z.of_nat j)) s)) (seq 0 k).
Proof.
  intros addr Ha Hbody Hend Hzero.
  assert (Hsc : scan_words addr s
            (map (fun j => mem (wrap16 (addr + Z.of_nat j)) s) (seq 0 k)) s).
  { apply scan_words_plain; auto.
    intros j Hj. destruct (Hbody j Hj). split; [assumption|lia]. }
  destruct (handlePuts_ascii s _ s Hsc) as (t' & Ht & Hs & Hout).
  - apply List.Forall_forall. intros w Hw. apply in_map_iff in Hw.
    destruct Hw as (j & <- & Hj). apply in_seq in Hj.
    apply Hbody. lia.
  - exists t'. rewrite length_map, length_seq in Ht.
    split; [exact Ht|]. split; [exact Hs|].
    rewrite Hout, map_map. reflexivity.
Qed.

(** ** Two runs of the whole machine *)

(** PUTS on the words 'H', 'i', 0 writes the two bytes 'H', 'i'. *)
Example handlePuts_Hi :
  let image := fun a => if a =? 0x4000 then 0x0048
                        else if a =? 0x4001 then 0x0069 else 0 in
  let s := set_reg registers.RR0 0x4000
             (boot image (fun _ => None) 0xF022) in
  exists s', handlePuts 3 s = Ok tt s' /\ stdout (env s') = [0x48; 0x69].
Proof. simpl. eexists. split; reflexivity. Qed.

(** [AND R0,R0,#0; ADD R0,R0,#5; TRAP x25] at 0x3000 halts with R0 = 5 and
    COND positive. *)
Example run_and_add_halt :
  let image := fun a => if a =? 0x3000 then 0x5020
                        else if a =? 0x3001 then 0x1025
                        else if a =? 0x3002 then 0xF025 else 0 in
  let w := mkWorld (fun _ => None) 0%nat [] (fun _ => false) 0%nat true [] in
  let s := mkMachine NewCPU w false in
  exists s',
    Run image 4 s = Ok tt s' /\
    run_result (Run image 4 s) = HALTED /\
    reg registers.RR0 s' = 5 /\
    reg registers.RCOND s' = cflags.FLPOS.
Proof. simpl. eexists. repeat split; reflexivity. Qed.

(* ================================================================= *)
(** * Further properties of the CPU *)

(** ** Stores and loads *)

(** X1: a word stored at an address other than the keyboard status is the
    word the next read of that address returns, and the read changes
    nothing; a read of another plain address still sees the old word.  A
    word stored at the keyboard status (0xFE00) is never read back: the read
    replaces it with the status of the byte it takes from the input. *)
Theorem store_then_read (a b v : Z) (s : machine) :
  (a <> registers.MRKBSR ->
   bind (memoryWrite a v) (fun _ => memoryRead a) s =
   Ok v (set_mem a v s)) /\
  (b <> a -> b <> registers.MRKBSR ->
   bind (memoryWrite a v) (fun _ => memoryRead b) s =
   Ok (mem b s) (set_mem a v s)) /\
  (a = registers.MRKBSR ->
   forall key, stdin (env s) (stdin_pos (env s)) = Some key ->
   exists s',
     bind (memoryWrite a v) (fun _ => memoryRead a) s =
     Ok (if key =? 0 then 0 else 2 ^ 15) s').
Proof.
  unfold bind, memoryWrite. split; [|split].
  - intros Ha. rewrite memoryRead_plain by exact Ha.
    rewrite mem_set_mem, Z.eqb_refl. reflexivity.
  - intros Hb Hk. rewrite memoryRead_plain by exact Hk.
    rewrite mem_set_mem.
    destruct (Z.eqb_spec b a); [contradiction|reflexivity].
  - intros -> key Hkey. unfold memoryRead, ReadByte.
    rewrite Z.eqb_refl. simpl. rewrite Hkey.
    destruct (Z.eqb_spec key 0); simpl; eexists; reflexivity.
Qed.

Lemma store_then_read_witness :
  let s := boot (fun _ => 0) (fun _ => Some 0x41) 0 in
  (exists s', bind (memoryWrite 0x4000 7) (fun _ => memoryRead 0x4000) s
              = Ok 7 s') /\
  (exists s', bind (memoryWrite 0xFE00 7) (fun _ => memoryRead 0xFE00) s
              = Ok (2 ^ 15) s').
Proof.
  intros s.
  destruct (store_then_read 0x4000 0 7 s) as (H1 & _ & _).
  destruct (store_then_read 0xFE00 0 7 s) as (_ & _ & H3).
  split.
  - eexists. apply H1. discriminate.
  - destruct (H3 eq_refl 0x41 eq_refl) as (s' & Hs'). exists s'. exact Hs'.
Defined.

Lemma wf_set_decoded s o i : wf s -> is_word i -> wf (set_decoded o i s).
Proof. intros [Hl Hr Hm _ Hs] Hi. constructor; auto. Qed.

(** X2: ST followed by an LD with the same 9-bit offset, from the same PC,
    loads the stored register value into the destination register and sets
    COND to its tag, provided the effective address is not the keyboard
    status. *)
Theorem store_load_round_trip (s : machine) (i2 : Z) :
  wf s -> is_word i2 ->
  Z.land i2 0x1FF = Z.land (ins s) 0x1FF ->
  wrap16 (reg registers.RPC s + signExtend (Z.land (ins s) 0x1FF) 9)
    <> registers.MRKBSR ->
  exists s1 s2,
    handleStore s = Ok tt s1 /\
    handleLoad (set_decoded (Z.shiftr i2 12) i2 s1) = Ok tt s2 /\
    reg (Z.land (Z.shiftr i2 9) 0x7) s2 = reg (field_dr s) s /\
    reg registers.RCOND s2 = flag_of (reg (field_dr s) s).
Proof.
  intros Hw Hi2 Hoff Hk.
  set (a := wrap16 (reg registers.RPC s
                    + signExtend (Z.land (ins s) 0x1FF) 9)) in *.
  set (v := reg (field_dr s) s).
  assert (Hv : is_word v) by (apply wf_reg_field, Hw).
  set (t := set_decoded (Z.shiftr i2 12) i2 (set_mem a v s)).
  assert (Hwt : wf t)
    by (apply wf_set_decoded; [apply wf_set_mem|]; assumption).
  exists (set_mem a v s).
  eexists. split; [reflexivity|].
  unfold handleLoad, bind. cbv zeta. fold t.
  change (ins t) with i2.
  change (reg registers.RPC t) with (reg registers.RPC s).
  rewrite Hoff. fold a. rewrite memoryRead_plain by exact Hk.
  change (mem a t) with (if a =? a then v else mem a s).
  rewrite Z.eqb_refl. split; [reflexivity|].
  destruct (write_then_flags t (Z.land (Z.shiftr i2 9) 7) v Hwt
              (land7_range _) Hv) as (_ & Hr & Hc).
  split; assumption.
Qed.

Lemma store_load_round_trip_witness :
  let s := set_reg 3 0x1234 (boot (fun _ => 0) (fun _ => None) 0x3605) in
  exists s1 s2,
    handleStore s = Ok tt s1 /\
    handleLoad (set_decoded 2 0x2A05 s1) = Ok tt s2 /\
    reg 5 s2 = 0x1234.
Proof.
  intros s.
  assert (Hw : wf s).
  { apply wf_set_reg; [apply wf_boot|]; try discriminate;
      intros; unfold is_word; lia. }
  assert (Hi : is_word 0x2A05) by (unfold is_word; lia).
  destruct (store_load_round_trip s 0x2A05 Hw Hi) as (s1 & s2 & A & B & C & _).
  - reflexivity.
  - vm_compute. discriminate.
  - exists s1, s2. split; [exact A|]. split; [exact B|exact C].
Defined.

(** ** What the primitive updates leave alone *)

Lemma updateFlags_eq r s :
  exists f,
    (f = cflags.FLPOS \/ f = cflags.FLZRO \/ f = cflags.FLNEG) /\
    updateFlags r s = set_reg registers.RCOND f s.
Proof.
  unfold updateFlags. destruct (reg r s =? 0); [|destruct (negb _)];
    eexists; (split; [|reflexivity]); auto.
Qed.

Lemma memoryRead_cases address s :
  (exists v s',
     memoryRead address s = Ok v s' /\
     registers (core s') = registers (core s) /\
     same_decoded s' s /\
     stdout (env s') = stdout (env s) /\
     stdin_echo (env s') = stdin_echo (env s) /\
     (address <> registers.MRKBSR -> s' = s)) \/
  (exists s',
     memoryRead address s = Fail ReadError s' /\
     core s' = core s /\ running s' = running s /\
     stdout (env s') = stdout (env s) /\
     stdin_echo (env s') = stdin_echo (env s) /\
     address = registers.MRKBSR).
Proof.
  unfold memoryRead, ReadByte.
  destruct (Z.eqb_spec address registers.MRKBSR) as [E|E].
  - destruct (stdin (env s) (stdin_pos (env s))) as [key|].
    + left. destruct (negb (key =? 0)); eexists; eexists;
        (split; [reflexivity|]); repeat split; intros; contradiction.
    + right. eexists. repeat split. exact E.
  - left. exists (mem address s), s. repeat split.
Qed.

Lemma reg_gp_ne_cond x : Z.land x 7 <> registers.RCOND.
Proof. pose proof (land7_range x). unfold registers.RCOND. lia. Qed.

Lemma reg_gp_ne_pc x : Z.land x 7 <> registers.RPC.
Proof. pose proof (land7_range x). unfold registers.RPC. lia. Qed.

(** ** The fetch *)

(** X3: a step whose PC is not the keyboard status fetches the word at PC,
    decodes its top four bits as the opcode, always below 16, and
    increments PC modulo 2^16 (0xFFFF wraps to 0); no other register, no
    memory word, no input or output changes. *)
Theorem Step_fetch_decode (s : machine) :
  wf s ->
  reg registers.RPC s <> registers.MRKBSR ->
  exists s',
    Step s = Ok tt s' /\
    ins s' = mem (reg registers.RPC s) s /\
    op (core s') = ins s' / 4096 /\
    0 <= op (core s') < 16 /\
    reg registers.RPC s' = (reg registers.RPC s + 1) mod 65536 /\
    (forall r, 0 <= r -> r <> registers.RPC -> reg r s' = reg r s) /\
    memory (core s') = memory (core s) /\
    env s' = env s /\ running s' = running s.
Proof.
  intros Hw Hpc. unfold Step. rewrite memoryRead_plain by exact Hpc.
  eexists. split; [reflexivity|]. simpl.
  pose proof (wf_mem s Hw (reg registers.RPC s)) as Hi. unfold is_word in Hi.
  assert (Hop : Z.shiftr (mem (reg registers.RPC s) s) 12
                = mem (reg registers.RPC s) s / 4096)
    by (rewrite Z.shiftr_div_pow2 by lia; reflexivity).
  split; [reflexivity|]. split; [exact Hop|]. split.
  { rewrite Hop. split; [apply Z.div_pos; lia|].
    apply Z.div_lt_upper_bound; lia. }
  split.
  { apply (reg_set_reg_eq s). rewrite (wf_len s Hw).
    unfold registers.RPC, registers.RCOUNT. lia. }
  split; [|auto].
  intros r Hr Hne. apply (reg_set_reg_ne s); auto. unfold registers.RPC. lia.
Qed.

Lemma Step_fetch_decode_witness :
  let s := set_reg registers.RPC 0xFFFF
             (boot (fun a => if a =? 0xFFFF then 0xF025 else 0)
                   (fun _ => None) 0) in
  wf s /\ reg registers.RPC s <> registers.MRKBSR /\
  exists s', Step s = Ok tt s' /\ op (core s') = 15 /\
             reg registers.RPC s' = 0.
Proof.
  intros s.
  assert (Hw : wf s).
  { apply wf_set_reg; [apply wf_boot|]; try discriminate;
      intros; unfold is_word; try lia.
    destruct (a =? 0xFFFF); lia. }
  assert (Hpc : reg registers.RPC s <> registers.MRKBSR)
    by (vm_compute; discriminate).
  split; [exact Hw|]. split; [exact Hpc|].
  destruct (Step_fetch_decode s Hw Hpc) as (s' & Hs & Hi & Ho & _ & Hp & _).
  exists s'. split; [exact Hs|]. split.
  - rewrite Ho, Hi. reflexivity.
  - rewrite Hp. reflexivity.
Defined.

(** ** What every handler preserves *)

Lemma preserved_refl s : wf s -> preserved s s.
Proof. intros Hw. split; [exact Hw|]. repeat split; auto. Qed.

Lemma preserved_intro s s' :
  wf s' -> op (core s') = op (core s) -> ins s' = ins s ->
  (cond_ok s -> cond_ok s') -> preserved s s'.
Proof. intros. repeat (split; [assumption|]). assumption. Qed.

Lemma preserved_trans s t u :
  preserved s t -> preserved t u -> preserved s u.
Proof.
  intros (A & B & C & D) (A' & B' & C' & D').
  split; [exact A'|]. repeat split; auto; congruence.
Qed.

Lemma cond_ok_registers s t :
  registers (core t) = registers (core s) -> cond_ok s -> cond_ok t.
Proof. unfold cond_ok, reg. intros ->. auto. Qed.

Lemma preserved_set_reg s r v :
  wf s -> is_word v -> 0 <= r -> r <> registers.RCOND ->
  preserved s (set_reg r v s).
Proof.
  intros Hw Hv Hr Hne. split; [apply wf_set_reg; assumption|].
  repeat split. unfold cond_ok.
  rewrite (reg_set_reg_ne s) by (auto; unfold registers.RCOND; lia). auto.
Qed.

Lemma preserved_updateFlags s r : wf s -> preserved s (updateFlags r s).
Proof.
  intros Hw. split; [apply wf_updateFlags, Hw|].
  destruct (updateFlags_eq r s) as (f & Hf & ->). repeat split.
  intros _. unfold cond_ok. rewrite (reg_set_reg_eq s); [exact Hf|].
  rewrite (wf_len s Hw). unfold registers.RCOND, registers.RCOUNT. lia.
Qed.

Lemma preserved_set_mem s a v :
  wf s -> is_word v -> preserved s (set_mem a v s).
Proof.
  intros Hw Hv. split; [apply wf_set_mem; assumption|]. repeat split; auto.
Qed.

Lemma preserved_with_env s f :
  (forall w, stdin (f w) = stdin w) -> wf s -> preserved s (with_env f s).
Proof.
  intros Hf Hw. split; [apply wf_with_env; assumption|]. repeat split; auto.
Qed.

Lemma preserved_write_flags s x v :
  wf s -> is_word v ->
  preserved s (updateFlags (Z.land x 7) (set_reg (Z.land x 7) v s)).
Proof.
  intros Hw Hv. pose proof (land7_range x) as Hx.
  apply (preserved_trans s (set_reg (Z.land x 7) v s)).
  - apply preserved_set_reg; [exact Hw|exact Hv|lia|apply reg_gp_ne_cond].
  - apply preserved_updateFlags, wf_set_reg; assumption.
Qed.

Lemma memoryRead_post address s :
  wf s ->
  match memoryRead address s with
  | Ok v s' => preserved s s' /\ running s' = running s /\ is_word v
  | Fail e s' => preserved s s' /\ running s' = running s /\ e = ReadError
  | Timeout => False
  end.
Proof.
  intros Hw.
  destruct (memoryRead_cases address s)
    as [(v & s' & Hr & Hregs & (Ho & Hi & Hrun) & _)
       |(s' & Hr & Hc & Hrun & _)]; rewrite Hr.
  - destruct (memoryRead_wf _ _ _ _ Hw Hr) as [Hw' Hv].
    split; [|split; [exact Hrun|exact Hv]].
    apply preserved_intro; auto. apply cond_ok_registers, Hregs.
  - pose proof (memoryRead_fail_wf _ _ _ _ Hw Hr) as Hw'.
    split; [|split; [exact Hrun|reflexivity]].
    apply preserved_intro; auto; try (unfold ins; rewrite Hc; reflexivity).
    apply cond_ok_registers. rewrite Hc. reflexivity.
Qed.

(** A handler that reads one word and goes on. *)
Lemma handler_post_read address (k : Z -> M unit) s :
  wf s ->
  (forall v s1, wf s1 -> is_word v -> ins s1 = ins s ->
                handler_post s1 (k v s1)) ->
  handler_post s (bind (memoryRead address) k s).
Proof.
  intros Hw Hk. unfold bind.
  pose proof (memoryRead_post address s Hw) as H.
  destruct (memoryRead address s) as [v s1|e s1|]; [|exact (conj (proj1 H)
    (conj (proj1 (proj2 H)) (or_introl (proj2 (proj2 H)))))|contradiction].
  destruct H as (Hp & Hrun & Hv).
  pose proof (Hk v s1 (proj1 Hp) Hv (proj1 (proj2 (proj2 Hp)))) as H1.
  unfold handler_post in *.
  destruct (k v s1) as [[] s2|e s2|]; auto.
  - destruct H1 as [Hp1 Hr1]. split; [eapply preserved_trans; eassumption|].
    congruence.
  - destruct H1 as (Hp1 & Hr1 & He).
    split; [eapply preserved_trans; eassumption|]. split; [congruence|auto].
Qed.

Lemma handler_post_ok s s' :
  preserved s s' -> running s' = running s -> handler_post s (Ok tt s').
Proof. intros. split; assumption. Qed.

Lemma running_updateFlags r s : running (updateFlags r s) = running s.
Proof. destruct (updateFlags_eq r s) as (f & _ & ->). reflexivity. Qed.

Lemma handler_post_write_flags s x v :
  wf s -> is_word v ->
  handler_post s (Ok tt (updateFlags (Z.land x 7) (set_reg (Z.land x 7) v s))).
Proof.
  intros Hw Hv. apply handler_post_ok.
  - apply preserved_write_flags; assumption.
  - rewrite running_updateFlags. reflexivity.
Qed.

Lemma handleAdd_post s : wf s -> handler_post s (handleAdd s).
Proof.
  intros Hw. unfold handleAdd. cbv zeta.
  destruct (_ =? 1); apply handler_post_write_flags;
    auto using wrap16_word.
Qed.

Lemma handleAnd_post s : wf s -> handler_post s (handleAnd s).
Proof.
  intros Hw. unfold handleAnd. cbv zeta.
  destruct (_ =? 1); apply handler_post_write_flags; auto;
    apply land_word, wf_reg_field, Hw.
Qed.

Lemma handleNot_post s : wf s -> handler_post s (handleNot s).
Proof.
  intros Hw. unfold handleNot, not16. cbv zeta.
  apply handler_post_write_flags; auto using wrap16_word.
Qed.

Lemma handleLoadEffectiveAddress_post s :
  wf s -> handler_post s (handleLoadEffectiveAddress s).
Proof.
  intros Hw. unfold handleLoadEffectiveAddress. cbv zeta.
  apply handler_post_write_flags; auto using wrap16_word.
Qed.

Lemma preserved_set_pc s v :
  wf s -> is_word v -> preserved s (set_reg registers.RPC v s).
Proof.
  intros Hw Hv. apply preserved_set_reg;
    [exact Hw|exact Hv|unfold registers.RPC; lia
    |unfold registers.RPC, registers.RCOND; lia].
Qed.

Lemma preserved_link s :
  wf s -> preserved s (set_reg registers.RR7 (reg registers.RPC s) s).
Proof.
  intros Hw. apply preserved_set_reg;
    [exact Hw| |unfold registers.RR7; lia
    |unfold registers.RR7, registers.RCOND; lia].
  apply wf_reg; [exact Hw|unfold registers.RPC; lia].
Qed.

Lemma handleBr_post s : wf s -> handler_post s (handleBr s).
Proof.
  intros Hw. unfold handleBr. cbv zeta.
  destruct (negb _); apply handler_post_ok; auto using preserved_refl.
  apply preserved_set_pc; auto using wrap16_word.
Qed.

Lemma handleJmp_post s : wf s -> handler_post s (handleJmp s).
Proof.
  intros Hw. unfold handleJmp. cbv zeta. apply handler_post_ok; auto.
  apply preserved_set_pc; auto. apply wf_reg_field, Hw.
Qed.

Lemma handleJumpSubroutine_post s :
  wf s -> handler_post s (handleJumpSubroutine s).
Proof.
  intros Hw. unfold handleJumpSubroutine. cbv zeta.
  pose proof (preserved_link s Hw) as Hl.
  destruct (_ =? 0); apply handler_post_ok; auto;
    (eapply preserved_trans; [exact Hl|]);
    apply preserved_set_pc; auto using wrap16_word;
    try apply (proj1 Hl).
  apply wf_reg_field, (proj1 Hl).
Qed.

Lemma handleLoad_post s : wf s -> handler_post s (handleLoad s).
Proof.
  intros Hw. unfold handleLoad. cbv zeta. apply handler_post_read; auto.
  intros v s1 Hw1 Hv _. apply handler_post_write_flags; auto.
Qed.

Lemma handleLoadR_post s : wf s -> handler_post s (handleLoadR s).
Proof.
  intros Hw. unfold handleLoadR. cbv zeta. apply handler_post_read; auto.
  intros v s1 Hw1 Hv _. apply handler_post_write_flags; auto.
Qed.

Lemma handleLoadIndirect_post s :
  wf s -> handler_post s (handleLoadIndirect s).
Proof.
  intros Hw. unfold handleLoadIndirect. cbv zeta.
  apply handler_post_read; auto.
  intros a s1 Hw1 _ _. apply handler_post_read; auto.
  intros v s2 Hw2 Hv _. apply handler_post_write_flags; auto.
Qed.

Lemma handleStore_post s : wf s -> handler_post s (handleStore s).
Proof.
  intros Hw. unfold handleStore, memoryWrite. cbv zeta.
  apply handler_post_ok; auto.
  apply preserved_set_mem; auto. apply wf_reg_field, Hw.
Qed.

Lemma handleStr_post s : wf s -> handler_post s (handleStr s).
Proof.
  intros Hw. unfold handleStr, memoryWrite. cbv zeta.
  apply handler_post_ok; auto.
  apply preserved_set_mem; auto. apply wf_reg_field, Hw.
Qed.

Lemma handleStoreIndirect_post s :
  wf s -> handler_post s (handleStoreIndirect s).
Proof.
  intros Hw. unfold handleStoreIndirect, memoryWrite. cbv zeta.
  apply handler_post_read; auto.
  intros a s1 Hw1 _ _. apply handler_post_ok; auto.
  apply preserved_set_mem; auto. apply wf_reg_field, Hw1.
Qed.

Lemma preserved_write_stdout bs s : wf s -> preserved s (write_stdout bs s).
Proof. apply preserved_with_env. reflexivity. Qed.

Lemma preserved_same_core s t :
  wf t -> core t = core s -> preserved s t.
Proof.
  intros Hw Hc. apply preserved_intro; auto;
    try (unfold ins; rewrite Hc; reflexivity).
  apply cond_ok_registers. rewrite Hc. reflexivity.
Qed.

Lemma handleGetC_post s : wf s -> handler_post s (handleGetC s).
Proof.
  intros Hw. unfold handleGetC, ReadByte.
  set (s1 := with_env _ s).
  assert (Hw1 : wf s1) by (apply wf_with_env; [reflexivity|exact Hw]).
  destruct (stdin (env s) (stdin_pos (env s))) as [byt|] eqn:Hk.
  - pose proof (handler_post_write_flags s1 0 byt Hw1
                  (byte_word _ (wf_stdin s Hw _ _ Hk))) as H.
    exact H.
  - split; [apply preserved_same_core; auto|]. auto.
Qed.

Lemma handleOut_post s : wf s -> handler_post s (handleOut s).
Proof.
  intros Hw. rewrite handleOut_eq. unfold Stdout_Write.
  pose proof (preserved_write_stdout [to_byte (reg registers.RR0 s)] s Hw)
    as Hp.
  destruct (stdout_err _ _); simpl.
  - split; [exact Hp|]. split; [reflexivity|auto].
  - split; [exact Hp|reflexivity].
Qed.

Lemma handleIn_post s : wf s -> handler_post s (handleIn s).
Proof.
  intros Hw. unfold handleIn, ReadByte.
  set (s1 := with_env _ (write_stdout prompt s)).
  assert (Hw1 : wf s1).
  { apply wf_with_env; [reflexivity|apply wf_write_stdout, Hw]. }
  change (stdin (env (write_stdout prompt s))) with (stdin (env s)).
  change (stdin_pos (env (write_stdout prompt s))) with (stdin_pos (env s)).
  destruct (stdin (env s) (stdin_pos (env s))) as [byt|] eqn:Hk.
  - pose proof (handler_post_write_flags s1 0 byt Hw1
                  (byte_word _ (wf_stdin s Hw _ _ Hk))) as [Hp Hr].
    change (Z.land 0 7) with registers.RR0 in *.
    unfold flush_stdin.
    destruct (stdin_writable _).
    + split; [|exact Hr].
      eapply preserved_trans; [exact Hp|].
      apply preserved_with_env; [reflexivity|apply Hp].
    + split; [exact Hp|]. split; [exact Hr|auto].
  - split; [apply preserved_same_core; auto|]. auto.
Qed.

Lemma handlePuts_loop_post fuel :
  forall addr s, wf s -> handler_post s (handlePuts_loop fuel addr s).
Proof.
  induction fuel as [|fuel IH]; intros addr s Hw; [exact I|].
  rewrite handlePuts_loop_S.
  pose proof (memoryRead_post addr s Hw) as H.
  destruct (memoryRead addr s) as [c s1|e s1|]; [|simpl; tauto|contradiction].
  destruct H as (Hp & Hr & _).
  destruct (c =? 0); [split; assumption|].
  assert (Hw2 : wf (printf_c c s1)) by (apply wf_write_stdout, Hp).
  pose proof (IH (wrap16 (addr + 1)) (printf_c c s1) Hw2) as H.
  assert (Hp2 : preserved s (printf_c c s1)).
  { eapply preserved_trans; [exact Hp|].
    apply preserved_write_stdout, Hp. }
  unfold handler_post in *.
  destruct (handlePuts_loop fuel _ _) as [[] s2|e s2|]; auto.
  - destruct H as [A B]. split; [eapply preserved_trans; eassumption|].
    rewrite B. exact Hr.
  - destruct H as (A & B & C).
    split; [eapply preserved_trans; eassumption|].
    split; [rewrite B; exact Hr|exact C].
Qed.

Lemma output_only_preserved s t : wf s -> output_only s t -> preserved s t.
Proof.
  intros Hw Ho. apply preserved_same_core; [|apply Ho].
  apply (output_only_wf s t Ho Hw).
Qed.

Lemma handlePutsP_loop_post fuel :
  forall addr buf s, wf s -> handler_post s (handlePutsP_loop fuel addr buf s).
Proof.
  intros addr buf s Hw.
  pose proof (handlePutsP_loop_inv
                (fun t => preserved s t /\ running t = running s) fuel)
    as H.
  unfold handler_post.
  destruct (handlePutsP_loop fuel addr buf s) as [[] s'|e s'|] eqn:E;
    [| |exact I].
  all: specialize (H
         ltac:(intros a t [Hp Hr];
               pose proof (memoryRead_post a t (proj1 Hp)) as Hm;
               destruct (memoryRead a t) as [v t'|e' t'|]; simpl;
               [|destruct Hm as (A & B & _)|exact I];
               [destruct Hm as (A & B & _)|];
               (split; [eapply preserved_trans; eassumption|congruence]))
         ltac:(intros t t' [Hp Hr] Ho; split;
               [eapply preserved_trans;
                  [exact Hp|apply output_only_preserved;
                              [apply Hp|exact Ho]]
               |rewrite <- Hr; apply Ho])
         addr buf s (conj (preserved_refl s Hw) eq_refl));
    rewrite E in H.
  - exact H.
  - tauto.
Qed.

Lemma handler_post_lift o s s1 r :
  preserved s s1 -> running s1 = running s ->
  (ins s1 = ins s -> handler_post s1 r) -> dispatch_post o s r.
Proof.
  intros Hp Hr H. specialize (H (proj1 (proj2 (proj2 Hp)))).
  destruct r as [[] s2|e s2|]; simpl in *; auto.
  - destruct H as [A B]. split; [eapply preserved_trans; eassumption|].
    left. congruence.
  - destruct H as (A & B & [C|C]).
    + split; [eapply preserved_trans; eassumption|].
      split; [congruence|auto].
    + split; [eapply preserved_trans; eassumption|].
      split; [congruence|auto].
Qed.

Lemma handleTrap_post fuel s :
  wf s -> dispatch_post opcodes.OPTRAP s (handleTrap fuel s).
Proof.
  intros Hw. unfold handleTrap. cbv zeta.
  pose proof (preserved_link s Hw) as Hl.
  set (s1 := set_reg registers.RR7 (reg registers.RPC s) s) in *.
  assert (Hw1 : wf s1) by apply Hl.
  change (ins s1) with (ins s).
  pose proof (field_range (ins s) 8 ltac:(lia)) as Hb.
  change (2 ^ 8 - 1) with 255 in Hb. change (2 ^ 8) with 256 in Hb.
  destruct (trapTable (Z.land (ins s) 255)) as [h|] eqn:Ht.
  - revert Ht. unfold trapTable.
    destruct (Z.land (ins s) 255) as [|p|p] eqn:Et; try discriminate.
    do 6 (destruct p as [p|p|]; try discriminate);
      intros Ht; injection Ht as <-; cbv beta;
      try (apply (handler_post_lift _ s s1); [exact Hl|reflexivity|intros _];
           first [ apply handleGetC_post | apply handleOut_post
                 | apply handleIn_post | apply handlePuts_loop_post
                 | apply handlePutsP_loop_post ]; exact Hw1).
    (* HALT *)
    simpl. split.
    + eapply preserved_trans; [exact Hl|].
      apply preserved_same_core; [apply wf_set_running, Hw1|reflexivity].
    + right. auto.
  - simpl. split; [exact Hl|]. split; [reflexivity|].
    right. right. right. left. split; [reflexivity|]. split; [reflexivity|].
    intros Hrange. revert Ht. unfold trapTable.
    destruct (Z.land (ins s) 255) as [|p|p]; try lia.
    do 6 (destruct p as [p|p|]; try lia); discriminate.
Qed.

Lemma dispatch_dispatch_post o fuel s :
  wf s -> dispatch_post o s (dispatch o fuel s).
Proof.
  intros Hw. unfold dispatch.
  destruct (opTable o) as [h|] eqn:Ho.
  - revert Ho. unfold opTable.
    destruct o as [|p|p]; try discriminate;
      repeat match goal with
             | p : positive |- _ => destruct p as [p|p|]; try discriminate
             end;
      intros Ho; injection Ho as <-; cbv beta.
    all: try solve [apply handleTrap_post; exact Hw].
    all: try solve
      [ apply (handler_post_lift _ s s);
        [apply preserved_refl, Hw|reflexivity|intros _];
        first [ apply handleBr_post | apply handleAdd_post
              | apply handleLoad_post | apply handleStore_post
              | apply handleJumpSubroutine_post | apply handleAnd_post
              | apply handleLoadR_post | apply handleStr_post
              | apply handleNot_post | apply handleLoadIndirect_post
              | apply handleStoreIndirect_post | apply handleJmp_post
              | apply handleLoadEffectiveAddress_post ]; exact Hw ].
    all: simpl; (split; [apply preserved_refl, Hw|]);
      (split; [reflexivity|]); right; right; left; auto.
  - simpl. split; [apply preserved_refl, Hw|]. split; [reflexivity|].
    do 4 right. split; [reflexivity|].
    intros Hrange. revert Ho. unfold opTable.
    destruct o as [|p|p]; try lia; try discriminate.
    do 4 (destruct p as [p|p|]; try lia; try discriminate).
Qed.

(** What a step leaves: a well-formed machine with an opcode below 16, the
    loop flag and the COND tag as they were; its only error is a failed
    input read. *)
Lemma Step_post s :
  wf s ->
  match Step s with
  | Ok _ s' =>
      wf s' /\ 0 <= op (core s') < 16 /\ running s' = running s /\
      (cond_ok s -> cond_ok s')
  | Fail e s' =>
      wf s' /\ e = ReadError /\ running s' = running s /\
      registers (core s') = registers (core s)
  | Timeout => False
  end.
Proof.
  intros Hw. unfold Step.
  pose proof (memoryRead_post (reg registers.RPC s) s Hw) as H.
  destruct (memoryRead (reg registers.RPC s) s) as [i s1|e s1|] eqn:Hr;
    [|destruct (memoryRead_fail_regs _ _ _ _ Hr) as (_ & Hc & _);
      destruct H as ((Hw1 & _) & Hrun & He);
      rewrite Hc; auto|contradiction].
  destruct H as ((Hw1 & _ & _ & Hc) & Hrun & Hi).
  assert (Hp : preserved s1 (incrProgramCounter s1))
    by (apply preserved_set_pc; auto using wrap16_word).
  destruct Hp as (Hw2 & _ & _ & Hc2).
  split; [apply wf_set_decoded; assumption|].
  split; [|split; [exact Hrun|auto]].
  simpl. unfold is_word in Hi. rewrite Z.shiftr_div_pow2 by lia.
  split; [apply Z.div_pos; lia|apply Z.div_lt_upper_bound; lia].
Qed.

(** ** The run as a whole *)

Lemma wf_start image s :
  wf s -> word_image image -> wf (set_running true (set_memory image s)).
Proof.
  intros [Hl Hr Hm Hi Hs] Him. constructor; auto.
Qed.

Lemma wf_fresh w : byte_input w -> wf (fresh w).
Proof.
  intros Hin. constructor; simpl; auto.
  - repeat constructor; unfold is_word; cbv; congruence.
  - intros a. unfold is_word, mem. simpl. lia.
  - unfold is_word. cbv. split; congruence.
Qed.

Lemma cond_ok_fresh w : cond_ok (fresh w).
Proof. right. left. reflexivity. Qed.

Lemma Loop_from_errors fuel :
  forall s e s', wf s -> Loop_from dispatch fuel s = Fail e s' -> run_error e.
Proof.
  induction fuel as [|fuel IH]; intros s e s' Hw; simpl; [discriminate|].
  destruct (running s); [|discriminate].
  pose proof (Step_post s Hw) as HS.
  destruct (Step s) as [[] s1|e1 s1|]; [|intros H; injection H as <- _;
    destruct HS as (_ & -> & _); left; reflexivity|contradiction].
  destruct HS as (Hw1 & Hop & _).
  pose proof (dispatch_dispatch_post (op (core s1)) fuel s1 Hw1) as HD.
  destruct (dispatch (op (core s1)) fuel s1) as [[] s2|e2 s2|];
    [apply IH, HD| |discriminate].
  intros H. injection H as <- _.
  destruct HD as (_ & _ & [->|[->|[[-> Ho]|[(_ & -> & Ht)|[_ Ho]]]]]).
  - left. reflexivity.
  - right. left. reflexivity.
  - destruct Ho as [->| ->]; unfold run_error; auto.
  - do 4 right. exists (Z.land (ins s1) 0xFF). split; [reflexivity|].
    split; [|exact Ht]. apply (field_range (ins s1) 8). lia.
  - contradiction.
Qed.

(** X4: a run of a well-formed machine on an image of 16-bit words ends in
    error only with the error of a failed input read, the error of a
    failed write (the echo of IN to the input file, the write of OUT or
    PUTSP to the output), the unhandled opcode 8 or 13, or a trap vector
    outside 0x20..0x25; the "unrecognized operation" error of [Run] is
    never returned. *)
Theorem run_error_taxonomy (image : Z -> Z) (fuel : nat) (s : machine)
    (e : error) (s' : machine) :
  wf s -> word_image image ->
  Run image fuel s = Fail e s' ->
  run_error e /\ forall o, e <> UnrecognizedOperation o.
Proof.
  intros Hw Him H. unfold Run, Loop in H.
  apply Loop_from_errors in H; [|apply wf_start; assumption].
  split; [exact H|]. intros o ->.
  destruct H as [H|[H|[H|[H|(t & H & _)]]]]; discriminate.
Qed.

Lemma run_error_taxonomy_witness :
  let image := fun a => if a =? 0x3000 then 0xF099 else 0 in
  let s := fresh (mkWorld (fun _ => None) 0%nat []
                          (fun _ => false) 0%nat true []) in
  wf s /\ word_image image /\
  exists s', Run image 1 s = Fail (UnrecognizedTrap 0x99) s' /\
             run_error (UnrecognizedTrap 0x99).
Proof.
  intros image s.
  assert (Hw : wf s) by (apply wf_fresh; intros k b H; discriminate).
  assert (Him : word_image image).
  { intros a. unfold image, is_word. destruct (a =? 0x3000); lia. }
  split; [exact Hw|]. split; [exact Him|].
  eexists. split; [reflexivity|].
  eapply (run_error_taxonomy image 1 s). 1-2: assumption. reflexivity.
Defined.

Lemma handleTrap_halt fuel s :
  Z.land (ins s) 0xFF = traps.HALT ->
  handleTrap fuel s =
  Ok tt (set_running false (set_reg registers.RR7 (reg registers.RPC s) s)).
Proof.
  intros Ht. unfold handleTrap. cbv zeta.
  change (ins (set_reg registers.RR7 (reg registers.RPC s) s)) with (ins s).
  rewrite Ht. reflexivity.
Qed.

Lemma Loop_from_halts fuel :
  forall s s', wf s -> running s = true ->
    Loop_from dispatch fuel s = Ok tt s' ->
    exists s1,
      reaches s s1 /\ running s1 = true /\
      exists s2, Step s1 = Ok tt s2 /\
        op (core s2) = opcodes.OPTRAP /\
        Z.land (ins s2) 0xFF = traps.HALT /\
        s' = set_running false
               (set_reg registers.RR7 (reg registers.RPC s2) s2).
Proof.
  induction fuel as [|fuel IH]; intros s s' Hw Hrun; simpl; [discriminate|].
  rewrite Hrun.
  pose proof (Step_post s Hw) as HS.
  destruct (Step s) as [[] s1|e1 s1|] eqn:Hs; [|discriminate|contradiction].
  destruct HS as (Hw1 & Hop & Hr1 & _).
  pose proof (dispatch_dispatch_post (op (core s1)) fuel s1 Hw1) as HD.
  destruct (dispatch (op (core s1)) fuel s1) as [[] s2|e2 s2|] eqn:Hd;
    try discriminate.
  destruct HD as ((Hw2 & _) & [Hr2|(Ho & Ht & Hr2)]).
  - intros HL.
    destruct (IH s2 s' Hw2) as (t1 & Hreach & Ht1 & H); auto; [congruence|].
    exists t1. split; [|auto].
    eapply reaches_step; eassumption.
  - intros HL. exists s. split; [apply reaches_here|]. split; [exact Hrun|].
    exists s1. split; [exact Hs|]. split; [exact Ho|]. split; [exact Ht|].
    assert (E : s2 = set_running false
                  (set_reg registers.RR7 (reg registers.RPC s1) s1)).
    { rewrite Ho in Hd. unfold dispatch in Hd. simpl in Hd.
      rewrite (handleTrap_halt fuel s1 Ht) in Hd. congruence. }
    destruct fuel; simpl in HL; [discriminate|].
    rewrite Hr2 in HL. congruence.
Qed.

(** X5: a run returns without error only right after executing TRAP x25:
    the loop reached a machine whose next fetched word has opcode 15 and
    low byte 0x25, and the machine the run leaves is that one with R7 set
    to its PC and the loop flag cleared. *)
Theorem run_returns_only_after_halt (image : Z -> Z) (fuel : nat)
    (s s' : machine) :
  wf s -> word_image image ->
  Run image fuel s = Ok tt s' ->
  running s' = false /\
  exists s1 s2,
    reaches (set_running true (set_memory image s)) s1 /\
    Step s1 = Ok tt s2 /\
    op (core s2) = opcodes.OPTRAP /\
    Z.land (ins s2) 0xFF = traps.HALT /\
    s' = set_running false
           (set_reg registers.RR7 (reg registers.RPC s2) s2).
Proof.
  intros Hw Him H. unfold Run, Loop in H.
  apply Loop_from_halts in H; [|apply wf_start; assumption|reflexivity].
  destruct H as (s1 & Hreach & _ & s2 & Hs & Ho & Ht & ->).
  split; [reflexivity|]. exists s1, s2. auto.
Qed.

Lemma run_returns_only_after_halt_witness :
  let image := fun a => if a =? 0x3000 then 0xF025 else 0 in
  let s := fresh (mkWorld (fun _ => None) 0%nat []
                          (fun _ => false) 0%nat true []) in
  wf s /\ word_image image /\
  exists s', Run image 2 s = Ok tt s' /\ running s' = false /\
             reg registers.RR7 s' = 0x3001.
Proof.
  intros image s.
  assert (Hw : wf s) by (apply wf_fresh; intros k b H; discriminate).
  assert (Him : word_image image).
  { intros a. unfold image, is_word. destruct (a =? 0x3000); lia. }
  split; [exact Hw|]. split; [exact Him|].
  eexists. split; [reflexivity|].
  split; [|reflexivity].
  eapply (run_returns_only_after_halt image 2 s). 1-2: assumption.
  reflexivity.
Defined.

(** X6: every machine the loop passes through, started on a well-formed
    machine whose COND is a tag, is well formed and has a tag in COND; after
    the first step its opcode is below 16.  A fresh CPU is such a start. *)
Theorem loop_invariant (s s' : machine) :
  wf s -> cond_ok s -> reaches s s' ->
  wf s' /\ cond_ok s' /\ (s' = s \/ 0 <= op (core s') < 16).
Proof.
  intros Hw Hc Hreach. revert Hw Hc.
  induction Hreach as [s|s s1 s2 s' fuel Hrun Hs Hd _ IH]; intros Hw Hc.
  - auto.
  - pose proof (Step_post s Hw) as HS. rewrite Hs in HS.
    destruct HS as (Hw1 & Hop & _ & Hc1).
    pose proof (dispatch_dispatch_post (op (core s1)) fuel s1 Hw1) as HD.
    rewrite Hd in HD. destruct HD as ((Hw2 & Ho2 & _ & Hc2) & _).
    destruct (IH Hw2 (Hc2 (Hc1 Hc))) as (A & B & [->|C]).
    + split; [exact A|]. split; [exact B|]. right. rewrite Ho2. exact Hop.
    + auto.
Qed.

Lemma loop_invariant_witness :
  let w := mkWorld (fun _ => None) 0%nat [] (fun _ => false) 0%nat true [] in
  let s := set_running true (set_memory (fun _ => 0x1021) (fresh w)) in
  wf s /\ cond_ok s /\
  exists s', reaches s s' /\ reg registers.RR0 s' = 1 /\ cond_ok s'.
Proof.
  intros w s.
  assert (Hw : wf s).
  { apply wf_start; [apply wf_fresh; intros k b H; discriminate|].
    intros a. unfold is_word. lia. }
  assert (Hc : cond_ok s) by (right; left; reflexivity).
  split; [exact Hw|]. split; [exact Hc|].
  assert (Hr : reaches s
            (updateFlags 0 (set_reg 0 1
               (set_decoded 1 0x1021 (incrProgramCounter s))))).
  { eapply (reaches_step s _ _ _ 0%nat); [reflexivity|reflexivity| |].
    - reflexivity.
    - apply reaches_here. }
  eexists. split; [exact Hr|]. split; [reflexivity|].
  apply (loop_invariant s _ Hw Hc Hr).
Defined.

(** ** Branches and PC-relative addresses *)

Lemma land_pow2 x k :
  0 <= k -> Z.land x (2 ^ k) = if Z.testbit x k then 2 ^ k else 0.
Proof.
  intros Hk. apply Z.bits_inj'. intros i Hi.
  rewrite Z.land_spec, Z.pow2_bits_eqb by lia.
  destruct (Z.eqb_spec k i) as [->|Hne].
  - destruct (Z.testbit x i); [|rewrite Z.bits_0; reflexivity].
    rewrite Z.pow2_bits_true by lia. reflexivity.
  - rewrite andb_false_r.
    destruct (Z.testbit x k); [|rewrite Z.bits_0; reflexivity].
    rewrite Z.pow2_bits_false by lia. reflexivity.
Qed.

Lemma cond_mask_bit x k :
  0 <= k < 3 ->
  Z.testbit (Z.land (Z.shiftr x 9) 7) k = Z.testbit x (k + 9).
Proof.
  intros Hk. rewrite Z.land_spec, Z.shiftr_spec by lia.
  change 7 with (Z.ones 3). rewrite Z.ones_spec_low by lia.
  apply andb_true_r.
Qed.

Lemma pc_relative pc f n :
  1 <= n <= 16 -> 0 <= f < 2 ^ n ->
  wrap16 (pc + signExtend f n) = (pc + signed_field n f) mod 65536.
Proof.
  intros Hn Hf. destruct (signExtend_field f n Hn Hf) as [-> _].
  unfold sign_extension, signed_field, wrap16.
  rewrite Z.add_mod_idemp_r by lia. reflexivity.
Qed.

Lemma signed_field_range n f :
  1 <= n -> 0 <= f < 2 ^ n ->
  - 2 ^ (n - 1) <= signed_field n f < 2 ^ (n - 1).
Proof.
  intros Hn Hf. unfold signed_field.
  assert (H2 : 2 ^ n = 2 * 2 ^ (n - 1)).
  { rewrite <- Z.pow_succ_r by lia. f_equal. lia. }
  assert (Hp : 0 < 2 ^ (n - 1)) by (apply Z.pow_pos_nonneg; lia).
  destruct (Z.testbit f (n - 1)) eqn:Hb.
  - apply Z.testbit_true in Hb; [|lia].
    assert (f / 2 ^ (n - 1) < 2)
      by (apply Z.div_lt_upper_bound; lia).
    assert (0 <= f / 2 ^ (n - 1)) by (apply Z.div_pos; lia).
    assert (Hq : f / 2 ^ (n - 1) = 1).
    { rewrite Z.mod_small in Hb by lia. exact Hb. }
    pose proof (Z.div_mod f (2 ^ (n - 1)) ltac:(lia)) as Hdm.
    pose proof (Z.mod_pos_bound f (2 ^ (n - 1)) Hp). rewrite Hq in Hdm. lia.
  - apply Z.testbit_false in Hb; [|lia].
    assert (f / 2 ^ (n - 1) < 2)
      by (apply Z.div_lt_upper_bound; lia).
    assert (0 <= f / 2 ^ (n - 1)) by (apply Z.div_pos; lia).
    assert (Hq : f / 2 ^ (n - 1) = 0).
    { rewrite Z.mod_small in Hb by lia. exact Hb. }
    pose proof (Z.div_mod f (2 ^ (n - 1)) ltac:(lia)) as Hdm.
    pose proof (Z.mod_pos_bound f (2 ^ (n - 1)) Hp). rewrite Hq in Hdm. lia.
Qed.

(** X7: with COND a tag, BR is taken exactly when the instruction's n bit
    (11) is set and COND is NEGATIVE, or its z bit (10) and COND is ZERO, or
    its p bit (9) and COND is POSITIVE; taken, it adds the signed 9-bit
    offset (-256..255) to PC modulo 2^16, otherwise PC stays; nothing else
    changes. *)
Theorem branch_on_cond (s : machine) :
  wf s -> cond_ok s ->
  let cond := reg registers.RCOND s in
  let off := signed_field 9 (Z.land (ins s) 0x1FF) in
  let taken :=
    (Z.testbit (ins s) 11 && (cond =? cflags.FLNEG)) ||
    (Z.testbit (ins s) 10 && (cond =? cflags.FLZRO)) ||
    (Z.testbit (ins s) 9 && (cond =? cflags.FLPOS)) in
  -256 <= off <= 255 /\
  exists s',
    handleBr s = Ok tt s' /\
    reg registers.RPC s' =
      (if taken then (reg registers.RPC s + off) mod 65536
       else reg registers.RPC s) /\
    (forall r, 0 <= r -> r <> registers.RPC -> reg r s' = reg r s) /\
    memory (core s') = memory (core s) /\ env s' = env s.
Proof.
  intros Hw Hc cond off taken.
  pose proof (field_range (ins s) 9 ltac:(lia)) as Hf.
  change (2 ^ 9 - 1) with 511 in Hf.
  split.
  { pose proof (signed_field_range 9 _ ltac:(lia) Hf) as H.
    change (2 ^ (9 - 1)) with 256 in H. fold off in H. lia. }
  assert (Ht : negb (Z.land (Z.land (Z.shiftr (ins s) 9) 7) cond =? 0)
               = taken).
  { subst taken. fold cond in Hc. unfold cond_ok in Hc.
    pose proof (cond_mask_bit (ins s) 0 ltac:(lia)) as B0.
    pose proof (cond_mask_bit (ins s) 1 ltac:(lia)) as B1.
    pose proof (cond_mask_bit (ins s) 2 ltac:(lia)) as B2.
    change (0 + 9) with 9 in B0. change (1 + 9) with 10 in B1.
    change (2 + 9) with 11 in B2.
    fold cond in Hc. destruct Hc as [E|[E|E]]; rewrite E.
    - change cflags.FLPOS with (2 ^ 0). rewrite land_pow2, B0 by lia.
      destruct (Z.testbit (ins s) 9), (Z.testbit (ins s) 10),
        (Z.testbit (ins s) 11); reflexivity.
    - change cflags.FLZRO with (2 ^ 1). rewrite land_pow2, B1 by lia.
      destruct (Z.testbit (ins s) 9), (Z.testbit (ins s) 10),
        (Z.testbit (ins s) 11); reflexivity.
    - change cflags.FLNEG with (2 ^ 2). rewrite land_pow2, B2 by lia.
      destruct (Z.testbit (ins s) 9), (Z.testbit (ins s) 10),
        (Z.testbit (ins s) 11); reflexivity. }
  unfold handleBr. cbv zeta. fold cond. rewrite Ht.
  destruct taken.
  - eexists. split; [reflexivity|]. split.
    + rewrite (reg_set_reg_eq s)
        by (rewrite (wf_len s Hw); unfold registers.RPC, registers.RCOUNT;
            lia).
      apply pc_relative; [lia|exact Hf].
    + split; [|auto]. intros r Hr Hne.
      apply (reg_set_reg_ne s); auto. unfold registers.RPC. lia.
  - exists s. auto.
Qed.

Lemma branch_on_cond_witness :
  let s := boot (fun _ => 0) (fun _ => None) 0x05FF in
  wf s /\ cond_ok s /\
  exists s', handleBr s = Ok tt s' /\ reg registers.RPC s' = 0x2FFF.
Proof.
  intros s.
  assert (Hw : wf s).
  { apply wf_boot; try discriminate; intros; unfold is_word; lia. }
  assert (Hc : cond_ok s) by (right; left; reflexivity).
  split; [exact Hw|]. split; [exact Hc|].
  destruct (branch_on_cond s Hw Hc) as (_ & s' & Hs & Hpc & _).
  exists s'. split; [exact Hs|]. rewrite Hpc. reflexivity.
Defined.

(** X8: LEA writes PC plus the signed 9-bit offset, modulo 2^16, into the
    destination register and sets COND to its tag; it reads no memory, so it
    takes no input even when the address is the keyboard status. *)
Theorem lea_address (s : machine) :
  wf s ->
  let off := signed_field 9 (Z.land (ins s) 0x1FF) in
  exists s',
    handleLoadEffectiveAddress s = Ok tt s' /\
    reg (field_dr s) s' = (reg registers.RPC s + off) mod 65536 /\
    reg registers.RCOND s' = flag_of (reg (field_dr s) s') /\
    memory (core s') = memory (core s) /\ env s' = env s.
Proof.
  intros Hw off. unfold handleLoadEffectiveAddress. cbv zeta.
  fold (field_dr s). eexists. split; [reflexivity|].
  destruct (write_then_flags s (field_dr s)
              (wrap16 (reg registers.RPC s
                       + signExtend (Z.land (ins s) 511) 9))
              Hw (land7_range _) (wrap16_word _)) as (_ & Hr & Hc).
  rewrite Hr, Hc. split.
  - apply pc_relative; [lia|]. apply (field_range (ins s) 9). lia.
  - split; [reflexivity|].
    destruct (updateFlags_eq (field_dr s)
                (set_reg (field_dr s)
                   (wrap16 (reg registers.RPC s
                            + signExtend (Z.land (ins s) 511) 9)) s))
      as (f & _ & ->).
    split; reflexivity.
Qed.

Lemma lea_address_witness :
  let s := boot (fun _ => 0) (fun _ => None) 0xE1FF in
  wf s /\
  exists s', handleLoadEffectiveAddress s = Ok tt s' /\
             reg registers.RR0 s' = 0x2FFF.
Proof.
  intros s.
  assert (Hw : wf s).
  { apply wf_boot; try discriminate; intros; unfold is_word; lia. }
  split; [exact Hw|].
  destruct (lea_address s Hw) as (s' & Hs & Hr & _).
  exists s'. split; [exact Hs|].
  change registers.RR0 with (field_dr s). rewrite Hr. reflexivity.
Defined.

(** X9: a subroutine call in the offset form followed by [JMP R7] (RET)
    comes back: after JSR the PC is the old PC plus the signed 11-bit
    offset, and after the JMP through R7 it is the old PC again. *)
Theorem jsr_ret_round_trip (s : machine) (ret : Z) :
  wf s -> is_word ret ->
  Z.land (Z.shiftr (ins s) 11) 0x1 = 1 ->
  Z.land (Z.shiftr ret 6) 0x7 = registers.RR7 ->
  exists s1 s2,
    handleJumpSubroutine s = Ok tt s1 /\
    reg registers.RPC s1 =
      (reg registers.RPC s + signed_field 11 (Z.land (ins s) 0x7FF))
      mod 65536 /\
    handleJmp (set_decoded (Z.shiftr ret 12) ret s1) = Ok tt s2 /\
    reg registers.RPC s2 = reg registers.RPC s.
Proof.
  intros Hw Hret Hb Hr7.
  assert (Hl : length (registers (core s)) = 10%nat) by apply (wf_len s Hw).
  set (t := set_reg registers.RR7 (reg registers.RPC s) s).
  assert (Hlt : length (registers (core t)) = 10%nat)
    by (unfold t; rewrite length_set_reg; exact Hl).
  assert (H7 : reg registers.RR7 t = reg registers.RPC s)
    by (apply reg_set_reg_eq; rewrite Hl; unfold registers.RR7; lia).
  assert (Hpc : reg registers.RPC t = reg registers.RPC s)
    by (apply reg_set_reg_ne; unfold registers.RPC, registers.RR7; lia).
  unfold handleJumpSubroutine. cbv zeta. fold t.
  change (ins t) with (ins s). rewrite Hb. simpl (1 =? 0).
  cbv iota.
  eexists. eexists. split; [reflexivity|]. split.
  - rewrite reg_set_reg_eq by (rewrite Hlt; unfold registers.RPC; lia).
    rewrite Hpc. apply pc_relative; [lia|].
    apply (field_range (ins s) 11). lia.
  - unfold handleJmp. cbv zeta. split; [reflexivity|].
    match goal with
    | |- reg _ (set_reg _ ?v ?u) = _ =>
        assert (Hlu : length (registers (core u)) = 10%nat)
          by (simpl; rewrite length_insert; exact Hlt);
        rewrite (reg_set_reg_eq u)
          by (rewrite Hlu; unfold registers.RPC; lia)
    end.
    change (ins (set_decoded (Z.shiftr ret 12) ret
                   (set_reg registers.RPC
                      (wrap16 (reg registers.RPC t
                               + signExtend (Z.land (ins s) 2047) 11)) t)))
      with ret.
    rewrite Hr7.
    change (reg registers.RR7
              (set_decoded (Z.shiftr ret 12) ret
                 (set_reg registers.RPC
                    (wrap16 (reg registers.RPC t
                             + signExtend (Z.land (ins s) 2047) 11)) t)))
      with (reg registers.RR7
              (set_reg registers.RPC
                 (wrap16 (reg registers.RPC t
                          + signExtend (Z.land (ins s) 2047) 11)) t)).
    rewrite reg_set_reg_ne by (unfold registers.RPC, registers.RR7; lia).
    exact H7.
Qed.

Lemma jsr_ret_round_trip_witness :
  let s := boot (fun _ => 0) (fun _ => None) 0x4FFE in
  exists s1 s2,
    handleJumpSubroutine s = Ok tt s1 /\
    reg registers.RPC s1 = 0x2FFE /\
    handleJmp (set_decoded 12 0xC1C0 s1) = Ok tt s2 /\
    reg registers.RPC s2 = 0x3000.
Proof.
  intros s.
  assert (Hw : wf s).
  { apply wf_boot; try discriminate; intros; unfold is_word; lia. }
  assert (Hret : is_word 0xC1C0) by (unfold is_word; lia).
  destruct (jsr_ret_round_trip s 0xC1C0 Hw Hret eq_refl eq_refl)
    as (s1 & s2 & A & B & C & D).
  exists s1, s2. split; [exact A|]. split; [rewrite B; reflexivity|].
  split; [exact C|]. rewrite D. reflexivity.
Defined.

(** X10: LDI loads through a pointer: with p the word at PC plus the signed
    offset, the destination register receives the word at address p, COND
    its tag, and nothing else changes, provided neither address is the
    keyboard status. *)
Theorem load_indirect (s : machine) :
  wf s ->
  let a := (reg registers.RPC s
            + signed_field 9 (Z.land (ins s) 0x1FF)) mod 65536 in
  a <> registers.MRKBSR ->
  mem a s <> registers.MRKBSR ->
  exists s',
    handleLoadIndirect s = Ok tt s' /\
    reg (field_dr s) s' = mem (mem a s) s /\
    reg registers.RCOND s' = flag_of (mem (mem a s) s) /\
    memory (core s') = memory (core s) /\ env s' = env s.
Proof.
  intros Hw a Ha Hp.
  assert (Ea : wrap16 (reg registers.RPC s
                       + signExtend (Z.land (ins s) 511) 9) = a).
  { apply pc_relative; [lia|]. apply (field_range (ins s) 9). lia. }
  unfold handleLoadIndirect, bind. cbv zeta. rewrite Ea.
  rewrite memoryRead_plain by exact Ha.
  rewrite memoryRead_plain by exact Hp.
  fold (field_dr s). eexists. split; [reflexivity|].
  destruct (write_then_flags s (field_dr s) (mem (mem a s) s) Hw
              (land7_range _) (wf_mem s Hw _)) as (_ & Hr & Hc).
  split; [exact Hr|]. split; [exact Hc|].
  destruct (updateFlags_eq (field_dr s)
              (set_reg (field_dr s) (mem (mem a s) s) s)) as (f & _ & ->).
  split; reflexivity.
Qed.

Lemma load_indirect_witness :
  let image := fun a => if a =? 0x3002 then 0x4000
                        else if a =? 0x4000 then 0x00AB else 0 in
  let s := boot image (fun _ => None) 0xA602 in
  wf s /\
  exists s', handleLoadIndirect s = Ok tt s' /\ reg 3 s' = 0x00AB.
Proof.
  intros image s.
  assert (Hw : wf s).
  { apply wf_boot; try discriminate; intros; unfold is_word; try lia.
    unfold image. destruct (a =? 0x3002); [lia|].
    destruct (a =? 0x4000); lia. }
  split; [exact Hw|].
  destruct (load_indirect s Hw) as (s' & Hs & Hr & _).
  - vm_compute. discriminate.
  - vm_compute. discriminate.
  - exists s'. split; [exact Hs|].
    change 3 with (field_dr s). rewrite Hr. reflexivity.
Defined.

Lemma not16_value x : is_word x -> not16 x = 65535 - x.
Proof.
  unfold is_word, not16, wrap16. intros Hx.
  rewrite Z.lnot_eq_pred_opp.
  replace (- x - 1) with (65535 - x + (-1) * 65536) by lia.
  rewrite Z.mod_add by lia. apply Z.mod_small. lia.
Qed.

(** X11: NOT always returns, having written 0xFFFF minus the source word
    to the destination register, with COND the tag of that result; when
    source and destination are the same register, a second NOT gives the
    original word back, with COND its tag. *)
Theorem not_twice (s : machine) :
  wf s ->
  exists s1,
    handleNot s = Ok tt s1 /\
    reg (field_dr s) s1 = 65535 - reg (field_sr1 s) s /\
    reg registers.RCOND s1 = flag_of (65535 - reg (field_sr1 s) s) /\
    (field_dr s = field_sr1 s ->
     exists s2,
       handleNot s1 = Ok tt s2 /\
       reg (field_dr s) s2 = reg (field_dr s) s /\
       reg registers.RCOND s2 = flag_of (reg (field_dr s) s)).
Proof.
  intros Hw.
  set (r := field_dr s) in *. set (q := field_sr1 s) in *.
  assert (Hr : 0 <= r < 8) by apply land7_range.
  assert (Hq : 0 <= q < 8) by apply land7_range.
  assert (Hv : is_word (reg q s))
    by (apply wf_reg; [exact Hw|lia]).
  unfold handleNot. cbv zeta. fold (field_dr s) (field_sr1 s). fold r q.
  destruct (write_then_flags s r (not16 (reg q s)) Hw Hr (wrap16_word _))
    as (Hw1 & Hr1 & Hc1).
  set (s1 := updateFlags r (set_reg r (not16 (reg q s)) s)) in *.
  rewrite (not16_value _ Hv) in Hr1, Hc1.
  exists s1. split; [reflexivity|].
  split; [exact Hr1|]. split; [exact Hc1|].
  intros Hsame.
  assert (Hi : ins s1 = ins s).
  { unfold s1. destruct (updateFlags_eq r (set_reg r (not16 (reg q s)) s))
      as (f & _ & ->). reflexivity. }
  rewrite Hi. fold (field_dr s) (field_sr1 s). fold r q.
  rewrite <- Hsame in *.
  eexists. split; [reflexivity|].
  rewrite Hr1.
  assert (Hback : not16 (65535 - reg r s) = reg r s).
  { rewrite not16_value by (unfold is_word in *; lia). lia. }
  rewrite Hback.
  destruct (write_then_flags s1 r (reg r s) Hw1 Hr Hv) as (_ & A & B).
  split; assumption.
Qed.

Lemma not_twice_witness :
  let s := set_reg 2 0x00F0 (boot (fun _ => 0) (fun _ => None) 0x94BF) in
  let t := set_reg 2 0x00F0 (boot (fun _ => 0) (fun _ => None) 0x96BF) in
  wf s /\ wf t /\ field_dr s = field_sr1 s /\
  (exists s1 s2,
     handleNot s = Ok tt s1 /\ reg 2 s1 = 0xFF0F /\
     handleNot s1 = Ok tt s2 /\ reg 2 s2 = 0x00F0) /\
  (exists t1,
     handleNot t = Ok tt t1 /\ reg 3 t1 = 0xFF0F /\ reg 2 t1 = 0x00F0 /\
     reg registers.RCOND t1 = cflags.FLNEG).
Proof.
  intros s t.
  assert (Hw : wf s).
  { apply wf_set_reg; [apply wf_boot|]; try discriminate;
      intros; unfold is_word; lia. }
  assert (Hwt : wf t).
  { apply wf_set_reg; [apply wf_boot|]; try discriminate;
      intros; unfold is_word; lia. }
  split; [exact Hw|]. split; [exact Hwt|]. split; [reflexivity|]. split.
  - destruct (not_twice s Hw) as (s1 & A & B & _ & H).
    destruct (H eq_refl) as (s2 & C & D & _).
    exists s1, s2. split; [exact A|]. split; [|split; [exact C|]].
    + change 2 with (field_dr s). rewrite B. reflexivity.
    + change 2 with (field_dr s). rewrite D. reflexivity.
  - destruct (not_twice t Hwt) as (t1 & A & B & C & _).
    exists t1. split; [exact A|]. split; [|split].
    + change 3 with (field_dr t). rewrite B. reflexivity.
    + vm_compute in A. injection A as <-. reflexivity.
    + rewrite C. reflexivity.
Defined.

(** ** The keyboard *)

(** X12: polling the keyboard with LDR.  When the effective address is the
    keyboard status and the input gives a nonzero byte, the destination
    register receives 0x8000, COND is NEGATIVE, and the byte can then be
    read at the keyboard data address without taking more input; when the
    input gives the byte 0, the register receives 0 and COND is ZERO.
    Either way one input byte is consumed. *)
Theorem poll_keyboard (s : machine) (key : Z) :
  wf s ->
  wrap16 (reg (field_sr1 s) s + signExtend (Z.land (ins s) 0x3F) 6)
    = registers.MRKBSR ->
  stdin (env s) (stdin_pos (env s)) = Some key ->
  exists s',
    handleLoadR s = Ok tt s' /\
    stdin_pos (env s') = S (stdin_pos (env s)) /\
    (key <> 0 ->
     reg (field_dr s) s' = 0x8000 /\
     reg registers.RCOND s' = cflags.FLNEG /\
     memoryRead registers.MRKBDR s' = Ok key s') /\
    (key = 0 ->
     reg (field_dr s) s' = 0 /\
     reg registers.RCOND s' = cflags.FLZRO).
Proof.
  intros Hw Ha Hk.
  unfold handleLoadR, bind. cbv zeta. fold (field_sr1 s) (field_dr s).
  rewrite Ha.
  destruct (memoryRead registers.MRKBSR s) as [v s1|e s1|] eqn:Hr.
  2,3: unfold memoryRead, ReadByte in Hr; rewrite Z.eqb_refl, Hk in Hr;
       discriminate.
  destruct (memoryRead_wf _ _ _ _ Hw Hr) as [Hw1 Hv].
  destruct (write_then_flags s1 (field_dr s) v Hw1 (land7_range _) Hv)
    as (_ & Hd & Hc).
  destruct (updateFlags_eq (field_dr s) (set_reg (field_dr s) v s1))
    as (f & _ & Eu).
  eexists. split; [reflexivity|].
  unfold memoryRead, ReadByte in Hr. rewrite Z.eqb_refl, Hk in Hr.
  rewrite Hd, Hc, Eu.
  destruct (Z.eqb_spec key 0) as [->|Hnz]; simpl in Hr;
    injection Hr as <- <-.
  - split; [reflexivity|]. split; [intros H; contradiction|].
    intros _. split; reflexivity.
  - split; [reflexivity|]. split; [|intros H; contradiction].
    intros _. split; [reflexivity|]. split; reflexivity.
Qed.

Lemma poll_keyboard_witness :
  let s := set_reg 1 0xFE00
             (boot (fun _ => 0) (fun _ => Some 0x61) 0x6040) in
  wf s /\
  exists s', handleLoadR s = Ok tt s' /\
             reg registers.RR0 s' = 0x8000 /\
             memoryRead registers.MRKBDR s' = Ok 0x61 s'.
Proof.
  intros s.
  assert (Hw : wf s).
  { apply wf_set_reg; [apply wf_boot|]; intros; unfold is_word, is_byte;
      try lia. injection H as <-. lia. }
  split; [exact Hw|].
  destruct (poll_keyboard s 0x61 Hw eq_refl eq_refl)
    as (s' & Hs & _ & Hnz & _).
  destruct Hnz as (A & _ & C); [discriminate|].
  exists s'. split; [exact Hs|]. split; [exact A|exact C].
Defined.

(** X13: a fetch from the keyboard status executes the status word.  With
    PC at 0xFE00 and a nonzero input byte the fetched word is 0x8000, whose
    opcode is the unimplemented 8: the loop fails with "failed to handle
    opcode 8".  With a failed input read the loop fails with the read
    error, and no register has changed: PC is not incremented. *)
Theorem fetch_from_keyboard_status (fuel : nat) (s : machine) :
  running s = true ->
  reg registers.RPC s = registers.MRKBSR ->
  (forall key, stdin (env s) (stdin_pos (env s)) = Some key -> key <> 0 ->
   exists s',
     Loop_from dispatch (S fuel) s =
     Fail (FailedToHandleOpcode opcodes.OPRTI) s' /\
     ins s' = 0x8000) /\
  (stdin (env s) (stdin_pos (env s)) = None ->
   exists s',
     Loop_from dispatch (S fuel) s = Fail ReadError s' /\
     core s' = core s).
Proof.
  intros Hrun Hpc. split.
  - intros key Hk Hnz. simpl. rewrite Hrun. unfold Step. rewrite Hpc.
    unfold memoryRead, ReadByte. rewrite Z.eqb_refl, Hk.
    destruct (Z.eqb_spec key 0); [contradiction|]. simpl.
    eexists. split; reflexivity.
  - intros Hk. simpl. rewrite Hrun. unfold Step. rewrite Hpc.
    unfold memoryRead, ReadByte. rewrite Z.eqb_refl, Hk.
    eexists. split; reflexivity.
Qed.

Lemma fetch_from_keyboard_status_witness :
  let s := set_reg registers.RPC 0xFE00
             (boot (fun _ => 0) (fun _ => Some 0x61) 0) in
  running s = true /\ reg registers.RPC s = registers.MRKBSR /\
  exists s', Loop_from dispatch 1 s =
             Fail (FailedToHandleOpcode opcodes.OPRTI) s'.
Proof.
  intros s. split; [reflexivity|]. split; [reflexivity|].
  destruct (fetch_from_keyboard_status 0 s eq_refl eq_refl) as [H _].
  destruct (H 0x61 eq_refl) as (s' & Hs & _); [discriminate|].
  exists s'. exact Hs.
Defined.

(** ** The character traps *)

(** X14: GETC takes one input byte into R0, zero-extended, and sets COND to
    ZERO for the byte 0 and POSITIVE otherwise, never NEGATIVE; it writes
    nothing (no echo), changes no memory and no register but R0 and COND.
    When the read fails it returns the read error and the CPU is
    untouched. *)
Theorem getc_reads_byte (s : machine) :
  wf s ->
  (forall byt, stdin (env s) (stdin_pos (env s)) = Some byt ->
   exists s',
     handleGetC s = Ok tt s' /\
     reg registers.RR0 s' = byt /\
     reg registers.RCOND s' =
       (if byt =? 0 then cflags.FLZRO else cflags.FLPOS) /\
     (forall r, 0 < r -> r <> registers.RCOND -> reg r s' = reg r s) /\
     memory (core s') = memory (core s) /\
     stdout (env s') = stdout (env s) /\
     stdin_pos (env s') = S (stdin_pos (env s))) /\
  (stdin (env s) (stdin_pos (env s)) = None ->
   exists s',
     handleGetC s = Fail ReadError s' /\ core s' = core s /\
     stdout (env s') = stdout (env s)).
Proof.
  intros Hw. unfold handleGetC, ReadByte. split.
  - intros byt Hk. rewrite Hk.
    set (s1 := with_env _ s).
    assert (Hw1 : wf s1) by (apply wf_with_env; [reflexivity|exact Hw]).
    assert (Hb : is_byte byt) by apply (wf_stdin s Hw _ _ Hk).
    destruct (write_then_flags s1 registers.RR0 byt Hw1
                ltac:(unfold registers.RR0; lia) (byte_word _ Hb))
      as (_ & Hr & Hc).
    destruct (updateFlags_eq registers.RR0 (set_reg registers.RR0 byt s1))
      as (f & _ & Eu).
    eexists. split; [reflexivity|]. split; [exact Hr|]. split.
    + rewrite Hc. unfold flag_of. destruct (byt =? 0); [reflexivity|].
      assert (Z.testbit byt 15 = false) as ->; [|reflexivity].
      apply (small_bits_high byt 8); [unfold is_byte in Hb|]; lia.
    + rewrite Eu. split; [|repeat split].
      intros r Hr0 Hne.
      rewrite reg_set_reg_ne by (unfold registers.RCOND in *; lia).
      apply (reg_set_reg_ne s1); unfold registers.RR0; lia.
  - intros Hk. rewrite Hk. eexists. repeat split.
Qed.

Lemma getc_reads_byte_witness :
  let s := boot (fun _ => 0) (fun _ => Some 0xFF) 0xF020 in
  wf s /\
  exists s', handleGetC s = Ok tt s' /\ reg registers.RR0 s' = 0xFF /\
             reg registers.RCOND s' = cflags.FLPOS.
Proof.
  intros s.
  assert (Hw : wf s).
  { apply wf_boot; intros; unfold is_word, is_byte; try lia.
    injection H as <-. lia. }
  split; [exact Hw|].
  destruct (getc_reads_byte s Hw) as [H _].
  destruct (H 0xFF eq_refl) as (s' & A & B & C & _).
  exists s'. split; [exact A|]. split; [exact B|exact C].
Defined.

(** X15: IN writes the prompt "Enter a character: " to the output, takes
    one input byte into R0 with COND set as for GETC, and writes the byte
    back to the input file, not to the output: the output gains the prompt
    only.  When that write fails, IN returns the error with R0 and COND
    already updated. *)
Theorem in_prompts_and_echoes_to_stdin (s : machine) (byt : Z) :
  wf s ->
  stdin (env s) (stdin_pos (env s)) = Some byt ->
  exists s',
    (if stdin_writable (env s)
     then handleIn s = Ok tt s' /\
          stdin_echo (env s') = stdin_echo (env s) ++ [byt]
     else handleIn s = Fail WriteError s' /\
          stdin_echo (env s') = stdin_echo (env s)) /\
    stdout (env s') = stdout (env s) ++ prompt /\
    reg registers.RR0 s' = byt /\
    reg registers.RCOND s' =
      (if byt =? 0 then cflags.FLZRO else cflags.FLPOS).
Proof.
  intros Hw Hk. unfold handleIn, ReadByte.
  change (stdin (env (write_stdout prompt s))) with (stdin (env s)).
  change (stdin_pos (env (write_stdout prompt s))) with (stdin_pos (env s)).
  rewrite Hk.
  set (s1 := with_env _ (write_stdout prompt s)).
  assert (Hw1 : wf s1).
  { apply wf_with_env; [reflexivity|apply wf_write_stdout, Hw]. }
  assert (Hb : is_byte byt) by apply (wf_stdin s Hw _ _ Hk).
  destruct (write_then_flags s1 registers.RR0 byt Hw1
              ltac:(unfold registers.RR0; lia) (byte_word _ Hb))
    as (_ & Hr & Hc).
  destruct (updateFlags_eq registers.RR0 (set_reg registers.RR0 byt s1))
    as (f & _ & Eu).
  assert (Hflag : flag_of byt = if byt =? 0 then cflags.FLZRO
                                else cflags.FLPOS).
  { unfold flag_of. destruct (byt =? 0); [reflexivity|].
    assert (Z.testbit byt 15 = false) as ->; [|reflexivity].
    apply (small_bits_high byt 8); [unfold is_byte in Hb|]; lia. }
  rewrite Hflag in Hc.
  unfold flush_stdin.
  assert (Hwr : stdin_writable
                  (env (updateFlags registers.RR0
                          (set_reg registers.RR0 byt s1)))
                = stdin_writable (env s)) by (rewrite Eu; reflexivity).
  rewrite Hwr. destruct (stdin_writable (env s)).
  - eexists. split; [split; [reflexivity|]|].
    + rewrite Eu. reflexivity.
    + split; [rewrite Eu; reflexivity|]. split; [exact Hr|exact Hc].
  - eexists. split; [split; [reflexivity|]|].
    + rewrite Eu. reflexivity.
    + split; [rewrite Eu; reflexivity|]. split; [exact Hr|exact Hc].
Qed.

Lemma in_prompts_and_echoes_to_stdin_witness :
  let s := boot (fun _ => 0) (fun _ => Some 0x61) 0xF023 in
  wf s /\
  exists s', handleIn s = Ok tt s' /\
             stdout (env s') = prompt /\ stdin_echo (env s') = [0x61].
Proof.
  intros s.
  assert (Hw : wf s).
  { apply wf_boot; intros; unfold is_word, is_byte; try lia.
    injection H as <-. lia. }
  split; [exact Hw|].
  destruct (in_prompts_and_echoes_to_stdin s 0x61 Hw eq_refl)
    as (s' & A & B & _).
  simpl in A. destruct A as [A1 A2].
  exists s'. split; [exact A1|]. split; [exact B|exact A2].
Defined.

(** ** What instructions leave alone *)

(** X16: ADD, AND, NOT, LEA, BR, JMP and JSR always return without error
    and touch neither the memory nor the input and output streams nor the
    loop flag. *)
Theorem register_instructions_leave_memory (o : Z) (fuel : nat)
    (s : machine) :
  In o [opcodes.OPADD; opcodes.OPAND; opcodes.OPNOT; opcodes.OPLEA;
        opcodes.OPBR; opcodes.OPJMP; opcodes.OPJSR] ->
  exists s',
    dispatch o fuel s = Ok tt s' /\
    memory (core s') = memory (core s) /\
    env s' = env s /\ running s' = running s.
Proof.
  intros Ho. simpl in Ho.
  destruct Ho as [<-|[<-|[<-|[<-|[<-|[<-|[<-|[]]]]]]]]; unfold dispatch;
    simpl.
  - unfold handleAdd. cbv zeta.
    destruct (_ =? 1);
      match goal with
      | |- context [updateFlags ?r ?t] =>
          destruct (updateFlags_eq r t) as (f & _ & ->)
      end; eexists; repeat split.
  - unfold handleAnd. cbv zeta.
    destruct (_ =? 1);
      match goal with
      | |- context [updateFlags ?r ?t] =>
          destruct (updateFlags_eq r t) as (f & _ & ->)
      end; eexists; repeat split.
  - unfold handleNot. cbv zeta.
    match goal with
    | |- context [updateFlags ?r ?t] =>
        destruct (updateFlags_eq r t) as (f & _ & ->)
    end; eexists; repeat split.
  - unfold handleLoadEffectiveAddress. cbv zeta.
    match goal with
    | |- context [updateFlags ?r ?t] =>
        destruct (updateFlags_eq r t) as (f & _ & ->)
    end; eexists; repeat split.
  - unfold handleBr. cbv zeta. destruct (negb _); eexists; repeat split.
  - unfold handleJmp. eexists; repeat split.
  - unfold handleJumpSubroutine. cbv zeta.
    destruct (_ =? 0); eexists; repeat split.
Qed.

Lemma register_instructions_leave_memory_witness :
  let s := boot (fun a => a mod 7) (fun _ => Some 1) 0x1025 in
  exists s', dispatch opcodes.OPADD 0 s = Ok tt s' /\
             memory (core s') = memory (core s) /\ env s' = env s.
Proof.
  intros s.
  destruct (register_instructions_leave_memory opcodes.OPADD 0 s)
    as (s' & A & B & C & _).
  - simpl. auto.
  - exists s'. auto.
Defined.

(** X17: a store changes exactly one memory word.  ST, STR and, when the
    pointer is not read from the keyboard status, STI return without error
    and leave the machine they found with the source register's word
    written at the instruction's effective address: registers, streams and
    every other memory word are as before. *)
Theorem stores_write_one_word (o : Z) (fuel : nat) (s : machine) :
  In o [opcodes.OPST; opcodes.OPSTR; opcodes.OPSTI] ->
  (o = opcodes.OPSTI ->
   (reg registers.RPC s + signed_field 9 (Z.land (ins s) 0x1FF)) mod 65536
   <> registers.MRKBSR) ->
  dispatch o fuel s =
  Ok tt (set_mem (store_address o s) (reg (field_dr s) s) s).
Proof.
  intros Ho Hk.
  assert (E9 : wrap16 (reg registers.RPC s
                       + signExtend (Z.land (ins s) 511) 9)
               = (reg registers.RPC s
                  + signed_field 9 (Z.land (ins s) 0x1FF)) mod 65536).
  { apply pc_relative; [lia|]. apply (field_range (ins s) 9). lia. }
  simpl in Ho. destruct Ho as [<-|[<-|[<-|[]]]]; unfold dispatch; simpl.
  - unfold handleStore, memoryWrite. cbv zeta. rewrite E9. reflexivity.
  - unfold handleStr, memoryWrite, store_address. cbv zeta. simpl.
    fold (field_sr1 s).
    rewrite (pc_relative (reg (field_sr1 s) s) (Z.land (ins s) 63) 6);
      [reflexivity|lia|]. apply (field_range (ins s) 6). lia.
  - unfold handleStoreIndirect, memoryWrite, bind, store_address.
    cbv zeta. simpl. rewrite E9.
    rewrite memoryRead_plain by (apply Hk; reflexivity). reflexivity.
Qed.

Lemma stores_write_one_word_witness :
  let s := set_reg 3 0x1234 (boot (fun _ => 0) (fun _ => None) 0x3605) in
  exists s', dispatch opcodes.OPST 0 s = Ok tt s' /\
             mem 0x3005 s' = 0x1234 /\ mem 0x3006 s' = 0 /\
             registers (core s') = registers (core s).
Proof.
  intros s.
  assert (H : In opcodes.OPST [opcodes.OPST; opcodes.OPSTR; opcodes.OPSTI])
    by (simpl; auto).
  pose proof (stores_write_one_word opcodes.OPST 0 s H) as E.
  eexists. split; [apply E; discriminate|].
  repeat split.
Defined.

(** ** What the traps leave alone *)

Lemma handlePuts_loop_registers fuel :
  forall addr s,
    outcome_holds (handlePuts_loop fuel addr s)
      (fun s' => registers (core s') = registers (core s)).
Proof.
  induction fuel as [|fuel IH]; intros addr s; [exact I|].
  rewrite handlePuts_loop_S.
  destruct (memoryRead_cases addr s)
    as [(v & s1 & -> & Hregs & _)|(s1 & -> & Hc & _)];
    [|simpl; rewrite Hc; reflexivity].
  destruct (v =? 0); [exact Hregs|].
  specialize (IH (wrap16 (addr + 1)) (printf_c v s1)).
  unfold outcome_holds in *.
  destruct (handlePuts_loop fuel _ _) as [[] s2|e s2|]; auto;
    rewrite IH; exact Hregs.
Qed.

Lemma handlePutsP_loop_registers fuel :
  forall addr buf s,
    outcome_holds (handlePutsP_loop fuel addr buf s)
      (fun s' => registers (core s') = registers (core s)).
Proof.
  intros addr buf s.
  pose proof (handlePutsP_loop_inv
                (fun t => registers (core t) = registers (core s)) fuel)
    as H.
  unfold outcome_holds.
  destruct (handlePutsP_loop fuel addr buf s) as [[] s'|e s'|] eqn:E;
    [| |exact I].
  all: specialize (H
         ltac:(intros a t Ht;
               destruct (memoryRead_cases a t)
                 as [(v & t' & -> & Hregs & _)|(t' & -> & Hc & _)]; simpl;
               [congruence|rewrite Hc; exact Ht])
         ltac:(intros t t' Ht (Hc & _); rewrite Hc; exact Ht)
         addr buf s eq_refl);
    rewrite E in H.
  - exact H.
  - apply H.
Qed.

Lemma read_into_R0_registers s byt r :
  1 <= r <= 8 ->
  reg r (updateFlags registers.RR0 (set_reg registers.RR0 byt s)) = reg r s.
Proof.
  intros Hr.
  destruct (updateFlags_eq registers.RR0 (set_reg registers.RR0 byt s))
    as (f & _ & ->).
  rewrite reg_set_reg_ne by (unfold registers.RCOND; lia).
  apply reg_set_reg_ne; unfold registers.RR0; lia.
Qed.

Lemma handleGetC_registers s :
  outcome_holds (handleGetC s)
    (fun s' => forall r, 1 <= r <= 8 -> reg r s' = reg r s).
Proof.
  unfold handleGetC, ReadByte.
  destruct (stdin (env s) (stdin_pos (env s))); simpl; intros r Hr;
    [|reflexivity].
  rewrite read_into_R0_registers by exact Hr. reflexivity.
Qed.

Lemma handleIn_registers s :
  outcome_holds (handleIn s)
    (fun s' => forall r, 1 <= r <= 8 -> reg r s' = reg r s).
Proof.
  unfold handleIn, ReadByte.
  change (stdin (env (write_stdout prompt s))) with (stdin (env s)).
  change (stdin_pos (env (write_stdout prompt s))) with (stdin_pos (env s)).
  destruct (stdin (env s) (stdin_pos (env s))) as [byt|];
    [|simpl; reflexivity].
  set (s1 := with_env _ (write_stdout prompt s)).
  assert (HR : forall r, 1 <= r <= 8 ->
             reg r (updateFlags registers.RR0 (set_reg registers.RR0 byt s1))
             = reg r s)
    by (intros r Hr; rewrite read_into_R0_registers by exact Hr;
        reflexivity).
  unfold flush_stdin. destruct (stdin_writable _); simpl; exact HR.
Qed.

(** X18: whatever the trap vector and however the trap ends, the machine
    it leaves has the PC it found, R7 equal to that PC (the return
    address), and R1 to R6 unchanged: a trap can change no register but R0,
    R7 and COND. *)
Theorem traps_keep_pc (fuel : nat) (s : machine) :
  wf s ->
  outcome_holds (handleTrap fuel s)
    (fun s' =>
       reg registers.RPC s' = reg registers.RPC s /\
       reg registers.RR7 s' = reg registers.RPC s /\
       forall r, 1 <= r <= 6 -> reg r s' = reg r s).
Proof.
  intros Hw. unfold handleTrap. cbv zeta.
  set (s1 := set_reg registers.RR7 (reg registers.RPC s) s).
  assert (Hl : length (registers (core s)) = 10%nat) by apply (wf_len s Hw).
  assert (H1 : forall r, 1 <= r <= 8 ->
                 reg r s1 = if r =? 7 then reg registers.RPC s else reg r s).
  { intros r Hr. destruct (Z.eqb_spec r 7) as [->|Hne].
    - apply reg_set_reg_eq. rewrite Hl. unfold registers.RR7. lia.
    - apply reg_set_reg_ne; unfold registers.RR7; lia. }
  assert (Hgoal : forall s',
            (forall r, 1 <= r <= 8 -> reg r s' = reg r s1) ->
            reg registers.RPC s' = reg registers.RPC s /\
            reg registers.RR7 s' = reg registers.RPC s /\
            forall r, 1 <= r <= 6 -> reg r s' = reg r s).
  { intros s' H. split; [|split].
    - rewrite H, H1 by (unfold registers.RPC; lia). reflexivity.
    - rewrite H, H1 by (unfold registers.RR7; lia). reflexivity.
    - intros r Hr. rewrite H, H1 by lia.
      destruct (Z.eqb_spec r 7); [lia|reflexivity]. }
  change (ins s1) with (ins s).
  destruct (trapTable (Z.land (ins s) 255)) as [h|] eqn:Ht;
    [|simpl; apply Hgoal; reflexivity].
  revert Ht. unfold trapTable.
  destruct (Z.land (ins s) 255) as [|p|p]; try discriminate.
  do 6 (destruct p as [p|p|]; try discriminate);
    intros Ht; injection Ht as <-; cbv beta.
  all: try solve [simpl; apply Hgoal; reflexivity].
  all: try solve
    [ rewrite handleOut_eq; unfold Stdout_Write;
      destruct (stdout_err _ _); simpl; apply Hgoal; reflexivity ].
  all: try solve
    [ pose proof (handlePuts_loop_registers fuel
                    (reg registers.RR0 s1) s1) as H;
      unfold handlePuts, outcome_holds in *;
      destruct (handlePuts_loop fuel _ s1) as [[] s2|e s2|]; auto;
      apply Hgoal; intros r _; unfold reg; rewrite H; reflexivity ].
  all: try solve
    [ pose proof (handlePutsP_loop_registers fuel
                    (reg registers.RR0 s1) [] s1) as H;
      unfold handlePutsP, outcome_holds in *;
      destruct (handlePutsP_loop fuel _ _ s1) as [[] s2|e s2|]; auto;
      apply Hgoal; intros r _; unfold reg; rewrite H; reflexivity ].
  all: try solve
    [ pose proof (handleGetC_registers s1) as H;
      unfold outcome_holds in *;
      destruct (handleGetC s1) as [[] s2|e s2|]; try exact I;
      apply Hgoal; exact H ].
  all: try solve
    [ pose proof (handleIn_registers s1) as H;
      unfold outcome_holds in *;
      destruct (handleIn s1) as [[] s2|e s2|]; try exact I;
      apply Hgoal; exact H ].
Qed.

Lemma traps_keep_pc_witness :
  let s := set_reg 0 0x41 (boot (fun _ => 0) (fun _ => None) 0xF021) in
  wf s /\
  exists s', handleTrap 0 s = Ok tt s' /\
             reg registers.RPC s' = 0x3000 /\
             reg registers.RR7 s' = 0x3000 /\
             stdout (env s') = [0x41].
Proof.
  intros s.
  assert (Hw : wf s).
  { apply wf_set_reg; [apply wf_boot|]; try discriminate;
      intros; unfold is_word; lia. }
  split; [exact Hw|].
  pose proof (traps_keep_pc 0 s Hw) as H.
  assert (E : handleTrap 0 s =
              Ok tt (write_stdout [0x41]
                       (set_reg registers.RR7 0x3000 s))) by reflexivity.
  rewrite E in H. simpl in H. destruct H as (A & B & _).
  eexists. split; [exact E|]. split; [exact A|]. split; [exact B|].
  reflexivity.
Defined.

(** ** What the string traps write *)

(** On a scan that reaches a zero word PUTSP returns: normally, or with
    the error of a write that failed. *)
Lemma handlePutsP_loop_scan_cases addr s ws s' :
  scan_words addr s ws s' ->
  forall buf t, same_input s t ->
  match handlePutsP_loop (S (length ws)) addr buf t with
  | Ok _ t' =>
      same_input s' t' /\
      stdout (env t') =
      stdout (env t) ++ buf ++ concat (map putsp_bytes ws)
  | Fail e _ => e = WriteError /\ ~ output_never_fails t
  | Timeout => False
  end.
Proof.
  induction 1 as [addr s s' Hr|addr s c s1 ws s' Hr Hc _ IH];
    intros buf t Hst.
  - destruct (memoryRead_same_input_Ok _ _ _ _ _ Hst Hr) as (t1 & Ht & Hs).
    simpl length. rewrite (handlePutsP_loop_zero _ _ _ _ _ Ht).
    pose proof (bufio_Flush_cases buf t1) as H.
    destruct (bufio_Flush buf t1) as [[] t'|e t'|]; [| |contradiction].
    + destruct H as (Ho & Hout & _). split.
      { eapply same_input_trans; [exact Hs|].
        apply same_input_sym, output_only_same_input, Ho. }
      rewrite Hout. simpl. rewrite app_nil_r.
      destruct (memoryRead_env _ _ _ _ Ht) as (-> & _). reflexivity.
    + destruct H as (-> & _ & _ & He). split; [reflexivity|].
      intros Hn. apply (output_fails_now t1 He).
      apply (memoryRead_never_fails _ _ _ _ Ht Hn).
  - destruct (memoryRead_same_input_Ok _ _ _ _ _ Hst Hr) as (t1 & Ht & Hs).
    change (length (c :: ws)) with (S (length ws)).
    destruct (handlePutsP_loop_word (S (length ws)) addr buf t c t1 Ht Hc)
      as [(buf2 & t3 & -> & Ho & Hout3 & _)|(t3 & -> & _ & Hf & _)].
    + assert (Hs3 : same_input s1 t3).
      { eapply same_input_trans; [exact Hs|].
        apply same_input_sym, output_only_same_input, Ho. }
      specialize (IH buf2 t3 Hs3).
      destruct (handlePutsP_loop (S (length ws)) (wrap16 (addr + 1)) buf2 t3)
        as [[] t'|e t'|]; [| |contradiction].
      * destruct IH as [Hs' Hout]. split; [exact Hs'|].
        rewrite Hout, app_assoc, Hout3.
        destruct (memoryRead_env _ _ _ _ Ht) as (-> & _).
        simpl. rewrite <- !app_assoc. reflexivity.
      * destruct IH as [-> Hf]. split; [reflexivity|].
        intros Hn. apply Hf.
        apply (output_only_never_fails t1 t3 Ho).
        apply (memoryRead_never_fails _ _ _ _ Ht Hn).
    + split; [reflexivity|]. intros Hn. apply Hf.
      apply (memoryRead_never_fails _ _ _ _ Ht Hn).
Qed.

(** X19: on a scan that reaches a zero word PUTSP returns.  When its
    writes to the output succeed it returns normally, having written, for
    each nonzero word in address order, its low byte and then its high byte
    unless that is zero; the low byte is written even when it is zero, and
    buffering does not reorder or lose a byte.  It returns an error only
    when a write to the output fails, and the error is that of the
    write. *)
Theorem handlePutsP_writes (s : machine) (ws : list Z) (s' : machine) :
  scan_words (reg registers.RR0 s) s ws s' ->
  (output_never_fails s ->
   exists t',
     handlePutsP (S (length ws)) s = Ok tt t' /\
     same_input s' t' /\
     stdout (env t') = stdout (env s) ++ concat (map putsp_bytes ws)) /\
  match handlePutsP (S (length ws)) s with
  | Ok _ t' =>
      same_input s' t' /\
      stdout (env t') = stdout (env s) ++ concat (map putsp_bytes ws)
  | Fail e _ => e = WriteError /\ ~ output_never_fails s
  | Timeout => False
  end.
Proof.
  intros Hsc. unfold handlePutsP.
  pose proof (handlePutsP_loop_scan_cases _ _ _ _ Hsc [] s
                (same_input_refl s)) as H.
  split; [|exact H].
  intros Hn.
  destruct (handlePutsP_loop (S (length ws)) (reg registers.RR0 s) [] s)
    as [[] t'|e t'|]; [| |contradiction].
  - exists t'. split; [reflexivity|exact H].
  - destruct H as [_ H]. contradiction.
Qed.

Lemma handlePutsP_writes_witness :
  let image := fun a => if a =? 0x4000 then 0x6948
                        else if a =? 0x4001 then 0x4100 else 0 in
  let s := set_reg registers.RR0 0x4000
             (boot image (fun _ => None) 0xF024) in
  output_never_fails s /\
  exists t',
    handlePutsP 3 s = Ok tt t' /\
    stdout (env t') = [0x48; 0x69; 0x00; 0x41].
Proof.
  intros image s.
  assert (Hsc : scan_words (reg registers.RR0 s) s [0x6948; 0x4100] s).
  { eapply scan_more; [reflexivity|discriminate|].
    eapply scan_more; [reflexivity|discriminate|].
    apply scan_zero. reflexivity. }
  assert (Hn : output_never_fails s) by (intros k _; reflexivity).
  split; [exact Hn|].
  destruct (handlePutsP_writes s _ s Hsc) as [H _].
  destruct (H Hn) as (t' & A & _ & B).
  exists t'. split; [exact A|exact B].
Defined.

Lemma memoryRead_same_input_Fail address s t e s' :
  same_input s t -> memoryRead address s = Fail e s' ->
  exists t', memoryRead address t = Fail ReadError t' /\
             stdout (env t') = stdout (env t).
Proof.
  intros Hst Hr. pose proof (memoryRead_same_input address s t Hst) as H.
  rewrite Hr in H.
  destruct (memoryRead_cases address t)
    as [(v & t' & Ht & _)|(t' & Ht & _ & _ & Ho & _)].
  - rewrite Ht in H. contradiction.
  - eauto.
Qed.

Lemma handlePuts_loop_fails addr s ws s' :
  scan_fails addr s ws s' ->
  forall t, same_input s t ->
  exists t',
    handlePuts_loop (S (length ws)) addr t = Fail ReadError t' /\
    stdout (env t') = stdout (env t) ++ concat (map utf8_AppendRune ws).
Proof.
  induction 1 as [addr s e s' Hr|addr s c s1 ws s' Hr Hc _ IH];
    intros t Hst.
  - destruct (memoryRead_same_input_Fail _ _ _ _ _ Hst Hr) as (t' & Ht & Ho).
    exists t'. rewrite handlePuts_loop_S, Ht. split; [reflexivity|].
    simpl. rewrite app_nil_r. exact Ho.
  - destruct (memoryRead_same_input_Ok _ _ _ _ _ Hst Hr) as (t1 & Ht & Hs).
    destruct (IH (printf_c c t1)) as (t' & Hl & Hout).
    { eapply same_input_trans; [exact Hs|].
      apply same_input_sym, same_input_write_stdout. }
    exists t'. change (length (c :: ws)) with (S (length ws)).
    rewrite handlePuts_loop_S, Ht.
    destruct (Z.eqb_spec c 0); [contradiction|].
    split; [exact Hl|]. rewrite Hout. simpl. rewrite <- app_assoc.
    destruct (memoryRead_env _ _ _ _ Ht) as (-> & _). reflexivity.
Qed.

Lemma putsp_bytes_length c : (length (putsp_bytes c) <= 2)%nat.
Proof. unfold putsp_bytes. destruct (_ =? 0); simpl; lia. Qed.

Lemma handlePutsP_loop_fails addr s ws s' :
  scan_fails addr s ws s' ->
  forall buf t, same_input s t ->
  (length buf + 2 * length ws <= 4096)%nat ->
  exists t',
    handlePutsP_loop (S (length ws)) addr buf t = Fail ReadError t' /\
    stdout (env t') = stdout (env t).
Proof.
  induction 1 as [addr s e s' Hr|addr s c s1 ws s' Hr Hc _ IH];
    intros buf t Hst Hlen.
  - destruct (memoryRead_same_input_Fail _ _ _ _ _ Hst Hr) as (t' & Ht & Ho).
    exists t'. rewrite handlePutsP_loop_S, Ht. auto.
  - destruct (memoryRead_same_input_Ok _ _ _ _ _ Hst Hr) as (t1 & Ht & Hs).
    change (length (c :: ws)) with (S (length ws)) in *.
    destruct (handlePutsP_loop_word (S (length ws)) addr buf t c t1 Ht Hc)
      as [(buf2 & t3 & -> & _ & _ & _ & Hsmall & _)|(t3 & _ & _ & _ & Hbig)];
      [|lia].
    destruct Hsmall as [-> ->]; [lia|].
    destruct (IH (buf ++ putsp_bytes c) t1 Hs) as (t' & Hl & Hout).
    { rewrite length_app. pose proof (putsp_bytes_length c). lia. }
    exists t'. split; [exact Hl|]. rewrite Hout.
    apply (memoryRead_env _ _ _ _ Ht).
Qed.

(** X20: when an input read fails during the scan (the scan reaches the
    keyboard status before a zero word), both string traps return the read
    error, but PUTS has already written the characters before the failure
    while PUTSP, whose pending bytes (at most 4096) are dropped with its
    writer, has written nothing. *)
Theorem string_traps_on_read_failure (s : machine) (ws : list Z)
    (s' : machine) :
  scan_fails (reg registers.RR0 s) s ws s' ->
  (2 * length ws <= 4096)%nat ->
  (exists t',
     handlePuts (S (length ws)) s = Fail ReadError t' /\
     stdout (env t') =
     stdout (env s) ++ concat (map utf8_AppendRune ws)) /\
  (exists t',
     handlePutsP (S (length ws)) s = Fail ReadError t' /\
     stdout (env t') = stdout (env s)).
Proof.
  intros Hsc Hlen. split.
  - apply (handlePuts_loop_fails _ _ _ _ Hsc s (same_input_refl s)).
  - apply (handlePutsP_loop_fails _ _ _ _ Hsc [] s (same_input_refl s)).
    simpl. lia.
Qed.

Lemma string_traps_on_read_failure_witness :
  let s := set_reg registers.RR0 0xFDFF
             (boot (fun _ => 0x41) (fun _ => None) 0xF022) in
  (exists t', handlePuts 2 s = Fail ReadError t' /\
              stdout (env t') = [0x41]) /\
  (exists t', handlePutsP 2 s = Fail ReadError t' /\
              stdout (env t') = []).
Proof.
  intros s.
  assert (Hsc : scan_fails (reg registers.RR0 s) s [0x41]
                  (snd (ReadByte s))).
  { eapply scan_fail_more; [reflexivity|discriminate|].
    eapply scan_fail. reflexivity. }
  destruct (string_traps_on_read_failure s _ _ Hsc) as [A B].
  - simpl. lia.
  - split; [exact A|exact B].
Defined.

(** ** When the output fails *)

Lemma memoryRead_always_fails address s v s' :
  memoryRead address s = Ok v s' ->
  output_always_fails s -> output_always_fails s'.
Proof.
  unfold memoryRead, ReadByte, output_always_fails.
  destruct (address =? registers.MRKBSR).
  - destruct (stdin (env s) (stdin_pos (env s))) as [key|]; [|discriminate].
    intros H. injection H as _ <-. destruct (negb (key =? 0)); auto.
  - intros H. injection H as _ <-. auto.
Qed.

(** With every write failing nothing is flushed, so the pending bytes grow
    by at least one a word until 4096 are pending; the next write fails. *)
Lemma handlePutsP_loop_output_fails n :
  forall addr buf s,
    (4096 <= length buf + n)%nat ->
    is_word addr -> no_zero_word s -> input_nonzero s ->
    output_always_fails s ->
    exists s',
      handlePutsP_loop (S n) addr buf s = Fail WriteError s' /\
      registers (core s') = registers (core s).
Proof.
  induction n as [|n IH]; intros addr buf s Hlen Ha Hz Hin Hf.
  all: destruct (memoryRead_nonzero addr s Ha Hz Hin)
         as (c & s1 & Hr & Hc & Hz1 & Hin1).
  all: pose proof (memoryRead_always_fails _ _ _ _ Hr Hf) as Hf1.
  all: destruct (memoryRead_regs _ _ _ _ Hr) as (Hregs & _).
  all: match goal with
       | |- context [handlePutsP_loop (S ?f) _ _ _] =>
           destruct (handlePutsP_loop_word f addr buf s c s1 Hr Hc)
             as [(buf2 & s3 & E & Ho & _ & _ & _ & Herr)
                |(s3 & -> & Ho & _)]
       end.
  all: try solve [ exists s3; split; [reflexivity|];
                   destruct Ho as (-> & _); exact Hregs ].
  - destruct (Herr (Hf1 _ (le_n _))) as (Hl & _). lia.
  - destruct (Herr (Hf1 _ (le_n _))) as (Hl & -> & ->). rewrite E.
    destruct (IH (wrap16 (addr + 1)) (buf ++ putsp_bytes c) s1)
      as (s' & Hs' & Hregs'); auto using wrap16_word.
    { rewrite length_app. unfold putsp_bytes.
      destruct (_ =? 0); simpl; lia. }
    exists s'. split; [exact Hs'|congruence].
Qed.

(** X23: OUT makes one write to the output, of the low byte of R0, and
    returns the error of that write: it returns normally when the write
    succeeds, the output grown by that byte, and returns the write error
    when the write fails.  Either way the CPU, the loop flag and the input
    are as they were. *)
Theorem out_writes_low_byte (s : machine) :
  exists s',
    handleOut s =
      (if stdout_err (env s) (stdout_calls (env s))
       then Fail WriteError s' else Ok tt s') /\
    output_only s s' /\
    stdout_calls (env s') = S (stdout_calls (env s)) /\
    (stdout_err (env s) (stdout_calls (env s)) = false ->
     stdout (env s') = stdout (env s) ++ [to_byte (reg registers.RR0 s)]).
Proof.
  exists (write_stdout [to_byte (reg registers.RR0 s)] s).
  rewrite handleOut_eq. unfold Stdout_Write.
  split; [destruct (stdout_err _ _); reflexivity|].
  split; [apply output_only_write_stdout|].
  split; reflexivity.
Qed.

(** X24: PUTSP does not outlast a failing output.  When no address holds
    a zero word, every input read gives a nonzero byte and every write to
    the output fails, PUTSP returns the write error within 4097 words, the
    flush of its full 4096-byte buffer having failed, and has changed no
    register. *)
Theorem putsp_returns_write_error (s : machine) :
  wf s -> no_zero_word s -> input_nonzero s -> output_always_fails s ->
  exists s',
    handlePutsP 4097 s = Fail WriteError s' /\
    registers (core s') = registers (core s).
Proof.
  intros Hw Hz Hin Hf. unfold handlePutsP.
  apply (handlePutsP_loop_output_fails 4096); auto; try apply le_n.
  apply wf_reg; [exact Hw|unfold registers.RR0; lia].
Qed.

Lemma putsp_returns_write_error_witness :
  let s := with_env
             (fun w => mkWorld (stdin w) (stdin_pos w) (stdout w)
                         (fun _ => true) (stdout_calls w)
                         (stdin_writable w) (stdin_echo w))
             (set_reg registers.RR0 0x4000
                (boot (fun _ => 0x4141) (fun _ => Some 0x41) 0xF024)) in
  wf s /\ no_zero_word s /\ input_nonzero s /\ output_always_fails s /\
  exists s', handlePutsP 4097 s = Fail WriteError s'.
Proof.
  intros s.
  assert (Hw : wf s).
  { apply wf_with_env; [reflexivity|].
    apply wf_set_reg; [apply wf_boot|]; intros; unfold is_word, is_byte;
      try lia. injection H as <-. lia. }
  assert (Hz : no_zero_word s) by (intros a _; discriminate).
  assert (Hin : input_nonzero s)
    by (intros k; exists 0x41; split; [reflexivity|discriminate]).
  assert (Hf : output_always_fails s) by (intros k _; reflexivity).
  repeat (split; [assumption|]).
  destruct (putsp_returns_write_error s Hw Hz Hin Hf) as (s' & H & _).
  exists s'. exact H.
Defined.

(** ** Loading an image *)

Lemma binary_Read_word buffer k :
  0 <= k ->
  ((length buffer mod 2 = 1)%nat ->
   nth (length buffer - 1)%nat buffer 0 = 0) ->
  word_of_bytes buffer (k + 1) =
    word_of_bytes (snd (binary_Read_uint16 buffer)) k /\
  word_of_bytes buffer 0 = fst (binary_Read_uint16 buffer) /\
  ((length (snd (binary_Read_uint16 buffer)) mod 2 = 1)%nat ->
   nth (length (snd (binary_Read_uint16 buffer)) - 1)%nat
       (snd (binary_Read_uint16 buffer)) 0 = 0).
Proof.
  intros Hk Hodd. unfold word_of_bytes.
  destruct buffer as [|b0 [|b1 rest]]; simpl binary_Read_uint16;
    cbn [fst snd].
  - split; [|split; [reflexivity|intros H; discriminate]].
    destruct (Z.to_nat (2 * (k + 1))), (Z.to_nat (2 * k)),
      (Z.to_nat (2 * (k + 1) + 1)), (Z.to_nat (2 * k + 1)); reflexivity.
  - assert (b0 = 0) as -> by (apply Hodd; reflexivity).
    split; [|split; [reflexivity|intros H; discriminate]].
    replace (Z.to_nat (2 * (k + 1))) with (S (S (Z.to_nat (2 * k)))) by lia.
    replace (Z.to_nat (2 * (k + 1) + 1))
      with (S (S (Z.to_nat (2 * k + 1)))) by lia.
    simpl.
    destruct (Z.to_nat (2 * k)), (Z.to_nat (2 * k + 1)); reflexivity.
  - split; [|split; [reflexivity|]].
    + replace (Z.to_nat (2 * (k + 1))) with (S (S (Z.to_nat (2 * k))))
        by lia.
      replace (Z.to_nat (2 * (k + 1) + 1))
        with (S (S (Z.to_nat (2 * k + 1)))) by lia.
      reflexivity.
    + intros H. simpl length in Hodd.
      replace (S (S (length rest)) mod 2)%nat with (length rest mod 2)%nat
        in Hodd.
      2:{ change (S (S (length rest))) with (2 + length rest)%nat.
          rewrite Nat.add_comm.
          rewrite <- (Nat.Div0.add_mod_idemp_r (length rest) 2 2).
          rewrite Nat.Div0.mod_same, Nat.add_0_r. reflexivity. }
      specialize (Hodd H).
      destruct rest as [|r rest']; [discriminate|].
      simpl in Hodd |- *. rewrite Nat.sub_0_r in *. exact Hodd.
Qed.

Lemma readImage_loop_spec fuel :
  forall i buffer m,
    0 <= i <= 65535 ->
    (Z.to_nat (65535 - i) <= fuel)%nat ->
    ((length buffer mod 2 = 1)%nat ->
     nth (length buffer - 1)%nat buffer 0 = 0) ->
    exists m',
      readImage_loop fuel i buffer m = Some m' /\
      forall a, m' a = if (i <=? a) && (a <? 65535)
                       then word_of_bytes buffer (a - i) else m a.
Proof.
  induction fuel as [|fuel IH]; intros i buffer m Hi Hfuel Hodd.
  - assert (i = 65535) as -> by lia. exists m. split; [reflexivity|].
    intros a. destruct (Z.leb_spec 65535 a), (Z.ltb_spec a 65535);
      simpl; try reflexivity; lia.
  - cbn [readImage_loop]. destruct (Z.ltb_spec i 65535) as [Hlt|Hge].
    + destruct (binary_Read_word buffer 0 ltac:(lia) Hodd) as (_ & H0 & Hodd').
      destruct (binary_Read_uint16 buffer) as [val buffer'] eqn:Eb.
      cbn [fst snd] in *.
      destruct (IH (i + 1) buffer' (fun a => if a =? i then val else m a))
        as (m' & Hm' & Hspec); [lia|lia|exact Hodd'|].
      exists m'. split; [exact Hm'|]. intros a. rewrite Hspec.
      destruct (Z.lt_trichotomy a i) as [Hai|[->|Hai]].
      * replace (i + 1 <=? a) with false by (symmetry; apply Z.leb_gt; lia).
        replace (i <=? a) with false by (symmetry; apply Z.leb_gt; lia).
        replace (a =? i) with false by (symmetry; apply Z.eqb_neq; lia).
        reflexivity.
      * replace (i + 1 <=? i) with false by (symmetry; apply Z.leb_gt; lia).
        rewrite Z.leb_refl, Z.eqb_refl, Z.sub_diag, H0.
        replace (i <? 65535) with true by (symmetry; apply Z.ltb_lt; lia).
        reflexivity.
      * replace (i + 1 <=? a) with true by (symmetry; apply Z.leb_le; lia).
        replace (i <=? a) with true by (symmetry; apply Z.leb_le; lia).
        replace (a =? i) with false by (symmetry; apply Z.eqb_neq; lia).
        destruct (a <? 65535); [|reflexivity]. simpl.
        destruct (binary_Read_word buffer (a - (i + 1)) ltac:(lia) Hodd)
          as (Hk & _). rewrite Eb in Hk. cbn [snd] in Hk.
        rewrite <- Hk. f_equal. lia.
    + assert (i = 65535) as -> by lia. exists m. split; [reflexivity|].
      intros a. destruct (Z.leb_spec 65535 a), (Z.ltb_spec a 65535);
        simpl; try reflexivity; lia.
Qed.

Lemma nth_app_zeros (l : list Z) n i :
  nth i (l ++ repeat 0 n) 0 = nth i l 0.
Proof.
  destruct (Nat.lt_ge_cases i (length l)) as [Hlt|Hge].
  - apply app_nth1. exact Hlt.
  - rewrite app_nth2 by exact Hge. rewrite (nth_overflow l) by exact Hge.
    generalize (i - length l)%nat. clear. intros j. revert j.
    induction n as [|n IH]; intros [|j]; simpl; auto.
Qed.

Lemma word_of_bytes_word bs k :
  Forall is_byte bs -> is_word (word_of_bytes bs k).
Proof.
  intros Hb. unfold word_of_bytes.
  assert (H : forall i, is_byte (nth i bs 0)).
  { intros i. destruct (Nat.lt_ge_cases i (length bs)) as [Hlt|Hge].
    - apply Forall_nth; assumption.
    - rewrite nth_overflow by exact Hge. unfold is_byte. lia. }
  pose proof (H (Z.to_nat (2 * k))) as H0.
  pose proof (H (Z.to_nat (2 * k + 1))) as H1.
  unfold is_byte, is_word in *. lia.
Qed.

(** X21: an image file without a payload is rejected: for an empty file,
    a one-byte file and a file holding only the two-byte origin, [readImage]
    returns the end-of-file error and an all-zero memory. *)
Theorem readImage_needs_payload (fuel : nat) (content : list Z) :
  (length content <= 2)%nat ->
  exists m,
    readImage fuel content = Some (m, Some LoadEOF) /\ forall a, m a = 0.
Proof.
  intros Hlen. exists (fun _ => 0). split; [|reflexivity].
  destruct content as [|b0 [|b1 [|b2 rest]]]; try reflexivity.
  simpl in Hlen. lia.
Qed.

Lemma readImage_needs_payload_witness :
  exists m, readImage 0 [0x30; 0x00] = Some (m, Some LoadEOF).
Proof.
  destruct (readImage_needs_payload 0 [0x30; 0x00]) as (m & H & _).
  - simpl. lia.
  - exists m. exact H.
Defined.

(** X22: an image file of at least three bytes is loaded without error:
    the first two bytes are the big-endian origin, and the memory holds, at
    each address from the origin up to 0xFFFE, the big-endian word made of
    the next two payload bytes, missing bytes counting as zero (so an odd
    last byte becomes the high byte of a word); every address below the
    origin and the address 0xFFFF hold 0.  The memory is one of 16-bit
    words. *)
Theorem readImage_loads_words (fuel : nat) (content : list Z) :
  (3 <= length content)%nat ->
  Forall is_byte content ->
  (Z.to_nat 65535 <= fuel)%nat ->
  let origin := nth 0 content 0 * 256 + nth 1 content 0 in
  let payload := skipn 2 content in
  exists m,
    readImage fuel content = Some (m, None) /\
    (forall a, m a = if (origin <=? a) && (a <? 65535)
                     then word_of_bytes payload (a - origin) else 0) /\
    word_image m.
Proof.
  intros Hlen Hbytes Hfuel origin payload.
  destruct content as [|b0 [|b1 rest]]; simpl in Hlen; try lia.
  assert (Hb0 : is_byte b0) by (inversion Hbytes; assumption).
  assert (Hb1 : is_byte b1)
    by (inversion Hbytes as [|? ? _ H]; inversion H; assumption).
  assert (Hrest : Forall is_byte rest)
    by (inversion Hbytes as [|? ? _ H]; inversion H; assumption).
  destruct rest as [|b2 rest']; simpl in Hlen; [lia|].
  set (rest := b2 :: rest') in *.
  unfold readImage.
  assert (E1 : file_Read (b0 :: b1 :: rest) 0 2 = (Some [b0; b1], 2%nat))
    by reflexivity.
  rewrite E1. cbn [nth].
  assert (E2 : file_Read (b0 :: b1 :: rest) 2 (length (b0 :: b1 :: rest))
               = (Some (rest ++ repeat 0 2),
                  (2 + length rest)%nat)).
  { unfold file_Read.
    change (skipn 2 (b0 :: b1 :: rest)) with rest.
    rewrite (firstn_all2 rest) by (simpl; lia).
    replace (length (b0 :: b1 :: rest) - length rest)%nat with 2%nat
      by (simpl; lia).
    reflexivity. }
  rewrite E2.
  subst origin payload. cbn [nth skipn].
  assert (Ho : 0 <= b0 * 256 + b1 <= 65535)
    by (unfold is_byte in *; lia).
  destruct (readImage_loop_spec fuel (b0 * 256 + b1) (rest ++ repeat 0 2)
              (fun _ => 0) Ho) as (m & Hm & Hspec).
  - lia.
  - intros _. rewrite nth_app_zeros. apply nth_overflow.
    rewrite length_app, repeat_length. lia.
  - exists m. rewrite Hm. split; [reflexivity|].
    assert (Hval : forall a,
              m a = if (b0 * 256 + b1 <=? a) && (a <? 65535)
                    then word_of_bytes rest (a - (b0 * 256 + b1)) else 0).
    { intros a. rewrite Hspec.
      destruct ((b0 * 256 + b1 <=? a) && (a <? 65535)); [|reflexivity].
      unfold word_of_bytes. rewrite !nth_app_zeros. reflexivity. }
    split; [exact Hval|].
    intros a. rewrite Hval.
    destruct ((b0 * 256 + b1 <=? a) && (a <? 65535)).
    + apply word_of_bytes_word, Hrest.
    + unfold is_word. lia.
Qed.

Lemma readImage_loads_words_witness :
  let content := [0x30; 0x00; 0x12; 0x34; 0x56] in
  (3 <= length content)%nat /\ Forall is_byte content /\
  exists m,
    readImage (Z.to_nat 65536) content = Some (m, None) /\
    m 0x3000 = 0x1234 /\ m 0x3001 = 0x5600 /\ m 0x3002 = 0 /\
    m 0x2FFF = 0 /\ m 0xFFFF = 0.
Proof.
  intros content.
  assert (Hlen : (3 <= length content)%nat) by (simpl; lia).
  assert (Hb : Forall is_byte content)
    by (repeat constructor; unfold is_byte; lia).
  split; [exact Hlen|]. split; [exact Hb|].
  destruct (readImage_loads_words (Z.to_nat 65536) content Hlen Hb)
    as (m & Hm & Hv & _); [lia|].
  exists m. split; [exact Hm|].
  rewrite !Hv. repeat split; reflexivity.
Defined.
